(** * MediaParser: a shallow embedding of the timestamp confidence engine,
    the duplicate engine, the import/export jobs and the review mutations.

    Conventions of the embedding.
    - A Python [str] is a Rocq [string] (ASCII); [None] is [option]'s [None].
    - A timezone-aware [datetime] is compared and subtracted by its instant;
      instants are [Z] microseconds.  Its [.year] attribute is read from its
      own wall clock, so the confidence engine keeps it as a separate field.
    - [uuid.uuid4().hex[:16]] is a fresh-name supply: a counter threaded
      through the duplicate engine and a function naming the n-th id.
    - SQLAlchemy [File] rows are records; a job's files are a list of rows
      with distinct ids, updated in place by id (this is how the aliasing of
      the Python objects is kept). *)

From Stdlib Require Import ZArith Lia List Bool String Ascii QArith.
From Stdlib Require Import Sorting.Sorted Sorting.Permutation.
Import ListNotations.

Open Scope string_scope.
Open Scope list_scope.
Open Scope Z_scope.

(* ------------------------------------------------------------------ *)
(** ** app/lib/perceptual.py: [hamming_distance] *)

Module Perceptual.

(** Python's [int(s, 16)] (CPython [PyLong_FromString] for base 16):
    surrounding whitespace, an optional sign, an optional [0x]/[0X] prefix
    (which may be followed by one underscore), then hex digits with single
    underscores allowed between digits. *)

Definition is_py_space (c : ascii) : bool :=
  let n := nat_of_ascii c in
  ((9 <=? n)%nat && (n <=? 13)%nat) || ((28 <=? n)%nat && (n <=? 32)%nat).

Definition hex_val (c : ascii) : option Z :=
  let n := nat_of_ascii c in
  if (48 <=? n)%nat && (n <=? 57)%nat then Some (Z.of_nat n - 48)
  else if (97 <=? n)%nat && (n <=? 102)%nat then Some (Z.of_nat n - 87)
  else if (65 <=? n)%nat && (n <=? 70)%nat then Some (Z.of_nat n - 55)
  else None.

Fixpoint skip_ws (l : list ascii) : list ascii :=
  match l with
  | c :: r => if is_py_space c then skip_ws r else l
  | [] => []
  end.

Definition all_ws (l : list ascii) : bool := forallb is_py_space l.

(** The digit loop: consumes digits and [_digit] pairs. *)
Fixpoint digits_loop (acc : Z) (l : list ascii) : Z * list ascii :=
  match l with
  | c :: r =>
      match hex_val c with
      | Some d => digits_loop (acc * 16 + d) r
      | None =>
          if Ascii.eqb c "_"%char then
            match r with
            | c2 :: r2 =>
                match hex_val c2 with
                | Some d => digits_loop (acc * 16 + d) r2
                | None => (acc, l)
                end
            | [] => (acc, l)
            end
          else (acc, l)
      end
  | [] => (acc, [])
  end.

Definition strip_sign (l : list ascii) : bool * list ascii :=
  match l with
  | c :: r =>
      if Ascii.eqb c "-"%char then (true, r)
      else if Ascii.eqb c "+"%char then (false, r)
      else (false, l)
  | [] => (false, [])
  end.

Definition strip_prefix (l : list ascii) : list ascii :=
  match l with
  | c0 :: c1 :: r =>
      if Ascii.eqb c0 "0"%char && (Ascii.eqb c1 "x"%char || Ascii.eqb c1 "X"%char)
      then match r with
           | u :: r' => if Ascii.eqb u "_"%char then r' else r
           | [] => r
           end
      else l
  | _ => l
  end.

(** [int(s, 16)]: [None] stands for the [ValueError]. *)
Definition int16 (s : string) : option Z :=
  let '(neg, l1) := strip_sign (skip_ws (list_ascii_of_string s)) in
  match strip_prefix l1 with
  | c :: r =>
      match hex_val c with
      | Some d =>
          let '(v, rest) := digits_loop d r in
          if all_ws rest then Some (if neg then - v else v) else None
      | None => None
      end
  | [] => None
  end.

(** [int.bit_count()]: the number of ones in the absolute value. *)
Fixpoint pos_popcount (p : positive) : Z :=
  match p with
  | xH => 1
  | xO q => pos_popcount q
  | xI q => 1 + pos_popcount q
  end.

Definition bit_count (z : Z) : Z :=
  match Z.abs z with
  | Zpos p => pos_popcount p
  | _ => 0
  end.

(** Python truthiness of an [Optional[str]]. *)
Definition truthy (s : option string) : bool :=
  match s with
  | Some EmptyString | None => false
  | Some _ => true
  end.

Definition hamming_distance (hash1 hash2 : option string) : Z :=
  if negb (truthy hash1) || negb (truthy hash2) then 999
  else match hash1, hash2 with
       | Some s1, Some s2 =>
           match int16 s1, int16 s2 with
           | Some int1, Some int2 => bit_count (Z.lxor int1 int2)
           | _, _ => 999
           end
       | _, _ => 999
       end.

Definition hexb (c : ascii) : bool :=
  match hex_val c with Some _ => true | None => false end.

(** A string made only of hex digits, at least one. *)
Definition is_hex_digits (s : string) : bool :=
  match list_ascii_of_string s with
  | [] => false
  | l => forallb hexb l
  end.

End Perceptual.

(* ------------------------------------------------------------------ *)
(** ** app/models.py: the [File] row *)

Module Model.

(** The columns the core reads and writes (the group columns come from the
    phase-6 migration).  Datetime columns hold instants in microseconds. *)
Record File := mkFile {
  id : Z;
  original_filename : string;
  file_hash_sha256 : option string;
  file_hash_perceptual : option string;
  detected_timestamp : option Z;
  final_timestamp : option Z;
  reviewed_at : option Z;
  discarded : bool;
  output_path : option string;
  processing_error : option string;
  exact_group_id : option string;
  exact_group_confidence : option string;
  similar_group_id : option string;
  similar_group_confidence : option string;
  similar_group_type : option string
}.

Definition set_exact (g c : option string) (f : File) : File :=
  mkFile f.(id) f.(original_filename) f.(file_hash_sha256) f.(file_hash_perceptual)
    f.(detected_timestamp) f.(final_timestamp) f.(reviewed_at) f.(discarded)
    f.(output_path) f.(processing_error) g c
    f.(similar_group_id) f.(similar_group_confidence) f.(similar_group_type).

Definition set_similar (g c t : option string) (f : File) : File :=
  mkFile f.(id) f.(original_filename) f.(file_hash_sha256) f.(file_hash_perceptual)
    f.(detected_timestamp) f.(final_timestamp) f.(reviewed_at) f.(discarded)
    f.(output_path) f.(processing_error) f.(exact_group_id) f.(exact_group_confidence)
    g c t.

Definition set_review (final rev : option Z) (f : File) : File :=
  mkFile f.(id) f.(original_filename) f.(file_hash_sha256) f.(file_hash_perceptual)
    f.(detected_timestamp) final rev f.(discarded)
    f.(output_path) f.(processing_error) f.(exact_group_id) f.(exact_group_confidence)
    f.(similar_group_id) f.(similar_group_confidence) f.(similar_group_type).

Definition set_discarded (b : bool) (f : File) : File :=
  mkFile f.(id) f.(original_filename) f.(file_hash_sha256) f.(file_hash_perceptual)
    f.(detected_timestamp) f.(final_timestamp) f.(reviewed_at) b
    f.(output_path) f.(processing_error) f.(exact_group_id) f.(exact_group_confidence)
    f.(similar_group_id) f.(similar_group_confidence) f.(similar_group_type).

(** The session's identity map: rows by primary key, mutated in place. *)
Definition Db := list File.

Definition get (db : Db) (i : Z) : option File :=
  find (fun f => f.(id) =? i) db.

Definition update (i : Z) (g : File -> File) (db : Db) : Db :=
  map (fun f => if f.(id) =? i then g f else f) db.

(** A plain file row, for examples. *)
Definition blank (i : Z) (name : string) : File :=
  mkFile i name None None None None None false None None None None None None None.

End Model.

(* ------------------------------------------------------------------ *)
(** ** app/lib/perceptual.py: clustering and pairwise analysis *)

Module Engine.
Import Perceptual Model.

Definition EXACT_THRESHOLD := 5.
Definition SIMILAR_THRESHOLD := 20.
Definition CLUSTER_WINDOW_SECONDS := 5.
Definition BURST_THRESHOLD := 2.
Definition PANORAMA_THRESHOLD := 30.
Definition SECOND := 1000000.

(** [uuid.uuid4().hex[:16]]: the n-th fresh id, 16 hex characters. *)
Definition hex_char (d : Z) : ascii :=
  if d <? 10 then ascii_of_nat (48 + Z.to_nat d) else ascii_of_nat (87 + Z.to_nat d).

Fixpoint hex_fixed (k : nat) (n : Z) (acc : string) : string :=
  match k with
  | O => acc
  | S k' => hex_fixed k' (n / 16) (String (hex_char (n mod 16)) acc)
  end.

Definition group_id_of (n : nat) : string := hex_fixed 16 (Z.of_nat n) EmptyString.

(** Engine state: the rows and the fresh-id counter. *)
Record St := mkSt { db : Db; next_id : nat }.

Definition generate_group_id (st : St) : string * St :=
  (group_id_of st.(next_id), mkSt st.(db) (S st.(next_id))).

Definition detect_sequence_type (a b : File) : string :=
  match a.(detected_timestamp), b.(detected_timestamp) with
  | Some ta, Some tb =>
      let gap := Z.abs (ta - tb) in
      if gap <? BURST_THRESHOLD * SECOND then "burst"
      else if gap <? PANORAMA_THRESHOLD * SECOND then "panorama"
      else "similar"
  | _, _ => "similar"
  end.

Definition distance_to_exact_confidence (distance : Z) : string := "high".

Definition distance_to_similar_confidence (distance : Z) : string :=
  if distance <=? 10 then "high" else if distance <=? 15 then "medium" else "low".

(** [x or y or _generate_group_id()] on the current rows. *)
Definition reuse_or_mint (ga gb : option string) (st : St) : string * St :=
  match ga with
  | Some g => if truthy ga then (g, st) else
      match gb with
      | Some g' => if truthy gb then (g', st) else generate_group_id st
      | None => generate_group_id st
      end
  | None =>
      match gb with
      | Some g' => if truthy gb then (g', st) else generate_group_id st
      | None => generate_group_id st
      end
  end.

Definition merge_into_exact_group (a b : File) (distance : Z) (st : St) : St :=
  let '(gid, st1) := reuse_or_mint a.(exact_group_id) b.(exact_group_id) st in
  let conf := distance_to_exact_confidence distance in
  let d1 := update a.(id) (set_exact (Some gid) (Some conf)) st1.(db) in
  let d2 := update b.(id) (set_exact (Some gid) (Some conf)) d1 in
  mkSt d2 st1.(next_id).

Definition merge_into_similar_group (a b : File) (distance : Z) (st : St) : St :=
  let '(gid, st1) := reuse_or_mint a.(similar_group_id) b.(similar_group_id) st in
  let conf := distance_to_similar_confidence distance in
  let ty := detect_sequence_type a b in
  let d1 := update a.(id) (set_similar (Some gid) (Some conf) (Some ty)) st1.(db) in
  let d2 := update b.(id) (set_similar (Some gid) (Some conf) (Some ty)) d1 in
  mkSt d2 st1.(next_id).

(** The body of the inner loop of [analyze_cluster] for the pair [(i, j)],
    reading both rows as they currently are.  The second component records
    the pair when its Hamming distance is computed. *)
Definition compare_pair (i j : Z) (st : St) : St * list (Z * Z) :=
  match get st.(db) i, get st.(db) j with
  | Some a, Some b =>
      if negb (truthy a.(file_hash_perceptual) && truthy b.(file_hash_perceptual))
      then (st, [])
      else
        let distance := hamming_distance a.(file_hash_perceptual) b.(file_hash_perceptual) in
        if distance <=? EXACT_THRESHOLD then (merge_into_exact_group a b distance st, [(i, j)])
        else if distance <=? SIMILAR_THRESHOLD then
          (merge_into_similar_group a b distance st, [(i, j)])
        else (st, [(i, j)])
  | _, _ => (st, [])
  end.

Fixpoint compare_with (i : Z) (rest : list Z) (st : St) : St * list (Z * Z) :=
  match rest with
  | [] => (st, [])
  | j :: rest' =>
      let '(st1, t1) := compare_pair i j st in
      let '(st2, t2) := compare_with i rest' st1 in
      (st2, t1 ++ t2)
  end.

(** [for i, file_a in enumerate(cluster): for file_b in cluster[i+1:]: ...] *)
Fixpoint analyze_cluster (cluster : list Z) (st : St) : St * list (Z * Z) :=
  match cluster with
  | [] => (st, [])
  | i :: rest =>
      let '(st1, t1) := compare_with i rest st in
      let '(st2, t2) := analyze_cluster rest st1 in
      (st2, t1 ++ t2)
  end.

(** [sorted(..., key=lambda f: f.detected_timestamp)]: a stable sort. *)
Definition ts_key (f : File) : Z :=
  match f.(detected_timestamp) with Some t => t | None => 0 end.

Fixpoint insert_by_ts (f : File) (l : list File) : list File :=
  match l with
  | [] => [f]
  | g :: r => if ts_key f <=? ts_key g then f :: l else g :: insert_by_ts f r
  end.

Fixpoint sort_by_ts (l : list File) : list File :=
  match l with
  | [] => []
  | f :: r => insert_by_ts f (sort_by_ts r)
  end.


Fixpoint scan (threshold : Z) (current : list File) (rest : list File) : list (list File) :=
  match rest with
  | [] => if (2 <=? List.length current)%nat then [current] else []
  | f :: r =>
      let prev := last current f in
      let gap := ts_key f - ts_key prev in
      if gap <=? threshold * SECOND then scan threshold (current ++ [f]) r
      else if (2 <=? List.length current)%nat then current :: scan threshold [f] r
      else scan threshold [f] r
  end.

Definition cluster_by_timestamp (files : list File) (threshold_seconds : Z) : list (list File) :=
  let timestamped_files :=
    filter (fun f => match f.(detected_timestamp) with Some _ => true | None => false end) files in
  if (List.length timestamped_files <? 2)%nat then []
  else match sort_by_ts timestamped_files with
       | f0 :: r => scan threshold_seconds [f0] r
       | [] => []
       end.

Fixpoint analyze_clusters (clusters : list (list File)) (st : St) : St * list (Z * Z) :=
  match clusters with
  | [] => (st, [])
  | c :: cs =>
      let '(st1, t1) := analyze_cluster (map id c) st in
      let '(st2, t2) := analyze_clusters cs st1 in
      (st2, t1 ++ t2)
  end.

(** [detect_perceptual_duplicates(job.files)]: the job's rows are the state's
    rows; the result carries the pairs whose distance was computed. *)
Definition detect_perceptual_duplicates (threshold_seconds : Z) (st : St) : St * list (Z * Z) :=
  let clusters := cluster_by_timestamp st.(db) threshold_seconds in
  match clusters with
  | [] => (st, [])
  | _ => analyze_clusters clusters st
  end.

End Engine.

(* ------------------------------------------------------------------ *)
(** ** app/tasks.py: [_mark_duplicate_groups] *)

Module ExactGroups.
Import Perceptual Model.

(** [hash_groups[h].append(file)] on an insertion-ordered dict. *)
Fixpoint add_to_group (h : string) (i : Z) (groups : list (string * list Z))
  : list (string * list Z) :=
  match groups with
  | [] => [(h, [i])]
  | (h', l) :: r => if String.eqb h h' then (h', l ++ [i]) :: r else (h', l) :: add_to_group h i r
  end.

Definition hash_groups (files : list File) : list (string * list Z) :=
  fold_left (fun g f =>
      match f.(file_hash_sha256) with
      | Some h => if truthy (Some h) then add_to_group h f.(id) g else g
      | None => g
      end) files [].

Definition mark_group (h : string) (members : list Z) (db : Db) : Db :=
  fold_left (fun d i => update i (set_exact (Some h) (Some "high")) d) members db.

Definition mark_duplicate_groups (db : Db) : Db :=
  fold_left (fun d '(h, members) =>
      if (1 <? List.length members)%nat then mark_group h members d else d)
    (hash_groups db) db.

End ExactGroups.

(* ------------------------------------------------------------------ *)
(** ** Sample rows used by the concrete checks below *)

Module Samples.
Import Model.

(** A row with a perceptual hash and a detected timestamp. *)
Definition phash_row (i : Z) (h : string) (ts : option Z) : File :=
  mkFile i "IMG.jpg" None (Some h) ts None None false None None None None None None None.

(** Two rows one second apart whose hashes differ in 17 bits. *)
Definition pair17 : Engine.St :=
  Engine.mkSt [phash_row 1 "0000000000000000" (Some 0);
               phash_row 2 "000000000001ffff" (Some 1000000)] 0.

(** Two rows whose hashes differ in 3 bits. *)
Definition pair3 : Engine.St :=
  Engine.mkSt [phash_row 1 "0000000000000000" (Some 0);
               phash_row 2 "0000000000000007" (Some 1000000)] 0.

(** Two byte-identical uploads: same sha256 (that of the empty file). *)
Definition sha_e3b0 : string :=
  "e3b0c44298fc1c149afbf4c8996fb92427ae41e4649b934ca495991b7852b855".

Definition sha_row (i : Z) (h : string) : File :=
  mkFile i "A.jpg" (Some h) None None None None false None None None None None None None.

Definition dup_pair : Db := [sha_row 1 sha_e3b0; sha_row 2 sha_e3b0; sha_row 3 "00ff"].

(** Two rows with the same perceptual hash taken 100 seconds apart. *)
Definition far_pair : Engine.St :=
  Engine.mkSt [phash_row 1 "0000000000000000" (Some 0);
               phash_row 2 "0000000000000000" (Some 100000000)] 0.

End Samples.

(* ------------------------------------------------------------------ *)
(** ** Auxiliary notions used by the proofs *)

Module Aux.
Import Perceptual Model ExactGroups.

Definition id_preserving (g : File -> File) : Prop := forall f, (g f).(id) = f.(id).

(** [sha_is h f]: the row's sha256 is the non-empty string [h]. *)
Definition sha_is (h : string) (f : File) : bool :=
  match f.(file_hash_sha256) with
  | Some h' => truthy (Some h') && String.eqb h' h
  | None => false
  end.

(** The step of the loop that fills [hash_groups]. *)
Definition hg_step (g : list (string * list Z)) (f : File) : list (string * list Z) :=
  match f.(file_hash_sha256) with
  | Some h => if truthy (Some h) then add_to_group h f.(id) g else g
  | None => g
  end.

(** The effect on one row of the group loop of [_mark_duplicate_groups]. *)
Definition apply_groups (gs : list (string * list Z)) (f : File) : File :=
  fold_left (fun f p =>
      if (1 <? List.length (snd p))%nat && existsb (Z.eqb f.(id)) (snd p)
      then set_exact (Some (fst p)) (Some "high") f else f) gs f.

(** The columns the perceptual engine reads and never writes. *)
Definition key (f : File) : Z * option string * option Z :=
  (f.(id), f.(file_hash_perceptual), f.(detected_timestamp)).

(** The row with id [i] exists and has a non-empty perceptual hash. *)
Definition phash_ok (d : Db) (i : Z) : bool :=
  match get d i with Some a => truthy a.(file_hash_perceptual) | None => false end.

(** [x] occurs strictly before [y] in [l]. *)
Definition before {A : Type} (x y : A) (l : list A) : Prop :=
  exists l1 l2 l3, l = l1 ++ x :: l2 ++ y :: l3.

(** The order of [sorted(..., key=lambda f: f.detected_timestamp)]. *)
Definition ts_le (f g : File) : Prop := Engine.ts_key f <= Engine.ts_key g.

End Aux.

(* ------------------------------------------------------------------ *)
(** ** app/lib/confidence.py: [calculate_confidence];
       app/lib/processing.py: the [timestamp_source] of a result *)

Module Confidence.

(** A timezone-aware [datetime]: its [.year] and its instant (microseconds). *)
Record DateTime := mkDT { year : Z; instant : Z }.

Inductive ConfidenceLevel := HIGH | MEDIUM | LOW | NONE.

Definition SOURCE_WEIGHTS : list (string * Z) :=
  [("EXIF:DateTimeOriginal", 10); ("EXIF:CreateDate", 8); ("QuickTime:CreateDate", 7);
   ("EXIF:ModifyDate", 5); ("filename_datetime", 3); ("filename_date", 2);
   ("File:FileModifyDate", 1)].

(** [SOURCE_WEIGHTS.get(source, 0)] *)
Definition weight (source : string) : Z :=
  match find (fun p => String.eqb (fst p) source) SOURCE_WEIGHTS with
  | Some (_, w) => w
  | None => 0
  end.

(** [timedelta(seconds=30)] *)
Definition tolerance : Z := 30 * 1000000.

(** [valid_candidates.sort(key=lambda x: x[0])]: a stable sort, an element
    goes before the equal keys that follow it. *)
Fixpoint insert_by_dt (c : DateTime * string) (l : list (DateTime * string))
  : list (DateTime * string) :=
  match l with
  | [] => [c]
  | d :: r => if instant (fst c) <=? instant (fst d) then c :: l else d :: insert_by_dt c r
  end.

Fixpoint sort_by_dt (l : list (DateTime * string)) : list (DateTime * string) :=
  match l with
  | [] => []
  | c :: r => insert_by_dt c (sort_by_dt r)
  end.

Definition is_valid (min_year : Z) (c : DateTime * string) : bool :=
  min_year <=? year (fst c).

Definition calculate_confidence (timestamp_candidates : list (DateTime * string))
  (min_year : Z) : option DateTime * ConfidenceLevel * list (DateTime * string) :=
  match timestamp_candidates with
  | [] => (None, NONE, [])
  | _ =>
    let valid_candidates := filter (is_valid min_year) timestamp_candidates in
    match valid_candidates with
    | [] => (None, NONE, timestamp_candidates)
    | _ =>
      match sort_by_dt valid_candidates with
      | [] => (None, NONE, timestamp_candidates)
      | ((selected_dt, selected_source) :: _) as sorted =>
        let selected_weight := weight selected_source in
        let agreements :=
          filter (fun c => Z.abs (instant (fst c) - instant selected_dt) <=? tolerance) sorted in
        let confidence :=
          if (8 <=? selected_weight) && (1 <? List.length agreements)%nat then HIGH
          else if (5 <=? selected_weight) || (1 <? List.length agreements)%nat then MEDIUM
          else LOW in
        (Some selected_dt, confidence, timestamp_candidates)
      end
    end
  end.

(** [next((source for dt, source in timestamp_candidates if dt == selected_dt),
    'unknown')], or ['none'] when no timestamp was selected. *)
Definition timestamp_source (timestamp_candidates : list (DateTime * string))
  (selected_dt : option DateTime) : string :=
  match selected_dt with
  | Some s =>
      match find (fun c => instant (fst c) =? instant s) timestamp_candidates with
      | Some (_, source) => source
      | None => "unknown"
      end
  | None => "none"
  end.

End Confidence.

(** Names for the two expressions of [calculate_confidence] the proofs
    talk about. *)
Module ConfAux.
Import Confidence.

Definition agree (s : DateTime) (c : DateTime * string) : bool :=
  Z.abs (instant (fst c) - instant s) <=? tolerance.

Definition level_of (w : Z) (k : nat) : ConfidenceLevel :=
  if (8 <=? w) && (1 <? k)%nat then HIGH
  else if (5 <=? w) || (1 <? k)%nat then MEDIUM
  else LOW.

End ConfAux.

Module ConfSamples.
Import Confidence.

(** 2024-01-15 12:00:00 UTC, in microseconds since the epoch. *)
Definition t0 : Z := 1705320000 * 1000000.

(** The example of [calculate_confidence]'s docstring. *)
Definition doc_example : list (DateTime * string) :=
  [(mkDT 2024 t0, "EXIF:DateTimeOriginal"); (mkDT 2024 (t0 + 1000000), "filename_datetime")].

(** Two sources reporting the same instant, the filename first. *)
Definition tie_pair : list (DateTime * string) :=
  [(mkDT 2024 t0, "filename_date"); (mkDT 2024 t0, "EXIF:CreateDate")].

End ConfSamples.

(* ------------------------------------------------------------------ *)
(** ** app/tasks.py: the file query of [process_export_job] *)

Module ExportQuery.
Import Model.

(** [File.discarded == False, File.processing_error.is_(None),
    File.output_path.is_(None)] *)
Definition export_filter (f : File) : bool :=
  negb f.(discarded) &&
  match f.(processing_error) with None => true | Some _ => false end &&
  match f.(output_path) with None => true | Some _ => false end.

(** [col.asc().nullslast()] *)
Definition cmp_nulls_last (x y : option Z) : comparison :=
  match x, y with
  | Some a, Some b => Z.compare a b
  | Some _, None => Lt
  | None, Some _ => Gt
  | None, None => Eq
  end.

(** [order_by(final_timestamp asc nulls last, detected_timestamp asc nulls
    last, original_filename asc)]; text compares byte-wise (BINARY). *)
Definition export_cmp (a b : File) : comparison :=
  match cmp_nulls_last a.(final_timestamp) b.(final_timestamp) with
  | Eq =>
      match cmp_nulls_last a.(detected_timestamp) b.(detected_timestamp) with
      | Eq => String.compare a.(original_filename) b.(original_filename)
      | c => c
      end
  | c => c
  end.

(** The rows [.all()] may return: the rows of the job that pass the filter,
    in an order where no row comes after one it sorts strictly before (rows
    equal on all three keys may come in any order). *)
Definition export_order (db : Db) (l : list File) : Prop :=
  Permutation (filter export_filter db) l /\
  StronglySorted (fun a b => export_cmp a b <> Gt) l.

(** The order the amended claim states, on one pair of rows. *)
Definition nulls_last_le (x y : option Z) : Prop :=
  match x, y with
  | Some a, Some b => a <= b
  | Some _, None => True
  | None, Some _ => False
  | None, None => True
  end.

(** The order the claim states: [coalesce(final_timestamp, detected_timestamp)]. *)
Definition coalesce_ts (f : File) : option Z :=
  match f.(final_timestamp) with Some t => Some t | None => f.(detected_timestamp) end.

End ExportQuery.

Module ExportSamples.
Import Model.

(** Not reviewed, taken at second 1. *)
Definition exp_a : File :=
  mkFile 1 "a.jpg" None None (Some 1000000) None None false None None None None None None None.

(** Reviewed to second 5, no detected timestamp. *)
Definition exp_b : File :=
  mkFile 2 "b.jpg" None None None (Some 5000000) None false None None None None None None None.

End ExportSamples.

(* ------------------------------------------------------------------ *)
(** ** app/tasks.py: the result loop of [process_import_job] *)

Module ImportJob.

Definition BATCH_COMMIT_SIZE : nat := 10.
(** [0.10]; the Python test [errors / processed > 0.10] is on doubles, and
    for any count below 10^15 it agrees with the exact rational test. *)
Definition ERROR_THRESHOLD : Q := 1 # 10.
Definition MIN_SAMPLE_SIZE : Z := 10.

Definition should_halt_job (processed errors : Z) (threshold : Q) (min_sample : Z) : bool :=
  if processed <? min_sample then false
  else negb (Qle_bool (inject_Z errors / inject_Z processed) threshold).

Inductive JobStatus := RUNNING | HALTED | PAUSED | CANCELLED | COMPLETED.

(** One completed future: the file, whether [result['status'] == 'error'],
    and the job status read by [db.session.refresh(job)] after it. *)
Record Res := mkRes { res_file : Z; res_error : bool; res_status_after : JobStatus }.

(** The loop's variables; [committed_updates] are the file updates written
    by [_commit_pending_updates], [errored_files] the files whose
    [processing_error] was set. *)
Record LoopSt := mkLoop {
  processed_count : Z;
  error_count : Z;
  pending_updates : list Z;
  committed_updates : list Z;
  errored_files : list Z
}.

Definition commit_pending (s : LoopSt) : LoopSt :=
  mkLoop s.(processed_count) s.(error_count) [] (s.(committed_updates) ++ s.(pending_updates))
    s.(errored_files).

Inductive Step := Stop (status : JobStatus) (s : LoopSt) | Continue (s : LoopSt).

(** The end of the loop body, common to both branches: the batch commit,
    then the pause/cancel check. *)
Definition after_result (r : Res) (s1 : LoopSt) : Step :=
  let s2 := if (BATCH_COMMIT_SIZE <=? List.length s1.(pending_updates))%nat
            then commit_pending s1 else s1 in
  match r.(res_status_after) with
  | CANCELLED | PAUSED => Stop r.(res_status_after) (commit_pending s2)
  | _ => Continue s2
  end.

(** The body of [for future in as_completed(future_to_file)]. *)
Definition handle_result (r : Res) (s : LoopSt) : Step :=
  let processed := s.(processed_count) + 1 in
  if r.(res_error) then
    let errors := s.(error_count) + 1 in
    let s1 := mkLoop processed errors s.(pending_updates) s.(committed_updates)
                (s.(errored_files) ++ [r.(res_file)]) in
    if should_halt_job processed errors ERROR_THRESHOLD MIN_SAMPLE_SIZE
    then Stop HALTED s1
    else after_result r s1
  else
    after_result r (mkLoop processed s.(error_count) (s.(pending_updates) ++ [r.(res_file)])
                      s.(committed_updates) s.(errored_files)).

(** The loop, then the remaining pending updates and COMPLETED. *)
Fixpoint results_loop (rs : list Res) (s : LoopSt) : JobStatus * LoopSt :=
  match rs with
  | [] => (COMPLETED, commit_pending s)
  | r :: rest =>
      match handle_result r s with
      | Stop st s' => (st, s')
      | Continue s' => results_loop rest s'
      end
  end.

(** Five failures followed by five successes, the job left running. *)
Definition five_then_five : list Res :=
  map (fun i => mkRes i true RUNNING) [1; 2; 3; 4; 5] ++
  map (fun i => mkRes i false RUNNING) [6; 7; 8; 9; 10].

End ImportJob.

(* ------------------------------------------------------------------ *)
(** ** app/lib/duplicates.py: [recommend_best_duplicate] *)

Module Duplicates.

(** A file dict as the function reads it: [get('id')],
    [get('resolution_mp')], [get('file_size_bytes', 0)] (the default
    already applied) and [get('format')].  Scores are computed exactly in
    [Q]; the Python floats only round them, and the argmax argument below
    uses nothing but the total order of the scores. *)
Record FileDict := mkFD {
  fd_id : Z;
  fd_resolution_mp : option Q;
  fd_file_size_bytes : Z;
  fd_format : option string
}.

Definition FORMAT_MULTIPLIERS : list (string * Q) :=
  [("x-canon-cr2", 13 # 10); ("x-nikon-nef", 13 # 10); ("x-sony-arw", 13 # 10);
   ("x-adobe-dng", 13 # 10); ("x-olympus-orf", 13 # 10); ("x-panasonic-rw2", 13 # 10);
   ("x-fuji-raf", 13 # 10); ("x-dcraw", 13 # 10);
   ("cr2", 13 # 10); ("nef", 13 # 10); ("arw", 13 # 10); ("dng", 13 # 10);
   ("orf", 13 # 10); ("rw2", 13 # 10); ("raf", 13 # 10);
   ("png", 11 # 10); ("tiff", 11 # 10); ("bmp", 11 # 10);
   ("jpeg", 1 # 1); ("jpg", 1 # 1);
   ("webp", 9 # 10); ("heic", 9 # 10); ("heif", 9 # 10); ("avif", 9 # 10)].

(** [str.lower()] on ASCII text. *)
Definition lower_char (c : ascii) : ascii :=
  let n := nat_of_ascii c in
  if (65 <=? n)%nat && (n <=? 90)%nat then ascii_of_nat (n + 32) else c.

Fixpoint lower (s : string) : string :=
  match s with
  | EmptyString => EmptyString
  | String c r => String (lower_char c) (lower r)
  end.

(** [FORMAT_MULTIPLIERS.get((file_dict.get('format') or '').lower(), 1.0)] *)
Definition format_mult (fmt : option string) : Q :=
  let key := lower (match fmt with Some s => s | None => EmptyString end) in
  match find (fun p => String.eqb (fst p) key) FORMAT_MULTIPLIERS with
  | Some (_, m) => m
  | None => 1 # 1
  end.

Definition score (f : FileDict) : Q :=
  match f.(fd_resolution_mp) with
  | Some r => (r * inject_Z 1000000 + inject_Z f.(fd_file_size_bytes)) * format_mult f.(fd_format)
  | None => inject_Z f.(fd_file_size_bytes) * format_mult f.(fd_format)
  end.

(** One iteration: [if score > best_score: best_score = score; best_file = file_id]. *)
Definition best_step (acc : option Z * Q) (f : FileDict) : option Z * Q :=
  let '(best_file, best_score) := acc in
  if negb (Qle_bool (score f) best_score) then (Some f.(fd_id), score f) else acc.

Definition recommend_best_duplicate (files : list FileDict) : option Z :=
  match files with
  | [] => None
  | _ => fst (fold_left best_step files (None, -1 # 1))
  end.

(** Three copies: a small JPEG, a larger PNG, a HEIC of the same size. *)
Definition trio : list FileDict :=
  [mkFD 1 (Some (12 # 1)) 2000000 (Some "JPEG");
   mkFD 2 (Some (12 # 1)) 3000000 (Some "png");
   mkFD 3 (Some (12 # 1)) 3000000 (Some "heic")].

End Duplicates.

(* ================================================================== *)
(** * The review routes (src/app/routes/review.py) *)

Module Review.
Import Model.

(** [_clear_similar_fields]. *)
Definition clear_similar_fields (f : File) : File := set_similar None None None f.

Definition in_group (gid : string) (f : File) : bool :=
  match f.(similar_group_id) with
  | Some g => String.eqb g gid && negb f.(discarded)
  | None => false
  end.

(** [resolve_similar_group]: the HTTP status and the committed rows.  The
    query selects the non-discarded members; each loses its similar fields,
    and a member not in [keep_ids] gets [discarded = True] and nothing else. *)
Definition resolve_similar_group (gid : string) (keep_ids : list Z) (db : Db)
    : Z * Db :=
  match keep_ids with
  | [] => (400, db)
  | _ =>
    match filter (in_group gid) db with
    | [] => (404, db)
    | _ =>
      (200, map (fun f =>
                   if in_group gid f then
                     let f' := clear_similar_fields f in
                     if existsb (Z.eqb f.(id)) keep_ids then f'
                     else set_discarded true f'
                   else f) db)
    end
  end.

(** [discard_file] on the row itself: discarded, review fields and group
    ids cleared.  The orphan passes that follow only write group columns of
    other rows and are left out. *)
Definition discard_row (f : File) : File :=
  clear_similar_fields
    (set_exact None f.(exact_group_confidence)
       (set_review None None (set_discarded true f))).

Definition discard_file (i : Z) (db : Db) : Z * Db :=
  match get db i with
  | None => (404, db)
  | Some _ => (200, update i discard_row db)
  end.

(** The first invariant of the spec, on one row. *)
Definition discard_ok (f : File) : bool :=
  negb f.(discarded) ||
  (match f.(reviewed_at) with None => true | Some _ => false end &&
   match f.(final_timestamp) with None => true | Some _ => false end).

(** A similar group of two rows, the first one already reviewed. *)
Definition reviewed_pair : Db :=
  [set_review (Some 7) (Some 9)
     (set_similar (Some "g") (Some "high") (Some "burst") (blank 1 "a.jpg"));
   set_similar (Some "g") (Some "high") (Some "burst") (blank 2 "b.jpg")].

End Review.

(* ================================================================== *)
(** * More of the code: timestamp options, metadata accumulation, export
      collisions, and the remaining review routes *)

(* ------------------------------------------------------------------ *)
(** ** app/lib/confidence.py: [build_timestamp_options] *)

Module TimestampOptions.
Import Confidence.

(** A group dict before scoring: [{'timestamp': dt, 'sources': [...]}]. *)
Record Group := mkGroup { g_timestamp : DateTime; g_sources : list (DateTime * string) }.

Definition within (a b : DateTime) : bool :=
  Z.abs (instant a - instant b) <=? tolerance.

(** The inner [for group in groups: ... break] and the append to the found
    group; [None] when no group is within the tolerance. *)
Fixpoint add_to_found (c : DateTime * string) (groups : list Group) : option (list Group) :=
  match groups with
  | [] => None
  | g :: r =>
      if within g.(g_timestamp) (fst c)
      then Some (mkGroup g.(g_timestamp) (g.(g_sources) ++ [c]) :: r)
      else option_map (cons g) (add_to_found c r)
  end.

Definition group_step (groups : list Group) (c : DateTime * string) : list Group :=
  match add_to_found c groups with
  | Some groups' => groups'
  | None => groups ++ [mkGroup (fst c) [c]]
  end.

Definition build_groups (valid_candidates : list (DateTime * string)) : list Group :=
  fold_left group_step valid_candidates [].

(** A group dict after scoring. *)
Record SGroup := mkSG {
  sg_timestamp : DateTime;
  sg_sources : list (DateTime * string);
  sg_score : Z;
  sg_source_count : nat;
  sg_confidence : ConfidenceLevel
}.

Fixpoint sum_Z (l : list Z) : Z :=
  match l with [] => 0 | x :: r => x + sum_Z r end.

(** [max(...)] over a non-empty sequence. *)
Definition max_Z (l : list Z) : Z :=
  match l with [] => 0 | x :: r => fold_left Z.max r x end.

Definition score_group (g : Group) : SGroup :=
  let sources := g.(g_sources) in
  let score := sum_Z (map (fun c => weight (snd c)) sources) in
  let max_weight := max_Z (map (fun c => weight (snd c)) sources) in
  let confidence :=
    if (8 <=? max_weight) && (1 <? List.length sources)%nat then HIGH
    else if (5 <=? max_weight) || (1 <? List.length sources)%nat then MEDIUM
    else LOW in
  mkSG g.(g_timestamp) sources score (List.length sources) confidence.

(** [sorted(groups, key=lambda g: g['timestamp'])], stable. *)
Fixpoint insert_by_time (g : SGroup) (l : list SGroup) : list SGroup :=
  match l with
  | [] => [g]
  | h :: r => if instant g.(sg_timestamp) <=? instant h.(sg_timestamp) then g :: l
              else h :: insert_by_time g r
  end.

Fixpoint sort_by_time (l : list SGroup) : list SGroup :=
  match l with [] => [] | g :: r => insert_by_time g (sort_by_time r) end.

(** [sorted(groups, key=lambda g: g['score'], reverse=True)]: Python's
    reverse sort keeps equal keys in their original order. *)
Fixpoint insert_by_score (g : SGroup) (l : list SGroup) : list SGroup :=
  match l with
  | [] => [g]
  | h :: r => if h.(sg_score) <=? g.(sg_score) then g :: l else h :: insert_by_score g r
  end.

Fixpoint sort_by_score (l : list SGroup) : list SGroup :=
  match l with [] => [] | g :: r => insert_by_score g (sort_by_score r) end.

(** [==] on two group dicts: every key compared, datetimes by instant. *)
Definition src_eqb (a b : DateTime * string) : bool :=
  (instant (fst a) =? instant (fst b)) && String.eqb (snd a) (snd b).

Fixpoint srcs_eqb (a b : list (DateTime * string)) : bool :=
  match a, b with
  | [], [] => true
  | x :: r, y :: s => src_eqb x y && srcs_eqb r s
  | _, _ => false
  end.

Definition level_eqb (a b : ConfidenceLevel) : bool :=
  match a, b with
  | HIGH, HIGH | MEDIUM, MEDIUM | LOW, LOW | NONE, NONE => true
  | _, _ => false
  end.

Definition sg_eqb (a b : SGroup) : bool :=
  (instant a.(sg_timestamp) =? instant b.(sg_timestamp)) &&
  srcs_eqb a.(sg_sources) b.(sg_sources) && (a.(sg_score) =? b.(sg_score)) &&
  Nat.eqb a.(sg_source_count) b.(sg_source_count) &&
  level_eqb a.(sg_confidence) b.(sg_confidence).

(** One option dict of the result ([timestamp] kept as the datetime that
    [isoformat()] renders). *)
Record TsOption := mkOpt {
  o_timestamp : DateTime;
  o_confidence : ConfidenceLevel;
  o_score : Z;
  o_source_count : nat;
  o_is_earliest : bool;
  o_is_highest_scored : bool;
  o_selected : bool
}.

Definition option_of (g : SGroup) (e h s : bool) : TsOption :=
  mkOpt g.(sg_timestamp) g.(sg_confidence) g.(sg_score) g.(sg_source_count) e h s.

(** [group['timestamp'] in included_timestamps] *)
Definition included (t : DateTime) (incl : list DateTime) : bool :=
  existsb (fun u => instant u =? instant t) incl.

(** The deviant loop over [by_score]. *)
Fixpoint deviants (gs : list SGroup) (incl : list DateTime) (deviants_added : nat)
    (deviant_threshold : Z) : list TsOption :=
  match gs with
  | [] => []
  | g :: r =>
      if (2 <=? deviants_added)%nat then []
      else if included g.(sg_timestamp) incl
      then deviants r incl deviants_added deviant_threshold
      else if deviant_threshold <=? g.(sg_score)
      then option_of g false false false ::
           deviants r (incl ++ [g.(sg_timestamp)]) (S deviants_added) deviant_threshold
      else deviants r incl deviants_added deviant_threshold
  end.

Definition build_timestamp_options (timestamp_candidates : list (DateTime * string))
    (min_year deviant_threshold : Z) : list TsOption :=
  match timestamp_candidates with
  | [] => []
  | _ =>
    match filter (is_valid min_year) timestamp_candidates with
    | [] => []
    | valid_candidates =>
      let groups := map score_group (build_groups valid_candidates) in
      let by_time := sort_by_time groups in
      let by_score := sort_by_score groups in
      match by_time, by_score with
      | earliest :: _, highest_scored :: _ =>
        let result := [option_of earliest true (sg_eqb earliest highest_scored) true] in
        let incl := [earliest.(sg_timestamp)] in
        let '(result, incl) :=
          if negb (included highest_scored.(sg_timestamp) incl)
          then (result ++ [option_of highest_scored false true false],
                incl ++ [highest_scored.(sg_timestamp)])
          else (result, incl) in
        result ++ deviants by_score incl 0 deviant_threshold
      | _, _ => []
      end
    end
  end.

(** The order [sort_by_time] sorts by. *)
Definition time_le (a b : SGroup) : Prop := instant a.(sg_timestamp) <= instant b.(sg_timestamp).

End TimestampOptions.

(* ------------------------------------------------------------------ *)
(** ** app/lib/duplicates.py: [accumulate_metadata] *)

Module Accumulate.

(** A candidate dict of the [timestamp_candidates] JSON: its ['timestamp'],
    ['value'] and ['source'] entries (absent keys as [None]) and the rest of
    the dict, carried along untouched. *)
Record Cand := mkCand {
  c_timestamp : option string;
  c_value : option string;
  c_source : option string;
  c_rest : list (string * string)
}.

(** The [timestamp_candidates] column: null or empty, text that
    [json.loads] rejects, or the JSON text of a list of candidate dicts. *)
Inductive CandCol := ColNone | ColBad | ColList (l : list Cand).

Definition py_or (a : option string) (b : string) : string :=
  match a with Some s => if String.eqb s EmptyString then b else s | None => b end.

(** [(c.get('timestamp') or c.get('value') or '', c.get('source', ''))] *)
Definition cand_key (c : Cand) : string * string :=
  (py_or c.(c_timestamp) (py_or c.(c_value) EmptyString),
   match c.(c_source) with Some s => s | None => EmptyString end).

Definition key_eqb (a b : string * string) : bool :=
  String.eqb (fst a) (fst b) && String.eqb (snd a) (snd b).

Definition mem_key (k : string * string) (seen : list (string * string)) : bool :=
  existsb (key_eqb k) seen.

(** [existing = json.loads(...)] with its fall-backs. *)
Definition parse_col (col : CandCol) : list Cand :=
  match col with ColList l => l | _ => [] end.

(** The loop [for c in candidates] over one discarded file: the seen keys,
    the growing [existing] list and [added]. *)
Fixpoint merge_cands (cs : list Cand) (acc : list (string * string) * list Cand * nat)
  : list (string * string) * list Cand * nat :=
  match cs with
  | [] => acc
  | c :: r =>
      let '(seen, existing, added) := acc in
      if mem_key (cand_key c) seen then merge_cands r acc
      else merge_cands r (seen ++ [cand_key c], existing ++ [c], S added)
  end.

(** [for discarded in discarded_files]: a file whose column is empty or not
    decodable is skipped. *)
Definition merge_file (acc : list (string * string) * list Cand * nat) (d : CandCol)
  : list (string * string) * list Cand * nat :=
  match d with
  | ColList cs => merge_cands cs acc
  | _ => acc
  end.

(** The new value of [kept_file.timestamp_candidates]; nothing is written
    when no candidate was added. *)
Definition accumulate_metadata (kept : CandCol) (discarded_files : list CandCol) : CandCol :=
  let existing := parse_col kept in
  let seen := map cand_key existing in
  let '(_, existing', added) := fold_left merge_file discarded_files (seen, existing, O) in
  if (0 <? added)%nat then ColList existing' else kept.

End Accumulate.

(* ------------------------------------------------------------------ *)
(** ** app/lib/export.py: [resolve_collision] *)

Module Collision.

(** An output path as [resolve_collision] takes it apart: [parent], [stem]
    and [suffix]. *)
Record PathParts := mkPath { parent : string; stem : string; suffix : string }.

Definition digit (d : Z) : ascii := ascii_of_nat (48 + Z.to_nat d).

(** [f"{counter:03d}"] for a counter in [1, 999]. *)
Definition pad3 (k : Z) : string :=
  String (digit (k / 100)) (String (digit ((k / 10) mod 10)) (String (digit (k mod 10)) EmptyString)).

Definition candidate (p : PathParts) (counter : Z) : PathParts :=
  mkPath p.(parent) (p.(stem) ++ "_" ++ pad3 counter) p.(suffix).

Section Resolve.
(** [Path.exists()] on the output file system. *)
Variable path_exists : PathParts -> bool.

Fixpoint try_counters (p : PathParts) (n : nat) (counter : Z) : option PathParts :=
  match n with
  | O => None
  | S n' =>
      let c := candidate p counter in
      if negb (path_exists c) then Some c else try_counters p n' (counter + 1)
  end.

(** [None] is the [ValueError] raised after 999 collisions. *)
Definition resolve_collision (output_path : PathParts) : option PathParts :=
  if negb (path_exists output_path) then Some output_path
  else try_counters output_path 999 1.

End Resolve.

End Collision.

(* ------------------------------------------------------------------ *)
(** ** The perceptual engine and the clusters, seen from outside *)

Module EngineView.
Import Model Engine.

(** A row with its group columns blanked: what the engine must not change. *)
Definition strip_groups (f : File) : File :=
  set_exact None None (set_similar None None None f).

(** The filter of [cluster_by_timestamp]. *)
Definition has_ts (f : File) : bool :=
  match f.(detected_timestamp) with Some _ => true | None => false end.

(** Two neighbours of a cluster: in order and at most the window apart. *)
Definition window (threshold_seconds : Z) (a b : File) : Prop :=
  ts_key a <= ts_key b <= ts_key a + threshold_seconds * SECOND.

(** [subseq l1 l2]: [l1] is [l2] with some elements left out. *)
Inductive subseq {A : Type} : list A -> list A -> Prop :=
| subseq_nil : subseq [] []
| subseq_take x l1 l2 : subseq l1 l2 -> subseq (x :: l1) (x :: l2)
| subseq_skip x l1 l2 : subseq l1 l2 -> subseq l1 (x :: l2).

End EngineView.

(* ------------------------------------------------------------------ *)
(** ** app/routes/review.py: the orphan passes and the group routes *)

Module ReviewOps.
Import Perceptual Model Review.

(** The [file_jobs] association table: (file id, job id) pairs. *)
Definition Links := list (Z * Z).

(** [[j.id for j in file.jobs]] *)
Definition jobs_of (links : Links) (i : Z) : list Z :=
  map snd (filter (fun p => fst p =? i) links).

(** [query.join(File.jobs).filter(Job.id.in_(job_ids))] on one row. *)
Definition in_jobs (links : Links) (job_ids : list Z) (f : File) : bool :=
  existsb (fun j => existsb (Z.eqb j) job_ids) (jobs_of links f.(id)).

(** [if job_ids: query = query.join(...)]: an empty collection does not scope. *)
Definition job_scope (links : Links) (job_ids : list Z) (f : File) : bool :=
  match job_ids with [] => true | _ => in_jobs links job_ids f end.

(** [File.<column> == group_id, File.discarded == False] *)
Definition is_member (gid : File -> option string) (g : string) (f : File) : bool :=
  match gid f with Some g' => String.eqb g' g | None => false end && negb f.(discarded).

(** [_cleanup_exact_orphans] and [_cleanup_similar_orphans] differ only in
    the column they read and what they clear on the lone remaining row.
    [group_ids] is the set in any iteration order; the joined query returns
    each row once. *)
Definition cleanup_orphans (gid : File -> option string) (clear : File -> File)
    (scope : File -> bool) (group_ids : list string) (db : Db) : Db :=
  fold_left (fun d g =>
      match filter (fun f => is_member gid g f && scope f) d with
      | [f] => update f.(id) clear d
      | _ => d
      end) group_ids db.

(** [remaining[0].exact_group_id = None] *)
Definition clear_exact_id (f : File) : File := set_exact None f.(exact_group_confidence) f.

Definition cleanup_exact_orphans (links : Links) (group_ids : list string) (job_ids : list Z)
    (db : Db) : Db :=
  cleanup_orphans exact_group_id clear_exact_id (job_scope links job_ids) group_ids db.

Definition cleanup_similar_orphans (links : Links) (group_ids : list string) (job_ids : list Z)
    (db : Db) : Db :=
  cleanup_orphans similar_group_id clear_similar_fields (job_scope links job_ids) group_ids db.

(** [s.add(x)] on a set kept in insertion order. *)
Definition add_set {A : Type} (eqb : A -> A -> bool) (x : A) (s : list A) : list A :=
  if existsb (eqb x) s then s else s ++ [x].

(** [bulk_not_duplicate] on a valid [file_ids] list: [files_updated] and the
    committed rows. *)
Definition bulk_not_duplicate (file_ids : list Z) (db : Db) : Z * Db :=
  let '(success_count, affected_groups, d) :=
    fold_left (fun acc i =>
        let '(n, aff, d) := acc in
        match get d i with
        | Some f =>
            match f.(exact_group_id) with
            | Some g => (n + 1, add_set String.eqb g aff, update i clear_exact_id d)
            | None => acc
            end
        | None => acc
        end) file_ids (0, [], db) in
  (success_count, cleanup_exact_orphans [] affected_groups [] d).

(** [bulk_not_similar]: the status, [cleared] and the committed rows.  The
    loop visits the rows of [File.id.in_(file_ids)] in table order. *)
Definition bulk_not_similar (file_ids : list Z) (db : Db) : Z * Z * Db :=
  match file_ids with
  | [] => (400, 0, db)
  | _ =>
    let files := filter (fun f => existsb (Z.eqb f.(id)) file_ids) db in
    let '(cleared, affected_groups, d) :=
      fold_left (fun acc i =>
          let '(n, aff, d) := acc in
          match get d i with
          | Some f =>
              if truthy f.(similar_group_id) then
                match f.(similar_group_id) with
                | Some g => (n + 1, add_set String.eqb g aff, update i clear_similar_fields d)
                | None => acc
                end
              else acc
          | None => acc
          end) (map id files) (0, [], db) in
    (200, cleared, cleanup_similar_orphans [] affected_groups [] d)
  end.

(** [keep_all_duplicates]: the status, [affected_count], the files that get
    a ['keep_all_duplicates'] decision, and the committed rows. *)
Definition keep_all_duplicates (group_hash : string) (db : Db) : Z * Z * list Z * Db :=
  match filter (is_member exact_group_id group_hash) db with
  | [] => (404, 0, [], db)
  | files =>
      (200, Z.of_nat (List.length files), map id files,
       map (fun f => if is_member exact_group_id group_hash f then clear_exact_id f else f) db)
  end.

Definition sha_eq (h : string) (f : File) : bool :=
  match f.(file_hash_sha256) with Some h' => String.eqb h' h | None => false end.

(** The re-grouping of [undiscard_file] and [bulk_undiscard] for the row
    [i] with the non-empty hash [h]: [matching_files], then either the
    group restored on the row and its matches, or the row's group cleared. *)
Definition matching_files (links : Links) (h : string) (i : Z) (d : Db) : list File :=
  filter (fun m => sha_eq h m && negb m.(discarded) && negb (m.(id) =? i) &&
                   in_jobs links (jobs_of links i) m) d.

Definition regroup (links : Links) (h : string) (i : Z) (d : Db) : Db :=
  match matching_files links h i d with
  | [] => update i clear_exact_id d
  | matching =>
      map (fun f => if (f.(id) =? i) || existsb (Z.eqb f.(id)) (map id matching)
                    then set_exact (Some h) f.(exact_group_confidence) f else f) d
  end.

(** [undiscard_file]: the status and the committed rows. *)
Definition undiscard_file (links : Links) (i : Z) (db : Db) : Z * Db :=
  match get db i with
  | None => (404, db)
  | Some file =>
      let d1 := update i (set_discarded false) db in
      match file.(file_hash_sha256) with
      | Some h => if truthy (Some h) then (200, regroup links h i d1) else (200, d1)
      | None => (200, d1)
      end
  end.

(** [timestamp_candidates] of every row, by id. *)
Definition Store := list (Z * Accumulate.CandCol).

Definition store_get (st : Store) (i : Z) : Accumulate.CandCol :=
  match find (fun p => fst p =? i) st with Some (_, c) => c | None => Accumulate.ColNone end.

Definition store_set (st : Store) (i : Z) (c : Accumulate.CandCol) : Store :=
  (i, c) :: st.

(** [files_by_exact_group] / [files_by_similar_group]: an insertion-ordered
    dict from the group id to the listed files in it. *)
Definition files_by_group (gid : File -> option string) (file_ids : list Z) (db : Db)
  : list (string * list Z) :=
  fold_left (fun acc i =>
      match get db i with
      | Some f =>
          match gid f with
          | Some g => if truthy (Some g) then ExactGroups.add_to_group g i acc else acc
          | None => acc
          end
      | None => acc
      end) file_ids [].

(** The accumulation loop for one dict: every kept row of the group (a
    non-discarded member not listed) receives the candidates of the listed
    members. *)
Definition accumulate_groups (gid : File -> option string) (file_ids : list Z) (db : Db)
    (groups : list (string * list Z)) (st : Store) : Store :=
  fold_left (fun st p =>
      let kept_files :=
        filter (fun f => match gid f with Some g => String.eqb g (fst p) | None => false end &&
                         negb f.(discarded) && negb (existsb (Z.eqb f.(id)) file_ids)) db in
      fold_left (fun st k =>
          store_set st k.(id)
            (Accumulate.accumulate_metadata (store_get st k.(id))
               (map (store_get st) (snd p)))) kept_files st) groups st.

(** [affected_job_ids] *)
Definition bulk_jobs (links : Links) (file_ids : list Z) (db : Db) : list Z :=
  fold_left (fun acc i =>
      match get db i with
      | Some _ => fold_left (fun s j => add_set Z.eqb j s) (jobs_of links i) acc
      | None => acc
      end) file_ids [].

(** The first pass of [bulk_discard]: [success_count], the affected exact
    and similar groups, and the rows. *)
Definition discard_pass (file_ids : list Z) (db : Db) : Z * list string * list string * Db :=
  fold_left (fun acc i =>
      let '(n, ax, asim, d) := acc in
      match get d i with
      | Some f =>
          let ax' := if truthy f.(exact_group_id) then
                       match f.(exact_group_id) with
                       | Some g => add_set String.eqb g ax | None => ax end
                     else ax in
          let asim' := if truthy f.(similar_group_id) then
                         match f.(similar_group_id) with
                         | Some g => add_set String.eqb g asim | None => asim end
                       else asim in
          (n + 1, ax', asim', update i discard_row d)
      | None => acc
      end) file_ids (0, [], [], db).

(** [bulk_discard] on a valid [file_ids] list: [files_discarded], the
    committed rows and the candidates columns. *)
Definition bulk_discard (links : Links) (file_ids : list Z) (st : Store) (db : Db)
  : Z * Db * Store :=
  let st1 := accumulate_groups exact_group_id file_ids db
               (files_by_group exact_group_id file_ids db) st in
  let st2 := accumulate_groups similar_group_id file_ids db
               (files_by_group similar_group_id file_ids db) st1 in
  let '(success_count, affected_groups, affected_similar_groups, d) :=
    discard_pass file_ids db in
  let job_ids := bulk_jobs links file_ids d in
  let d1 := cleanup_exact_orphans links affected_groups job_ids d in
  let d2 := cleanup_similar_orphans links affected_similar_groups job_ids d1 in
  (success_count, d2, st2).

End ReviewOps.

(* ------------------------------------------------------------------ *)
(** ** Names for the import loop's bookkeeping *)

Module ImportView.
Import ImportJob.

(** The files of the successful and of the errored results, in order. *)
Definition succ_files (rs : list Res) : list Z :=
  map res_file (filter (fun r => negb r.(res_error)) rs).

Definition err_files (rs : list Res) : list Z :=
  map res_file (filter res_error rs).

(** The updates written or queued for writing. *)
Definition written (s : LoopSt) : list Z := s.(committed_updates) ++ s.(pending_updates).

(** The loop state when the results start arriving: [processed_count] is the
    number already processed, [error_count] the job's count so far. *)
Definition loop_start (already_processed errors : Z) : LoopSt :=
  mkLoop already_processed errors [] [] [].

End ImportView.

(* ------------------------------------------------------------------ *)
(** ** Sample rows for the clustering pass *)

Module EngineSamples.
Import Model Samples.

(** Two bursts of two shots, 100 seconds apart. *)
Definition two_bursts : list File :=
  [phash_row 3 "00000000000000ff" (Some 100000000);
   phash_row 1 "0000000000000000" (Some 0);
   phash_row 4 "00000000000000ff" (Some 101000000);
   phash_row 2 "0000000000000001" (Some 1000000);
   phash_row 5 "0000000000000000" None].

End EngineSamples.

(* ------------------------------------------------------------------ *)
(** ** Sample candidates for [build_timestamp_options] *)

Module TimestampSamples.
Import Confidence ConfSamples.

(** A filename date 10 s after the EXIF original, a creation date 100 s
    later, and a file date from 1970. *)
Definition drift_example : list (DateTime * string) :=
  [(mkDT 2024 (t0 + 10000000), "filename_date");
   (mkDT 2024 t0, "EXIF:DateTimeOriginal");
   (mkDT 2024 (t0 + 100000000), "EXIF:CreateDate");
   (mkDT 1970 0, "File:FileModifyDate")].

End TimestampSamples.

(** Named pieces of the review routes' loops, shared by their proofs. *)
Module ReviewSteps.
Import Perceptual Model Review ReviewOps.

(** The filter of the orphan cleanup's query for one group. *)
Definition member_in (gid : File -> option string) (scope : File -> bool) (g : string)
    (f : File) : bool :=
  is_member gid g f && scope f.

(** One iteration of [cleanup_orphans]. *)
Definition cleanup_step (gid : File -> option string) (clear : File -> File)
    (scope : File -> bool) (d : Db) (g : string) : Db :=
  match filter (fun f => is_member gid g f && scope f) d with
  | [f] => update f.(id) clear d
  | _ => d
  end.

(** [file_id in file_ids] *)
Definition listed (ids : list Z) (f : File) : bool := existsb (Z.eqb f.(id)) ids.

(** The loop body shared by [bulk_not_duplicate] and [bulk_not_similar]:
    a listed row [sel] accepts leaves its group [gid] through [t]. *)
Definition gstep (gid : File -> option string) (t : File -> File) (sel : File -> bool)
    (acc : Z * list string * Db) (i : Z) : Z * list string * Db :=
  let '(n, aff, d) := acc in
  match get d i with
  | Some f =>
      if sel f then
        match gid f with
        | Some g => (n + 1, add_set String.eqb g aff, update i t d)
        | None => acc
        end
      else acc
  | None => acc
  end.

(** [file.exact_group_id is not None] *)
Definition has_exact (f : File) : bool :=
  match f.(exact_group_id) with Some _ => true | None => false end.

(** A row after the loop has visited the ids [ids]. *)
Definition upd (t : File -> File) (sel : File -> bool) (ids : list Z) (f : File) : File :=
  if listed ids f && sel f then t f else f.

(** What the loop has computed after visiting [pre]. *)
Definition loop_inv (gid : File -> option string) (t : File -> File) (sel : File -> bool)
    (db : Db) (pre : list Z) (acc : Z * list string * Db) : Prop :=
  let '(n, aff, d) := acc in
  n = Z.of_nat (List.length (filter (fun f => listed pre f && sel f) db)) /\
  (forall g, In g aff <-> exists f, In f db /\ listed pre f = true /\ sel f = true /\ gid f = Some g) /\
  d = map (upd t sel pre) db.

(** The body of the first pass of [bulk_discard]. *)
Definition discard_step (acc : Z * list string * list string * Db) (i : Z)
  : Z * list string * list string * Db :=
  let '(n, ax, asim, d) := acc in
  match get d i with
  | Some f =>
      let ax' := if truthy f.(exact_group_id) then
                   match f.(exact_group_id) with
                   | Some g => add_set String.eqb g ax | None => ax end
                 else ax in
      let asim' := if truthy f.(similar_group_id) then
                     match f.(similar_group_id) with
                     | Some g => add_set String.eqb g asim | None => asim end
                   else asim in
      (n + 1, ax', asim', update i discard_row d)
  | None => acc
  end.

(** [g] is the (non-empty) group, read by [gid], of a row listed in [pre]. *)
Definition affected (gid : File -> option string) (db : Db) (pre : list Z) (g : string) : Prop :=
  exists f, In f db /\ listed pre f = true /\ truthy (gid f) = true /\ gid f = Some g.

(** What the first pass of [bulk_discard] has computed after visiting [pre]. *)
Definition discard_inv (db : Db) (pre : list Z) (acc : Z * list string * list string * Db)
  : Prop :=
  let '(n, ax, asim, d) := acc in
  n = Z.of_nat (List.length (filter (fun i => match get db i with Some _ => true | None => false end) pre)) /\
  (forall g, In g ax <-> affected exact_group_id db pre g) /\
  (forall g, In g asim <-> affected similar_group_id db pre g) /\
  d = map (fun f => if listed pre f then discard_row f else f) db.

End ReviewSteps.

(** Rows for the review-route examples: two exact groups and one similar group. *)
Module ReviewSamples.
Import Model.

Definition group_rows : Db :=
  [set_exact (Some "a") None (blank 1 "x.jpg");
   set_exact (Some "a") None (blank 2 "y.jpg");
   set_similar (Some "s") None None (set_exact (Some "b") None (blank 3 "z.jpg"));
   set_similar (Some "s") None None (blank 4 "w.jpg")].

(** A discarded row 1 and a live row 2 with the same hash, both in job 7. *)
Definition hash_rows : Db :=
  [mkFile 1 "x.jpg" (Some "h") None None None None true None None None None None None None;
   mkFile 2 "y.jpg" (Some "h") None None None None false None None None None None None None].

Definition hash_links : list (Z * Z) := [(1, 7); (2, 7)].

End ReviewSamples.

(** Two more review routes. *)
Module ReviewMore.
Import Perceptual Model Review ReviewOps.

(** [keep_all_similar]: the status, [cleared] and the committed rows. *)
Definition keep_all_similar (group_id : string) (db : Db) : Z * Z * Db :=
  match filter (in_group group_id) db with
  | [] => (404, 0, db)
  | group_files =>
      (200, Z.of_nat (List.length group_files),
       map (fun f => if in_group group_id f then clear_similar_fields f else f) db)
  end.

(** The second pass of [bulk_undiscard] on one file of [files_to_process]:
    [groups_restored] and the rows. *)
Definition undiscard_regroup (links : Links) (acc : Z * Db) (i : Z) : Z * Db :=
  let '(groups_restored, d) := acc in
  match get d i with
  | Some file =>
      match file.(file_hash_sha256) with
      | Some h =>
          if truthy (Some h) then
            match matching_files links h i d with
            | [] => (groups_restored, regroup links h i d)
            | _ => (if truthy file.(exact_group_id) then groups_restored else groups_restored + 1,
                    regroup links h i d)
            end
          else acc
      | None => acc
      end
  | None => acc
  end.

(** [bulk_undiscard] on a valid [file_ids] list: [files_undiscarded],
    [groups_restored] and the committed rows.  [files_to_process] holds the
    rows by id, in visiting order. *)
Definition bulk_undiscard (links : Links) (file_ids : list Z) (db : Db) : Z * Z * Db :=
  let '(success_count, files_to_process, d1) :=
    fold_left (fun acc i =>
        let '(n, fs, d) := acc in
        match get d i with
        | Some _ => (n + 1, fs ++ [i], update i (set_discarded false) d)
        | None => acc
        end) file_ids (0, [], db) in
  let '(groups_restored, d2) := fold_left (undiscard_regroup links) files_to_process (0, d1) in
  (success_count, groups_restored, d2).

End ReviewMore.

(* ------------------------------------------------------------------ *)
(** ** app/routes/review.py: the tag routes *)

Module TagRoutes.
Import Model ReviewOps.

(** A [tags] row.  [created_at] is not read by the routes. *)
Record Tag := mkTag { tag_id : Z; tag_name : string; usage_count : Z }.

(** The [tags] table, the [file_tags] association table (file id, tag id)
    in insertion order, and the next primary key the database hands out.
    Python's [str.strip] and [str.lower] are parameters [strip] and [lower]
    of the routes below. *)
Record TagSt := mkTagSt { tags : list Tag; file_tags : list (Z * Z); next_tag_id : Z }.

(** [Tag.query.filter_by(name=n).first()] *)
Definition find_tag (ts : list Tag) (n : string) : option Tag :=
  find (fun t => String.eqb t.(tag_name) n) ts.

(** The find-or-create block: [Tag(name=n, usage_count=0)] then [flush]. *)
Definition tag_of (n : string) (st : TagSt) : Tag * TagSt :=
  match find_tag st.(tags) n with
  | Some t => (t, st)
  | None =>
      let t := mkTag st.(next_tag_id) n 0 in
      (t, mkTagSt (st.(tags) ++ [t]) st.(file_tags) (st.(next_tag_id) + 1))
  end.

(** [tag in file.tags] *)
Definition has_tag (ft : list (Z * Z)) (fid tid : Z) : bool :=
  existsb (fun p => (fst p =? fid) && (snd p =? tid)) ft.

(** [tag.usage_count = k(tag.usage_count)] on the row with id [tid]. *)
Definition set_usage (tid : Z) (k : Z -> Z) (ts : list Tag) : list Tag :=
  map (fun t => if t.(tag_id) =? tid then mkTag t.(tag_id) t.(tag_name) (k t.(usage_count)) else t) ts.

(** [file.tags.append(tag); tag.usage_count += 1] *)
Definition link_tag (fid : Z) (t : Tag) (st : TagSt) : TagSt :=
  mkTagSt (set_usage t.(tag_id) (fun c => c + 1) st.(tags))
    (st.(file_tags) ++ [(fid, t.(tag_id))]) st.(next_tag_id).

(** [file.tags.remove(tag)]: the first matching link goes. *)
Fixpoint remove_link (fid tid : Z) (ft : list (Z * Z)) : list (Z * Z) :=
  match ft with
  | [] => []
  | p :: r => if (fst p =? fid) && (snd p =? tid) then r else p :: remove_link fid tid r
  end.

(** One iteration of the loop of [add_tags_to_file]; [None] is an element
    that is not a string. *)
Definition add_one (strip lower : string -> string) (fid : Z) (st : TagSt)
    (tag_name : option string) : TagSt :=
  match tag_name with
  | None => st
  | Some s =>
      if String.eqb (strip s) EmptyString then st
      else
        let '(t, st1) := tag_of (lower (strip s)) st in
        if has_tag st1.(file_tags) fid t.(tag_id) then st1 else link_tag fid t st1
  end.

(** [add_tags_to_file]: [data] is [None] when the body is empty, has no
    [tags] key or its value is not a list. *)
Definition add_tags_to_file (strip lower : string -> string) (fid : Z)
    (data : option (list (option string))) (db : Db) (st : TagSt) : Z * TagSt :=
  match get db fid with
  | None => (404, st)
  | Some _ =>
      match data with
      | None => (400, st)
      | Some names => (200, fold_left (add_one strip lower fid) names st)
      end
  end.

Definition remove_tag_from_file (strip lower : string -> string) (fid : Z)
    (tag_name : string) (db : Db) (st : TagSt) : Z * TagSt :=
  match get db fid with
  | None => (404, st)
  | Some _ =>
      match find_tag st.(tags) (lower (strip tag_name)) with
      | None => (404, st)
      | Some t =>
          if has_tag st.(file_tags) fid t.(tag_id) then
            (200, mkTagSt (set_usage t.(tag_id) (fun c => Z.max 0 (c - 1)) st.(tags))
                    (remove_link fid t.(tag_id) st.(file_tags)) st.(next_tag_id))
          else (200, st)
      end
  end.

(** [bulk_add_tags]: the status, [tags_added], [files_updated] and the
    tables.  [data] is [None] when a key is missing or not a list. *)
Definition bulk_add_tags (strip lower : string -> string)
    (data : option (list Z * list (option string))) (db : Db) (st : TagSt)
    : Z * Z * Z * TagSt :=
  match data with
  | None => (400, 0, 0, st)
  | Some (file_ids, names) =>
      let '(tags_to_add, st1) :=
        fold_left (fun acc x =>
            let '(l, s) := acc in
            match x with
            | None => acc
            | Some n =>
                if String.eqb (strip n) EmptyString then acc
                else let '(t, s1) := tag_of (lower (strip n)) s in (l ++ [t], s1)
            end) names ([], st) in
      let '(success_count, files_updated, st2) :=
        fold_left (fun acc fid =>
            match get db fid with
            | None => acc
            | Some _ =>
                fold_left (fun acc2 t =>
                    let '(n, upd, s) := acc2 in
                    if has_tag s.(file_tags) fid t.(tag_id) then acc2
                    else (n + 1, add_set Z.eqb fid upd, link_tag fid t s)) tags_to_add acc
            end) file_ids (0, [], st1) in
      (200, success_count, Z.of_nat (List.length files_updated), st2)
  end.

(** The number of files carrying the tag [tid]. *)
Definition tag_count (ft : list (Z * Z)) (tid : Z) : nat :=
  List.length (filter (fun p => snd p =? tid) ft).

(** The consistency of the tag tables: distinct tag ids below the next
    key, distinct links to existing tags, and each [usage_count] equal to
    the number of files carrying the tag. *)
Definition tags_ok (st : TagSt) : Prop :=
  NoDup (map tag_id st.(tags)) /\
  Forall (fun t => t.(tag_id) < st.(next_tag_id)) st.(tags) /\
  NoDup st.(file_tags) /\
  Forall (fun p => In (snd p) (map tag_id st.(tags))) st.(file_tags) /\
  Forall (fun t => t.(usage_count) = Z.of_nat (tag_count st.(file_tags) t.(tag_id))) st.(tags).

End TagRoutes.

(** A tag table for the concrete checks: tag 1 "beach" on file 1. *)
Module TagSamples.
Import Model TagRoutes.

Definition tag_db : Db := [blank 1 "a.jpg"; blank 2 "b.jpg"].

Definition tag_state : TagSt := mkTagSt [mkTag 1 "beach" 1] [(1, 1)] 2.

(** [str.strip] and [str.lower] on names that need neither. *)
Definition plain (s : string) : string := s.

End TagSamples.

(* ------------------------------------------------------------------ *)
(** ** app/lib/tagging.py: [apply_auto_tags] *)

Module AutoTags.
Import TagRoutes.

(** [apply_auto_tags] on the tag tables.  Each file is given by its id and
    the names [auto_generate_tags] returns for it; the result is
    [(files_tagged, tags_created, tags_applied)] and the tables.  The
    intermediate [flush] calls and the unused [created_tags] set do not
    change the tables. *)
Definition apply_auto_tags (files : list (Z * list string)) (st : TagSt) : Z * Z * Z * TagSt :=
  fold_left (fun acc file =>
      let '(fid, tag_names) := file in
      match tag_names with
      | [] => acc
      | _ =>
          let '(files_tagged, tags_created, tags_applied, s) := acc in
          let '(created, applied, file_had_changes, s') :=
            fold_left (fun acc2 tag_name =>
                let '(c, a, ch, s0) := acc2 in
                let c' := match find_tag s0.(tags) tag_name with None => c + 1 | Some _ => c end in
                let '(t, s1) := tag_of tag_name s0 in
                if has_tag s1.(file_tags) fid t.(tag_id) then (c', a, ch, s1)
                else (c', a + 1, true, link_tag fid t s1))
              tag_names (tags_created, tags_applied, false, s) in
          ((if file_had_changes then files_tagged + 1 else files_tagged), created, applied, s')
      end) files (0, 0, 0, st).

End AutoTags.

(* ================================================================== *)
(** * Proofs *)

Module PerceptualFacts.
Import Perceptual.

Lemma hex_val_range : forall c d, hex_val c = Some d -> 0 <= d < 16.
Proof.
  intros [[] [] [] [] [] [] [] []] d H; vm_compute in H;
    try discriminate; injection H as <-; lia.
Qed.

Lemma hex_val_not_space : forall c, hex_val c <> None -> is_py_space c = false.
Proof. intros [[] [] [] [] [] [] [] []] H; vm_compute in *; congruence. Qed.

Lemma hex_val_not_marker : forall c, hex_val c <> None ->
  Ascii.eqb c "-"%char = false /\ Ascii.eqb c "+"%char = false /\
  Ascii.eqb c "x"%char = false /\ Ascii.eqb c "X"%char = false /\
  Ascii.eqb c "_"%char = false.
Proof. intros [[] [] [] [] [] [] [] []] H; vm_compute in *; intuition congruence. Qed.

Lemma hexb_true : forall c, hexb c = true -> exists d, hex_val c = Some d.
Proof. unfold hexb; intros c; destruct (hex_val c); eauto; discriminate. Qed.

(** On digits only, the loop consumes everything and stays below [16^n]. *)
Lemma digits_loop_digits : forall l acc k,
  forallb hexb l = true -> 0 <= acc < 16 ^ k -> 0 <= k ->
  exists v, digits_loop acc l = (v, []) /\ 0 <= v < 16 ^ (k + Z.of_nat (List.length l)).
Proof.
  induction l as [|c r IH]; intros acc k Hl Hacc Hk; simpl in *.
  - exists acc; split; [reflexivity|]. rewrite Z.add_0_r; exact Hacc.
  - apply andb_prop in Hl as [Hc Hr].
    destruct (hexb_true c Hc) as [d Hd]. rewrite Hd.
    pose proof (hex_val_range _ _ Hd).
    destruct (IH (acc * 16 + d) (k + 1) Hr) as [v [Hv Hb]]; try lia.
    + rewrite Z.pow_add_r by lia. nia.
    + exists v; split; [exact Hv|].
      rewrite Zpos_P_of_succ_nat.
      replace (k + Z.succ (Z.of_nat (List.length r)))
        with (k + 1 + Z.of_nat (List.length r)) by lia.
      exact Hb.
Qed.

Lemma string_length_list : forall s,
  String.length s = List.length (list_ascii_of_string s).
Proof. induction s; simpl; congruence. Qed.

Lemma int16_hex_digits : forall s, is_hex_digits s = true ->
  exists v, int16 s = Some v /\ 0 <= v < 16 ^ Z.of_nat (String.length s).
Proof.
  intros s Hs. unfold is_hex_digits, int16 in *.
  rewrite string_length_list.
  destruct (list_ascii_of_string s) as [|c r] eqn:E; [discriminate|].
  simpl in Hs. apply andb_prop in Hs as [Hc Hr].
  destruct (hexb_true c Hc) as [d Hd].
  assert (Hn : hex_val c <> None) by congruence.
  destruct (hex_val_not_marker c Hn) as (Hm & Hp & Hx & HX & Hu).
  simpl. rewrite (hex_val_not_space c Hn). simpl. rewrite Hm, Hp.
  assert (Hpre : strip_prefix (c :: r) = c :: r).
  { unfold strip_prefix. destruct r as [|c1 r1]; [reflexivity|].
    destruct (Ascii.eqb c "0"%char) eqn:E0; [|reflexivity].
    apply Ascii.eqb_eq in E0; subst c.
    destruct (hexb c1) eqn:Hc1; [|simpl in Hr; rewrite Hc1 in Hr; discriminate].
    destruct (hexb_true c1 Hc1) as [d1 Hd1].
    destruct (hex_val_not_marker c1 ltac:(congruence)) as (_ & _ & Hx1 & HX1 & _).
    rewrite Hx1, HX1; reflexivity. }
  rewrite Hpre, Hd.
  pose proof (hex_val_range _ _ Hd).
  destruct (digits_loop_digits r d 1 Hr) as [v [Hv Hb]]; try lia.
  rewrite Hv. exists v; split; [reflexivity|].
  change (Z.pow_pos 16 (Pos.of_succ_nat (List.length r)))
    with (16 ^ Z.pos (Pos.of_succ_nat (List.length r))).
  rewrite Zpos_P_of_succ_nat, <- Z.add_1_l. exact Hb.
Qed.

Lemma pos_popcount_pos : forall p, 1 <= pos_popcount p.
Proof. induction p; cbn [pos_popcount]; lia. Qed.

Lemma bit_count_zero : forall z, bit_count z = 0 <-> z = 0.
Proof.
  intros z; unfold bit_count; split.
  - destruct (Z.abs z) eqn:E; intros H.
    + now apply Z.abs_0_iff.
    + pose proof (pos_popcount_pos p); lia.
    + pose proof (Pos2Z.neg_is_neg p); pose proof (Z.abs_nonneg z); lia.
  - intros ->; reflexivity.
Qed.

Lemma pow2_nonpos : forall k, k <= 0 -> 2 ^ k <= 1.
Proof.
  intros k Hk. destruct (Z.eq_dec k 0) as [->|E]; [reflexivity|].
  rewrite Z.pow_neg_r by lia. lia.
Qed.

Lemma pos_popcount_bound : forall p k, Z.pos p < 2 ^ k -> pos_popcount p <= k.
Proof.
  induction p as [q IH|q IH|]; intros k Hk; cbn [pos_popcount];
    destruct (Z.le_gt_cases k 0) as [Hk0|Hk0];
    try (pose proof (pow2_nonpos k Hk0); lia).
  - rewrite Pos2Z.inj_xI in Hk.
    assert (Z.pos q < 2 ^ (k - 1)).
    { replace k with (Z.succ (k - 1)) in Hk by lia.
      rewrite Z.pow_succ_r in Hk by lia. lia. }
    specialize (IH _ H); lia.
  - rewrite Pos2Z.inj_xO in Hk.
    assert (Z.pos q < 2 ^ (k - 1)).
    { replace k with (Z.succ (k - 1)) in Hk by lia.
      rewrite Z.pow_succ_r in Hk by lia. lia. }
    specialize (IH _ H); lia.
  - lia.
Qed.

Lemma bit_count_bound : forall z k, 0 <= z < 2 ^ k -> 0 <= k -> 0 <= bit_count z <= k.
Proof.
  intros z k Hz Hk; unfold bit_count.
  rewrite Z.abs_eq by lia.
  destruct z as [|p|p]; try lia.
  pose proof (pos_popcount_pos p); pose proof (pos_popcount_bound p k); lia.
Qed.

Lemma lxor_bound : forall a b k, 0 <= a < 2 ^ k -> 0 <= b < 2 ^ k ->
  0 <= Z.lxor a b < 2 ^ k.
Proof.
  intros a b k Ha Hb.
  assert (Hn : 0 <= Z.lxor a b) by (apply Z.lxor_nonneg; lia).
  split; [exact Hn|].
  destruct (Z.eq_dec (Z.lxor a b) 0) as [E|E]; [rewrite E; lia|].
  apply Z.log2_lt_pow2; [lia|].
  pose proof (Z.log2_lxor a b ltac:(lia) ltac:(lia)).
  assert (Z.log2 a < k \/ a = 0).
  { destruct (Z.eq_dec a 0); [now right|left; apply Z.log2_lt_pow2; lia]. }
  assert (Z.log2 b < k \/ b = 0).
  { destruct (Z.eq_dec b 0); [now right|left; apply Z.log2_lt_pow2; lia]. }
  assert (0 < k).
  { destruct (Z.le_gt_cases k 0); [|lia].
    pose proof (pow2_nonpos k H2).
    assert (a = 0) by lia; assert (b = 0) by lia; subst.
    now rewrite Z.lxor_0_l in E. }
  destruct H0 as [H0|H0], H1 as [H1|H1]; subst; simpl in *; lia.
Qed.

Lemma int16_truthy : forall s v, int16 s = Some v -> truthy (Some s) = true.
Proof. intros [|c s] v H; [discriminate|reflexivity]. Qed.

End PerceptualFacts.

Module PerceptualClaims.
Import Perceptual PerceptualFacts.

(** C9 (amended).  [hamming_distance] is total and symmetric; it returns the
    sentinel 999 for [None], empty or unparsable inputs; on parsable inputs it
    is 0 exactly when both denote the same integer; and on hashes of at most
    16 hex digits (64-bit hashes) it lies between 0 and 64. *)
Theorem hamming_distance_spec :
  (forall a b, hamming_distance a b = hamming_distance b a) /\
  (forall a b, truthy a = false \/ truthy b = false -> hamming_distance a b = 999) /\
  (forall s1 s2, int16 s1 = None \/ int16 s2 = None ->
     hamming_distance (Some s1) (Some s2) = 999) /\
  (forall s1 s2 v1 v2, int16 s1 = Some v1 -> int16 s2 = Some v2 ->
     (hamming_distance (Some s1) (Some s2) = 0 <-> v1 = v2)) /\
  (forall s1 s2, is_hex_digits s1 = true -> is_hex_digits s2 = true ->
     (String.length s1 <= 16)%nat -> (String.length s2 <= 16)%nat ->
     0 <= hamming_distance (Some s1) (Some s2) <= 64).
Proof.
  split; [|split; [|split; [|split]]].
  - intros a b; unfold hamming_distance; rewrite orb_comm.
    destruct (negb (truthy b) || negb (truthy a)); [reflexivity|].
    destruct a as [s1|], b as [s2|]; try reflexivity.
    destruct (int16 s1), (int16 s2); try reflexivity.
    now rewrite Z.lxor_comm.
  - intros a b [H|H]; unfold hamming_distance; rewrite H;
      [reflexivity|now rewrite orb_true_r].
  - intros s1 s2 H; unfold hamming_distance.
    destruct (negb (truthy (Some s1)) || negb (truthy (Some s2))); [reflexivity|].
    destruct H as [H|H]; rewrite H; [reflexivity|now destruct (int16 s1)].
  - intros s1 s2 v1 v2 H1 H2; unfold hamming_distance.
    rewrite (int16_truthy _ _ H1), (int16_truthy _ _ H2), H1, H2; simpl.
    rewrite bit_count_zero. apply Z.lxor_eq_0_iff.
  - intros s1 s2 H1 H2 L1 L2.
    destruct (int16_hex_digits s1 H1) as [v1 [E1 B1]].
    destruct (int16_hex_digits s2 H2) as [v2 [E2 B2]].
    unfold hamming_distance.
    rewrite (int16_truthy _ _ E1), (int16_truthy _ _ E2), E1, E2; simpl.
    assert (P : forall n, (n <= 16)%nat -> 16 ^ Z.of_nat n <= 2 ^ 64).
    { intros n Hn. replace (2 ^ 64) with (16 ^ 16) by reflexivity.
      apply Z.pow_le_mono_r; lia. }
    apply bit_count_bound; [|lia].
    apply lxor_bound; split; try lia.
    + pose proof (P _ L1); lia.
    + pose proof (P _ L2); lia.
Qed.

(** C9 (counterexample).  A valid hex string longer than 16 digits drives
    the distance past 64. *)
Lemma hamming_distance_over_64 :
  is_hex_digits "1ffffffffffffffff" = true /\ is_hex_digits "0" = true /\
  hamming_distance (Some "1ffffffffffffffff") (Some "0") = 65.
Proof. vm_compute. repeat split. Qed.

Lemma hamming_distance_spec_witness :
  is_hex_digits "ffffffffffffffff" = true /\
  0 <= hamming_distance (Some "ffffffffffffffff") (Some "0000000000000000") <= 64.
Proof.
  split; [reflexivity|].
  apply (proj2 (proj2 (proj2 (proj2 hamming_distance_spec))));
    vm_compute; reflexivity || discriminate.
Defined.

End PerceptualClaims.

Module ModelFacts.
Import Model Aux.

Lemma get_update_same : forall db i g, id_preserving g ->
  get (update i g db) i = option_map g (get db i).
Proof.
  induction db as [|f r IH]; intros i g Hg; [reflexivity|]; simpl.
  destruct (f.(id) =? i) eqn:E.
  - simpl. rewrite Hg, E. reflexivity.
  - simpl. rewrite E. apply IH; exact Hg.
Qed.

Lemma get_update_other : forall db k i g, id_preserving g -> k <> i ->
  get (update k g db) i = get db i.
Proof.
  induction db as [|f r IH]; intros k i g Hg Hki; [reflexivity|]; simpl.
  destruct (f.(id) =? k) eqn:E; simpl.
  - apply Z.eqb_eq in E. rewrite Hg.
    assert ((f.(id) =? i) = false) by (apply Z.eqb_neq; congruence).
    rewrite H. apply IH; assumption.
  - destruct (f.(id) =? i); [reflexivity|]. apply IH; assumption.
Qed.

Lemma get_id : forall db i f, get db i = Some f -> f.(id) = i.
Proof.
  unfold get; intros db i f H. apply find_some in H as [_ H].
  now apply Z.eqb_eq.
Qed.

Lemma get_in : forall db i f, get db i = Some f -> In f db.
Proof. unfold get; intros db i f H. now apply find_some in H as [H _]. Qed.

Lemma set_exact_id : forall g c, id_preserving (set_exact g c).
Proof. intros; intro; reflexivity. Qed.

Lemma set_similar_id : forall g c t, id_preserving (set_similar g c t).
Proof. intros; intro; reflexivity. Qed.

Lemma set_review_id : forall a b, id_preserving (set_review a b).
Proof. intros; intro; reflexivity. Qed.

Lemma set_discarded_id : forall b, id_preserving (set_discarded b).
Proof. intros; intro; reflexivity. Qed.

End ModelFacts.

Module EngineFacts.
Import Perceptual Model ModelFacts Engine.

Lemma hex_fixed_nonempty : forall k n acc, acc <> EmptyString -> hex_fixed k n acc <> EmptyString.
Proof.
  induction k as [|k IH]; intros n acc H; [exact H|].
  apply IH. discriminate.
Qed.

Lemma group_id_of_nonempty : forall n, group_id_of n <> EmptyString.
Proof.
  intros n; unfold group_id_of.
  change (hex_fixed 15 (Z.of_nat n / 16) (String (hex_char (Z.of_nat n mod 16)) EmptyString)
    <> EmptyString).
  apply hex_fixed_nonempty; discriminate.
Qed.

Lemma truthy_nonempty : forall g, truthy (Some g) = true -> g <> EmptyString.
Proof. intros [|c g] H; [discriminate|discriminate]. Qed.

Lemma reuse_or_mint_spec : forall ga gb st,
  fst (reuse_or_mint ga gb st) <> EmptyString /\ (snd (reuse_or_mint ga gb st)).(db) = st.(db).
Proof.
  intros ga gb st; unfold reuse_or_mint.
  destruct ga as [g|], gb as [g'|];
    repeat match goal with
    | |- context [truthy ?x] => destruct (truthy x) eqn:?
    end; simpl;
    (split; [|reflexivity]);
    first [ now apply truthy_nonempty | apply group_id_of_nonempty ].
Qed.

Lemma merge_exact_rows : forall a b d st,
  a.(id) <> b.(id) -> get st.(db) a.(id) = Some a -> get st.(db) b.(id) = Some b ->
  let st' := merge_into_exact_group a b d st in
  exists g, g <> EmptyString /\
    get st'.(db) a.(id) = Some (set_exact (Some g) (Some "high") a) /\
    get st'.(db) b.(id) = Some (set_exact (Some g) (Some "high") b).
Proof.
  intros a b d st Hab Ha Hb; simpl. unfold merge_into_exact_group.
  pose proof (reuse_or_mint_spec a.(exact_group_id) b.(exact_group_id) st) as [Hg Hdb].
  destruct (reuse_or_mint a.(exact_group_id) b.(exact_group_id) st) as [g st1].
  simpl in *. exists g; split; [exact Hg|]. simpl. split.
  - rewrite get_update_other by (apply set_exact_id || congruence).
    rewrite get_update_same by apply set_exact_id. rewrite Hdb, Ha. reflexivity.
  - rewrite get_update_same by apply set_exact_id.
    rewrite get_update_other by (apply set_exact_id || congruence).
    rewrite Hdb, Hb. reflexivity.
Qed.

Lemma merge_similar_rows : forall a b d st,
  a.(id) <> b.(id) -> get st.(db) a.(id) = Some a -> get st.(db) b.(id) = Some b ->
  let st' := merge_into_similar_group a b d st in
  exists g c t, g <> EmptyString /\
    get st'.(db) a.(id) = Some (set_similar (Some g) (Some c) (Some t) a) /\
    get st'.(db) b.(id) = Some (set_similar (Some g) (Some c) (Some t) b).
Proof.
  intros a b d st Hab Ha Hb; simpl. unfold merge_into_similar_group.
  pose proof (reuse_or_mint_spec a.(similar_group_id) b.(similar_group_id) st) as [Hg Hdb].
  destruct (reuse_or_mint a.(similar_group_id) b.(similar_group_id) st) as [g st1].
  simpl in *. do 3 eexists; split; [exact Hg|]. simpl. split.
  - rewrite get_update_other by (apply set_similar_id || congruence).
    rewrite get_update_same by apply set_similar_id. rewrite Hdb, Ha. reflexivity.
  - rewrite get_update_same by apply set_similar_id.
    rewrite get_update_other by (apply set_similar_id || congruence).
    rewrite Hdb, Hb. reflexivity.
Qed.

End EngineFacts.

Module EngineClaims.
Import Perceptual Model ModelFacts Engine EngineFacts Samples.

(** C2 (amended).  For a pair of distinct rows with non-empty perceptual
    hashes compared by [analyze_cluster]: Hamming distance at most 5 puts both
    in one exact group (same non-empty id, confidence "high"); distance 6 to
    20 puts both in one similar group (same non-empty id); distance 21 or
    more (the 999 sentinel included) leaves the rows untouched. *)
Theorem compare_pair_thresholds : forall st a b,
  a.(id) <> b.(id) ->
  get st.(db) a.(id) = Some a -> get st.(db) b.(id) = Some b ->
  truthy a.(file_hash_perceptual) = true -> truthy b.(file_hash_perceptual) = true ->
  let d := hamming_distance a.(file_hash_perceptual) b.(file_hash_perceptual) in
  let st' := fst (compare_pair a.(id) b.(id) st) in
  (d <= 5 -> exists g, g <> EmptyString /\
      get st'.(db) a.(id) = Some (set_exact (Some g) (Some "high") a) /\
      get st'.(db) b.(id) = Some (set_exact (Some g) (Some "high") b)) /\
  (6 <= d <= 20 -> exists g c t, g <> EmptyString /\
      get st'.(db) a.(id) = Some (set_similar (Some g) (Some c) (Some t) a) /\
      get st'.(db) b.(id) = Some (set_similar (Some g) (Some c) (Some t) b)) /\
  (21 <= d -> st' = st).
Proof.
  intros st a b Hab Ha Hb Hpa Hpb d st'.
  subst st'; unfold compare_pair. rewrite Ha, Hb, Hpa, Hpb. simpl.
  fold d. unfold EXACT_THRESHOLD, SIMILAR_THRESHOLD.
  destruct (d <=? 5) eqn:E5; [|destruct (d <=? 20) eqn:E20];
    [apply Z.leb_le in E5 | apply Z.leb_gt in E5; apply Z.leb_le in E20
    | apply Z.leb_gt in E5; apply Z.leb_gt in E20]; simpl.
  - split; [|split]; intros; try lia. now apply merge_exact_rows.
  - split; [|split]; intros; try lia. now apply merge_similar_rows.
  - split; [|split]; intros; try lia. reflexivity.
Qed.

Lemma compare_pair_thresholds_witness :
  exists g, g <> EmptyString /\
    get (fst (compare_pair 1 2 pair3)).(db) 1 =
      Some (set_exact (Some g) (Some "high") (phash_row 1 "0000000000000000" (Some 0))) /\
    get (fst (compare_pair 1 2 pair3)).(db) 2 =
      Some (set_exact (Some g) (Some "high") (phash_row 2 "0000000000000007" (Some 1000000))).
Proof.
  apply (proj1 (compare_pair_thresholds pair3
    (phash_row 1 "0000000000000000" (Some 0))
    (phash_row 2 "0000000000000007" (Some 1000000))
    ltac:(discriminate) eq_refl eq_refl eq_refl eq_refl)).
  vm_compute. discriminate.
Defined.

(** C2 (counterexample).  Distance 17 is not "unrelated": [analyze_cluster]
    puts the two rows in one similar group. *)
Lemma distance_17_is_similar :
  hamming_distance (Some "0000000000000000") (Some "000000000001ffff") = 17 /\
  (exists g, get (fst (analyze_cluster [1; 2] pair17)).(db) 1 <> None /\
     option_map similar_group_id (get (fst (analyze_cluster [1; 2] pair17)).(db) 1) = Some (Some g) /\
     option_map similar_group_id (get (fst (analyze_cluster [1; 2] pair17)).(db) 2) = Some (Some g)).
Proof.
  split; [vm_compute; reflexivity|].
  exists (group_id_of 0). vm_compute. split; [discriminate|split; reflexivity].
Qed.

End EngineClaims.

Module ExactGroupsFacts.
Import Perceptual Model ModelFacts ExactGroups Aux.

Lemma add_to_group_nodup : forall g h i,
  NoDup (map fst g) -> NoDup (map fst (add_to_group h i g)).
Proof.
  induction g as [|[h' l] r IH]; intros h i Hn; simpl.
  - constructor; [intros []|constructor].
  - inversion Hn as [|? ? Hnot Hr]; subst.
    destruct (String.eqb h h') eqn:E; simpl; constructor; auto.
    intros Hin. apply Hnot.
    assert (Hk : forall x, In x (map fst (add_to_group h i r)) -> x = h \/ In x (map fst r)).
    { clear. induction r as [|[a b] r IH]; simpl; intros x Hx.
      - destruct Hx as [Hx|[]]; auto.
      - destruct (String.eqb h a); simpl in *.
        + destruct Hx as [Hx|Hx]; auto.
        + destruct Hx as [Hx|Hx]; auto. destruct (IH x Hx); auto. }
    destruct (Hk _ Hin) as [->|]; [|assumption].
    apply String.eqb_neq in E. congruence.
Qed.

Lemma add_to_group_in : forall g h i h' l',
  NoDup (map fst g) ->
  In (h', l') (add_to_group h i g) <->
  (h' <> h /\ In (h', l') g) \/
  (h' = h /\ ((exists l, In (h, l) g /\ l' = l ++ [i]) \/
              (~ In h (map fst g) /\ l' = [i]))).
Proof.
  induction g as [|[k l] r IH]; intros h i h' l' Hn; simpl.
  - split.
    + intros [E|[]]; injection E as <- <-. right; split; auto.
    + intros [[_ []]|[-> [[l0 [[] _]]|[_ ->]]]]; auto.
  - inversion Hn as [|? ? Hnot Hr]; subst.
    destruct (String.eqb h k) eqn:E.
    + apply String.eqb_eq in E; subst k. simpl. split.
      * intros [E|Hin].
        -- injection E as <- <-. right; split; auto. left; eauto.
        -- left; split; [|auto]. intros ->. apply Hnot.
           exact (in_map fst _ _ Hin).
      * intros [[Hne [E|Hin]]|[-> [[l0 [[E|Hin] ->]]|[Hni _]]]].
        -- injection E as <- <-. congruence.
        -- auto.
        -- injection E as <-. auto.
        -- exfalso. apply Hnot. exact (in_map fst _ _ Hin).
        -- exfalso. apply Hni. auto.
    + apply String.eqb_neq in E. simpl. rewrite (IH h i h' l' Hr). split.
      * intros [E1|[[Hne Hin]|[-> [[l0 [Hin ->]]|[Hni ->]]]]].
        -- injection E1 as <- <-. left; split; auto.
        -- left; auto.
        -- right; split; auto. left; eauto.
        -- right; split; auto. right; split; auto. intros [X|X]; auto.
      * intros [[Hne [E1|Hin]]|[-> [[l0 [[E1|Hin] ->]]|[Hni ->]]]].
        -- left; exact E1.
        -- right; left; auto.
        -- injection E1 as E1. congruence.
        -- right; right; split; auto. left; eauto.
        -- right; right; split; auto. right; split; auto.
Qed.

Lemma sha_is_true : forall h f,
  sha_is h f = true <-> f.(file_hash_sha256) = Some h /\ truthy (Some h) = true.
Proof.
  unfold sha_is; intros h f. destruct f.(file_hash_sha256) as [h'|]; [|split; [discriminate|intros [E _]; discriminate]].
  rewrite andb_true_iff, String.eqb_eq. split.
  - intros [T ->]; auto.
  - intros [E T]; injection E as ->; auto.
Qed.

Lemma filter_app1 : forall (p : File -> bool) l f,
  filter p (l ++ [f]) = filter p l ++ (if p f then [f] else []).
Proof. intros. rewrite filter_app. simpl. destruct (p f); reflexivity. Qed.

Lemma add_to_group_keeps_key : forall g h i k,
  NoDup (map fst g) -> In k (map fst g) -> In k (map fst (add_to_group h i g)).
Proof.
  intros g h i k Hn Hk. apply in_map_iff in Hk as [[k' l] [Ek Hin]]; simpl in Ek; subst k'.
  destruct (String.eqb k h) eqn:E.
  - apply String.eqb_eq in E; subst k.
    apply (in_map fst _ (h, l ++ [i])). apply add_to_group_in; auto.
    right; split; auto. left; eauto.
  - apply String.eqb_neq in E.
    apply (in_map fst _ (k, l)). apply add_to_group_in; auto.
Qed.

Lemma add_to_group_has_key : forall g h i,
  NoDup (map fst g) -> In h (map fst (add_to_group h i g)).
Proof.
  intros g h i Hn. destruct (in_dec string_dec h (map fst g)) as [Hk|Hk].
  - now apply add_to_group_keeps_key.
  - apply (in_map fst _ (h, [i])). apply add_to_group_in; auto.
Qed.

Lemma hash_groups_inv : forall fs acc seen,
  NoDup (map fst acc) ->
  (forall h l, In (h, l) acc -> l = map id (filter (sha_is h) seen) /\ l <> []) ->
  (forall h, filter (sha_is h) seen <> [] -> In h (map fst acc)) ->
  NoDup (map fst (fold_left hg_step fs acc)) /\
  (forall h l, In (h, l) (fold_left hg_step fs acc) ->
     l = map id (filter (sha_is h) (seen ++ fs)) /\ l <> []) /\
  (forall h, filter (sha_is h) (seen ++ fs) <> [] -> In h (map fst (fold_left hg_step fs acc))).
Proof.
  induction fs as [|f fs IH]; intros acc seen H1 H2 H3.
  - rewrite app_nil_r. simpl. auto.
  - simpl. replace (seen ++ f :: fs) with ((seen ++ [f]) ++ fs)
      by (rewrite <- app_assoc; reflexivity).
    apply IH; unfold hg_step.
    + destruct f.(file_hash_sha256) as [h0|]; [destruct (truthy (Some h0))|];
        auto using add_to_group_nodup.
    + intros h l Hin.
      destruct (f.(file_hash_sha256)) as [h0|] eqn:Ef;
        [destruct (truthy (Some h0)) eqn:T|].
      * apply add_to_group_in in Hin; [|exact H1].
        rewrite filter_app1.
        destruct Hin as [[Hne Hin]|[-> [[l0 [Hin ->]]|[Hni ->]]]].
        -- destruct (H2 _ _ Hin) as [-> Hne0].
           assert (sha_is h f = false).
           { destruct (sha_is h f) eqn:S; [|reflexivity].
             apply sha_is_true in S as [S _]. congruence. }
           rewrite H, app_nil_r. auto.
        -- destruct (H2 _ _ Hin) as [-> _].
           assert (sha_is h0 f = true) by (apply sha_is_true; auto).
           rewrite H, map_app. split; [reflexivity|].
           intros E; apply app_eq_nil in E as [_ E]; discriminate.
        -- assert (filter (sha_is h0) seen = []).
           { destruct (filter (sha_is h0) seen) eqn:F; [reflexivity|].
             exfalso. apply Hni, H3. rewrite F. discriminate. }
           assert (sha_is h0 f = true) by (apply sha_is_true; auto).
           rewrite H, H0. split; [reflexivity|discriminate].
      * destruct (H2 _ _ Hin) as [-> Hne]. rewrite filter_app1.
        assert (sha_is h f = false).
        { destruct (sha_is h f) eqn:S; [|reflexivity].
          apply sha_is_true in S as [S S']. congruence. }
        rewrite H, app_nil_r. auto.
      * destruct (H2 _ _ Hin) as [-> Hne]. rewrite filter_app1.
        assert (sha_is h f = false).
        { destruct (sha_is h f) eqn:S; [|reflexivity].
          apply sha_is_true in S as [S S']. congruence. }
        rewrite H, app_nil_r. auto.
    + intros h Hf. rewrite filter_app1 in Hf.
      destruct (filter (sha_is h) seen) eqn:F.
      * simpl in Hf. destruct (sha_is h f) eqn:S; [|contradiction].
        apply sha_is_true in S as [S T]. rewrite S, T.
        now apply add_to_group_has_key.
      * assert (Hk : In h (map fst acc)) by (apply H3; rewrite F; discriminate).
        destruct f.(file_hash_sha256) as [h0|]; [destruct (truthy (Some h0))|];
          auto using add_to_group_keeps_key.
Qed.

Lemma set_exact_idem : forall g c f, set_exact g c (set_exact g c f) = set_exact g c f.
Proof. intros g c f; destruct f; reflexivity. Qed.

Lemma mark_group_map : forall h members d,
  mark_group h members d =
  map (fun f => if existsb (Z.eqb f.(id)) members
                then set_exact (Some h) (Some "high") f else f) d.
Proof.
  unfold mark_group. induction members as [|m ms IH]; intros d; simpl.
  - induction d as [|f r IHd]; simpl; f_equal; auto.
  - rewrite IH. unfold update. rewrite map_map. apply map_ext. intros f.
    destruct (f.(id) =? m) eqn:E; simpl.
    + destruct (existsb (Z.eqb f.(id)) ms); [apply set_exact_idem|reflexivity].
    + reflexivity.
Qed.

Lemma mark_map : forall gs d,
  fold_left (fun d '(h, members) =>
      if (1 <? List.length members)%nat then mark_group h members d else d) gs d =
  map (apply_groups gs) d.
Proof.
  unfold apply_groups.
  induction gs as [|[h l] gs IH]; intros d; simpl.
  - symmetry; apply map_id.
  - rewrite IH. destruct (1 <? List.length l)%nat eqn:E; simpl.
    + rewrite mark_group_map, map_map. reflexivity.
    + reflexivity.
Qed.

Lemma apply_groups_single : forall gs g hf,
  (forall h l, In (h, l) gs -> existsb (Z.eqb g.(id)) l = true -> h = hf) ->
  apply_groups gs g =
  if existsb (fun p => (1 <? List.length (snd p))%nat && existsb (Z.eqb g.(id)) (snd p)) gs
  then set_exact (Some hf) (Some "high") g else g.
Proof.
  unfold apply_groups.
  induction gs as [|[h l] gs IH]; intros g hf Hg; simpl; [reflexivity|].
  destruct ((1 <? List.length l)%nat && existsb (Z.eqb g.(id)) l) eqn:E; simpl.
  - apply andb_true_iff in E as [_ E].
    rewrite (Hg h l (or_introl eq_refl) E).
    rewrite (IH _ hf); [|intros h' l' Hin Hex; apply (Hg h' l'); [now right|exact Hex]].
    simpl. destruct (existsb _ gs); [apply set_exact_idem|reflexivity].
  - apply (IH _ hf). intros h' l' Hin Hex; apply (Hg h' l'); [now right|exact Hex].
Qed.

Lemma nodup_id_eq : forall (db : Db) a b,
  NoDup (map id db) -> In a db -> In b db -> a.(id) = b.(id) -> a = b.
Proof.
  induction db as [|f r IH]; intros a b Hn Ha Hb E; [destruct Ha|].
  inversion Hn as [|? ? Hnot Hr]; subst.
  destruct Ha as [<-|Ha], Hb as [<-|Hb]; auto.
  - exfalso; apply Hnot. rewrite E. now apply in_map.
  - exfalso; apply Hnot. rewrite <- E. now apply in_map.
Qed.

Lemma existsb_id_in : forall i (l : list File),
  existsb (Z.eqb i) (map id l) = true <-> exists g, In g l /\ g.(id) = i.
Proof.
  intros i l. rewrite existsb_exists. split.
  - intros [x [Hx E]]. apply in_map_iff in Hx as [g [<- Hg]].
    apply Z.eqb_eq in E. eauto.
  - intros [g [Hg <-]]. exists g.(id). split; [now apply in_map|apply Z.eqb_refl].
Qed.

End ExactGroupsFacts.

Module ExactGroupsClaims.
Import Perceptual Model ModelFacts ExactGroups Aux ExactGroupsFacts Samples.

Lemma hash_groups_props : forall db,
  NoDup (map fst (hash_groups db)) /\
  (forall h l, In (h, l) (hash_groups db) -> l = map id (filter (sha_is h) db) /\ l <> []) /\
  (forall h, filter (sha_is h) db <> [] -> In h (map fst (hash_groups db))).
Proof.
  intros db. change (hash_groups db) with (fold_left hg_step db []).
  apply (hash_groups_inv db [] []).
  - constructor.
  - intros h l [].
  - intros h H; exfalso; apply H; reflexivity.
Qed.

Lemma member_has_sha : forall db f h l,
  NoDup (map id db) -> In f db -> In (h, l) (hash_groups db) ->
  existsb (Z.eqb f.(id)) l = true -> sha_is h f = true.
Proof.
  intros db f h l Hn Hf Hin Hex.
  destruct (hash_groups_props db) as [_ [Hent _]].
  destruct (Hent _ _ Hin) as [-> _].
  apply existsb_id_in in Hex as [g [Hg E]].
  apply filter_In in Hg as [Hg Hs].
  now rewrite <- (nodup_id_eq db g f Hn Hg Hf E).
Qed.

(** C7 (amended).  [_mark_duplicate_groups] on a job's rows (distinct primary
    keys): a row whose non-empty sha256 [h] is shared by at least two rows
    gets [exact_group_id = h] (the content hash itself) and
    [exact_group_confidence = "high"]; every other row is left unchanged. *)
Theorem mark_duplicate_groups_spec : forall db,
  NoDup (map id db) ->
  mark_duplicate_groups db =
  map (fun f =>
         match f.(file_hash_sha256) with
         | Some h =>
             if truthy (Some h) && (1 <? List.length (filter (sha_is h) db))%nat
             then set_exact (Some h) (Some "high") f else f
         | None => f
         end) db.
Proof.
  intros db Hn. unfold mark_duplicate_groups. rewrite mark_map.
  apply map_ext_in. intros f Hf.
  destruct (hash_groups_props db) as [_ [Hent Hkey]].
  assert (Hnone : (forall h, sha_is h f = false) -> apply_groups (hash_groups db) f = f).
  { intros Hs. rewrite (apply_groups_single _ f EmptyString).
    - destruct (existsb _ _) eqn:E; [|reflexivity].
      apply existsb_exists in E as [[h l] [Hin E]]. simpl in E.
      apply andb_true_iff in E as [_ E].
      pose proof (member_has_sha db f h l Hn Hf Hin E) as X. rewrite Hs in X. discriminate.
    - intros h l Hin E.
      pose proof (member_has_sha db f h l Hn Hf Hin E) as X. rewrite Hs in X. discriminate. }
  destruct (f.(file_hash_sha256)) as [h0|] eqn:Ef;
    [destruct (truthy (Some h0)) eqn:T|].
  - rewrite (apply_groups_single _ f h0).
    + simpl.
      match goal with
      | |- (if ?a then _ else _) = (if ?b then _ else _) =>
          replace a with b; [reflexivity|symmetry]
      end.
      apply Bool.eq_true_iff_eq. rewrite existsb_exists. split.
      * intros [[h l] [Hin E]]. simpl in E. apply andb_true_iff in E as [Hl E].
        pose proof (member_has_sha db f h l Hn Hf Hin E) as S.
        apply sha_is_true in S as [S _]. rewrite Ef in S. injection S as <-.
        destruct (Hent _ _ Hin) as [-> _]. now rewrite length_map in Hl.
      * intros Hl.
        assert (S : sha_is h0 f = true) by (apply sha_is_true; auto).
        assert (Hfl : In f (filter (sha_is h0) db)) by (apply filter_In; auto).
        assert (Hk : In h0 (map fst (hash_groups db))).
        { apply Hkey. intros E; rewrite E in Hfl; destruct Hfl. }
        apply in_map_iff in Hk as [[h l] [Eh Hin]]; simpl in Eh; subst h.
        exists (h0, l). split; [exact Hin|]. simpl.
        destruct (Hent _ _ Hin) as [-> _].
        rewrite length_map, Hl. simpl.
        apply existsb_id_in. eauto.
    + intros h l Hin E. pose proof (member_has_sha db f h l Hn Hf Hin E) as S.
      apply sha_is_true in S as [S _]. congruence.
  - simpl. apply Hnone. intros h. destruct (sha_is h f) eqn:S; [|reflexivity].
    apply sha_is_true in S as [S T']. rewrite Ef in S. injection S as <-. congruence.
  - apply Hnone. intros h. destruct (sha_is h f) eqn:S; [|reflexivity].
    apply sha_is_true in S as [S _]. congruence.
Qed.

Lemma mark_duplicate_groups_spec_witness :
  mark_duplicate_groups dup_pair =
  map (fun f =>
         match f.(file_hash_sha256) with
         | Some h =>
             if truthy (Some h) && (1 <? List.length (filter (sha_is h) dup_pair))%nat
             then set_exact (Some h) (Some "high") f else f
         | None => f
         end) dup_pair.
Proof.
  apply mark_duplicate_groups_spec.
  repeat constructor; simpl; intuition discriminate.
Defined.

(** C7 (counterexample).  The id given to an exact group is the 64-character
    sha256 itself, not a 16-character random id. *)
Lemma exact_group_id_is_sha :
  option_map exact_group_id (get (mark_duplicate_groups dup_pair) 1) = Some (Some sha_e3b0) /\
  String.length sha_e3b0 = 64%nat /\ String.length sha_e3b0 <> 16%nat.
Proof. vm_compute. split; [reflexivity|split; [reflexivity|discriminate]]. Qed.

End ExactGroupsClaims.

Module ClusterFacts.
Import Perceptual Model ModelFacts Engine EngineFacts Aux ExactGroupsFacts.

Lemma get_key : forall d d' i, map key d = map key d' ->
  option_map key (get d i) = option_map key (get d' i).
Proof.
  induction d as [|f r IH]; intros [|f' r'] i H; try discriminate; [reflexivity|].
  simpl in H.
  assert (Hk : key f = key f') by congruence.
  assert (Hr : map key r = map key r') by congruence.
  unfold get; simpl.
  assert (Hid : f.(id) = f'.(id)) by (unfold key in Hk; congruence).
  rewrite Hid. destruct (f'.(id) =? i); [simpl; now rewrite Hk|].
  exact (IH r' i Hr).
Qed.

Lemma phash_ok_key : forall d d' i, map key d = map key d' -> phash_ok d i = phash_ok d' i.
Proof.
  intros d d' i H. pose proof (get_key d d' i H) as G. unfold phash_ok.
  destruct (get d i) as [a|], (get d' i) as [a'|]; simpl in G; try discriminate; [|reflexivity].
  injection G as G. unfold key in G. congruence.
Qed.

Lemma update_key : forall i g d, (forall f, key (g f) = key f) ->
  map key (update i g d) = map key d.
Proof.
  intros i g d Hg. unfold update. rewrite map_map. apply map_ext.
  intros f. destruct (f.(id) =? i); [apply Hg|reflexivity].
Qed.

Lemma merge_exact_key : forall a b d st,
  map key (merge_into_exact_group a b d st).(db) = map key st.(db).
Proof.
  intros. unfold merge_into_exact_group.
  pose proof (proj2 (reuse_or_mint_spec a.(exact_group_id) b.(exact_group_id) st)) as Hdb.
  destruct (reuse_or_mint a.(exact_group_id) b.(exact_group_id) st) as [g st1].
  simpl in *. rewrite !update_key by (intros; reflexivity). now rewrite Hdb.
Qed.

Lemma merge_similar_key : forall a b d st,
  map key (merge_into_similar_group a b d st).(db) = map key st.(db).
Proof.
  intros. unfold merge_into_similar_group.
  pose proof (proj2 (reuse_or_mint_spec a.(similar_group_id) b.(similar_group_id) st)) as Hdb.
  destruct (reuse_or_mint a.(similar_group_id) b.(similar_group_id) st) as [g st1].
  simpl in *. rewrite !update_key by (intros; reflexivity). now rewrite Hdb.
Qed.

Lemma compare_pair_key : forall i j st,
  map key (fst (compare_pair i j st)).(db) = map key st.(db).
Proof.
  intros. unfold compare_pair.
  destruct (get st.(db) i) as [a|], (get st.(db) j) as [b|]; try reflexivity.
  destruct (negb _); [reflexivity|].
  destruct (_ <=? EXACT_THRESHOLD); [apply merge_exact_key|].
  destruct (_ <=? SIMILAR_THRESHOLD); [apply merge_similar_key|reflexivity].
Qed.

Lemma compare_with_key : forall rest i st,
  map key (fst (compare_with i rest st)).(db) = map key st.(db).
Proof.
  induction rest as [|j r IH]; intros i st; [reflexivity|]. simpl.
  destruct (compare_pair i j st) as [st1 t1] eqn:E1.
  destruct (compare_with i r st1) as [st2 t2] eqn:E2. simpl.
  transitivity (map key st1.(db)).
  - pose proof (IH i st1) as H; rewrite E2 in H; exact H.
  - pose proof (compare_pair_key i j st) as H; rewrite E1 in H; exact H.
Qed.

Lemma analyze_cluster_key : forall l st,
  map key (fst (analyze_cluster l st)).(db) = map key st.(db).
Proof.
  induction l as [|i r IH]; intros st; [reflexivity|]. simpl.
  destruct (compare_with i r st) as [st1 t1] eqn:E1.
  destruct (analyze_cluster r st1) as [st2 t2] eqn:E2. simpl.
  transitivity (map key st1.(db)).
  - pose proof (IH st1) as H; rewrite E2 in H; exact H.
  - pose proof (compare_with_key r i st) as H; rewrite E1 in H; exact H.
Qed.

Lemma compare_pair_records : forall i j st,
  phash_ok st.(db) i = true -> phash_ok st.(db) j = true ->
  snd (compare_pair i j st) = [(i, j)].
Proof.
  unfold phash_ok, compare_pair; intros i j st Hi Hj.
  destruct (get st.(db) i) as [a|]; [|discriminate].
  destruct (get st.(db) j) as [b|]; [|discriminate].
  rewrite Hi, Hj. simpl.
  destruct (_ <=? EXACT_THRESHOLD); [reflexivity|].
  destruct (_ <=? SIMILAR_THRESHOLD); reflexivity.
Qed.

Lemma compare_pair_sound : forall i j st p, In p (snd (compare_pair i j st)) ->
  p = (i, j) /\ phash_ok st.(db) i = true /\ phash_ok st.(db) j = true.
Proof.
  unfold phash_ok, compare_pair; intros i j st p H.
  destruct (get st.(db) i) as [a|]; [|destruct H].
  destruct (get st.(db) j) as [b|]; [|destruct H].
  destruct (truthy a.(file_hash_perceptual)), (truthy b.(file_hash_perceptual));
    simpl in H; try contradiction;
    repeat match type of H with context [if ?c then _ else _] => destruct c end;
    simpl in H; destruct H as [<-|[]]; auto.
Qed.

Lemma compare_with_complete : forall rest i j st, In j rest ->
  phash_ok st.(db) i = true -> phash_ok st.(db) j = true ->
  In (i, j) (snd (compare_with i rest st)).
Proof.
  induction rest as [|k r IH]; intros i j st Hin Hi Hj; [destruct Hin|]. simpl.
  destruct (compare_pair i k st) as [st1 t1] eqn:E1.
  destruct (compare_with i r st1) as [st2 t2] eqn:E2. simpl. apply in_or_app.
  destruct Hin as [<-|Hin].
  - left. pose proof (compare_pair_records i k st Hi Hj) as H.
    rewrite E1 in H. simpl in H. rewrite H. now left.
  - right.
    assert (K : map key st1.(db) = map key st.(db))
      by (pose proof (compare_pair_key i k st) as H; rewrite E1 in H; exact H).
    pose proof (IH i j st1 Hin) as H. rewrite E2 in H.
    apply H; rewrite (phash_ok_key _ _ _ K); assumption.
Qed.

Lemma compare_with_sound : forall rest i st i' j,
  In (i', j) (snd (compare_with i rest st)) ->
  i' = i /\ In j rest /\ phash_ok st.(db) i = true /\ phash_ok st.(db) j = true.
Proof.
  induction rest as [|k r IH]; intros i st i' j H; [destruct H|]. simpl in H.
  destruct (compare_pair i k st) as [st1 t1] eqn:E1.
  destruct (compare_with i r st1) as [st2 t2] eqn:E2. simpl in H.
  apply in_app_or in H as [H|H].
  - pose proof (compare_pair_sound i k st (i', j)) as S. rewrite E1 in S.
    destruct (S H) as [P [Hi Hk]]. injection P as -> ->. simpl; auto.
  - assert (K : map key st1.(db) = map key st.(db))
      by (pose proof (compare_pair_key i k st) as K; rewrite E1 in K; exact K).
    pose proof (IH i st1 i' j) as S. rewrite E2 in S.
    destruct (S H) as [-> [Hj [Hi Hk]]].
    rewrite (phash_ok_key _ _ i K) in Hi; rewrite (phash_ok_key _ _ j K) in Hk. simpl; auto.
Qed.

Lemma analyze_cluster_complete : forall l i j st, before i j l ->
  phash_ok st.(db) i = true -> phash_ok st.(db) j = true ->
  In (i, j) (snd (analyze_cluster l st)).
Proof.
  induction l as [|k r IH]; intros i j st [l1 [l2 [l3 Hl]]] Hi Hj.
  - destruct l1; discriminate.
  - simpl.
    destruct (compare_with k r st) as [st1 t1] eqn:E1.
    destruct (analyze_cluster r st1) as [st2 t2] eqn:E2. simpl. apply in_or_app.
    destruct l1 as [|x l1]; simpl in Hl; injection Hl as Hk Hr; subst k.
    + left. pose proof (compare_with_complete r i j st) as H. rewrite E1 in H.
      apply H; auto. rewrite Hr. apply in_or_app; right; now left.
    + right.
      assert (K : map key st1.(db) = map key st.(db))
        by (pose proof (compare_with_key r x st) as K; rewrite E1 in K; exact K).
      pose proof (IH i j st1) as H. rewrite E2 in H. apply H.
      * exists l1, l2, l3; exact Hr.
      * now rewrite (phash_ok_key _ _ _ K).
      * now rewrite (phash_ok_key _ _ _ K).
Qed.

Lemma analyze_cluster_sound : forall l st i j,
  In (i, j) (snd (analyze_cluster l st)) ->
  In i l /\ In j l /\ phash_ok st.(db) i = true /\ phash_ok st.(db) j = true.
Proof.
  induction l as [|k r IH]; intros st i j H; [destruct H|]. simpl in H.
  destruct (compare_with k r st) as [st1 t1] eqn:E1.
  destruct (analyze_cluster r st1) as [st2 t2] eqn:E2. simpl in H.
  apply in_app_or in H as [H|H].
  - pose proof (compare_with_sound r k st i j) as S. rewrite E1 in S.
    destruct (S H) as [-> [Hj [Hi Hk]]]. simpl; auto.
  - assert (K : map key st1.(db) = map key st.(db))
      by (pose proof (compare_with_key r k st) as K; rewrite E1 in K; exact K).
    pose proof (IH st1 i j) as S. rewrite E2 in S.
    destruct (S H) as [Hi [Hj [Oi Oj]]].
    rewrite (phash_ok_key _ _ i K) in Oi; rewrite (phash_ok_key _ _ j K) in Oj. simpl; auto.
Qed.

Lemma analyze_clusters_complete : forall cs c i j st, In c cs ->
  before i j (map id c) ->
  phash_ok st.(db) i = true -> phash_ok st.(db) j = true ->
  In (i, j) (snd (analyze_clusters cs st)).
Proof.
  induction cs as [|c0 cs IH]; intros c i j st Hc Hb Hi Hj; [destruct Hc|]. simpl.
  destruct (analyze_cluster (map id c0) st) as [st1 t1] eqn:E1.
  destruct (analyze_clusters cs st1) as [st2 t2] eqn:E2. simpl. apply in_or_app.
  destruct Hc as [<-|Hc].
  - left. pose proof (analyze_cluster_complete (map id c0) i j st Hb Hi Hj) as H.
    rewrite E1 in H. exact H.
  - right.
    assert (K : map key st1.(db) = map key st.(db))
      by (pose proof (analyze_cluster_key (map id c0) st) as K; rewrite E1 in K; exact K).
    pose proof (IH c i j st1 Hc Hb) as H. rewrite E2 in H.
    apply H; now rewrite (phash_ok_key _ _ _ K).
Qed.

Lemma analyze_clusters_sound : forall cs st i j,
  In (i, j) (snd (analyze_clusters cs st)) ->
  exists c, In c cs /\ In i (map id c) /\ In j (map id c) /\
    phash_ok st.(db) i = true /\ phash_ok st.(db) j = true.
Proof.
  induction cs as [|c0 cs IH]; intros st i j H; [destruct H|]. simpl in H.
  destruct (analyze_cluster (map id c0) st) as [st1 t1] eqn:E1.
  destruct (analyze_clusters cs st1) as [st2 t2] eqn:E2. simpl in H.
  apply in_app_or in H as [H|H].
  - pose proof (analyze_cluster_sound (map id c0) st i j) as S. rewrite E1 in S.
    destruct (S H) as [Hi [Hj [Oi Oj]]]. exists c0. simpl; auto.
  - assert (K : map key st1.(db) = map key st.(db))
      by (pose proof (analyze_cluster_key (map id c0) st) as K; rewrite E1 in K; exact K).
    pose proof (IH st1 i j) as S. rewrite E2 in S.
    destruct (S H) as [c [Hc [Hi [Hj [Oi Oj]]]]].
    rewrite (phash_ok_key _ _ i K) in Oi; rewrite (phash_ok_key _ _ j K) in Oj. exists c. simpl; auto.
Qed.

Lemma before_total : forall {A : Type} (x y : A) l, In x l -> In y l -> x <> y ->
  before x y l \/ before y x l.
Proof.
  intros A x y l; induction l as [|a r IH]; intros Hx Hy Hxy; [destruct Hx|].
  destruct Hx as [<-|Hx], Hy as [<-|Hy].
  - contradiction.
  - left. apply in_split in Hy as [l2 [l3 ->]]. exists [], l2, l3. reflexivity.
  - right. apply in_split in Hx as [l2 [l3 ->]]. exists [], l2, l3. reflexivity.
  - destruct (IH Hx Hy Hxy) as [[l1 [l2 [l3 ->]]]|[l1 [l2 [l3 ->]]]];
      [left|right]; exists (a :: l1), l2, l3; reflexivity.
Qed.

Lemma insert_perm : forall f l, Permutation (f :: l) (insert_by_ts f l).
Proof.
  intros f l; induction l as [|g r IH]; simpl; [reflexivity|].
  destruct (ts_key f <=? ts_key g); [reflexivity|].
  eapply perm_trans; [apply perm_swap|]. now apply perm_skip.
Qed.

Lemma sort_perm : forall l, Permutation l (sort_by_ts l).
Proof.
  induction l as [|f r IH]; simpl; [reflexivity|].
  eapply perm_trans; [apply perm_skip, IH|apply insert_perm].
Qed.

Lemma ts_le_trans : Relations_1.Transitive ts_le.
Proof. unfold ts_le; intros x y z; lia. Qed.

Lemma insert_hd : forall f a l, ts_le a f -> HdRel ts_le a l ->
  HdRel ts_le a (insert_by_ts f l).
Proof.
  intros f a [|g r] Ha Hl; simpl; [now constructor|].
  destruct (ts_key f <=? ts_key g); constructor; [exact Ha|].
  now inversion Hl.
Qed.

Lemma insert_sorted : forall f l, Sorted ts_le l -> Sorted ts_le (insert_by_ts f l).
Proof.
  intros f l; induction l as [|g r IH]; simpl; intros H; [now repeat constructor|].
  destruct (ts_key f <=? ts_key g) eqn:E.
  - apply Z.leb_le in E. constructor; [exact H|]. constructor. unfold ts_le; lia.
  - apply Z.leb_gt in E. apply Sorted_inv in H as [Hr Hh].
    constructor; [now apply IH|]. apply insert_hd; [unfold ts_le; lia|exact Hh].
Qed.

Lemma sort_sorted : forall l, StronglySorted ts_le (sort_by_ts l).
Proof.
  intros l. apply Sorted_StronglySorted; [exact ts_le_trans|].
  induction l as [|f r IH]; simpl; [constructor|]. now apply insert_sorted.
Qed.

Lemma ss_app_inv : forall (A B : list File), StronglySorted ts_le (A ++ B) ->
  StronglySorted ts_le A /\ StronglySorted ts_le B /\
  (forall a b, In a A -> In b B -> ts_le a b).
Proof.
  induction A as [|x A IH]; intros B H; simpl in H.
  - split; [constructor|split; [exact H|intros ? ? []]].
  - apply StronglySorted_inv in H as [Hs Hf].
    destruct (IH B Hs) as [HA [HB Hx]]. rewrite Forall_app in Hf. destruct Hf as [FA FB].
    split; [now constructor|split; [exact HB|]].
    intros a b [<-|Ha] Hb; [|now apply Hx].
    rewrite Forall_forall in FB. now apply FB.
Qed.

Lemma last_in : forall (l : list File) d, l <> [] -> In (last l d) l.
Proof.
  induction l as [|b r IH]; intros d H; [contradiction|].
  destruct r as [|c r']; [now left|].
  right. apply IH. discriminate.
Qed.

Lemma ss_last : forall l a d, StronglySorted ts_le l -> In a l -> ts_le a (last l d).
Proof.
  induction l as [|b r IH]; intros a d H Ha; [destruct Ha|].
  apply StronglySorted_inv in H as [Hs Hf].
  destruct r as [|c r'].
  - destruct Ha as [<-|[]]. unfold ts_le; simpl; lia.
  - change (last (b :: c :: r') d) with (last (c :: r') d).
    destruct Ha as [<-|Ha]; [|now apply IH].
    rewrite Forall_forall in Hf. apply Hf. apply last_in. discriminate.
Qed.

Lemma two_in : forall (l : list File) x y, In x l -> In y l -> x <> y ->
  (2 <= List.length l)%nat.
Proof.
  intros [|a [|b r]] x y Hx Hy Hxy; simpl in *.
  - contradiction.
  - destruct Hx as [<-|[]], Hy as [<-|[]]. contradiction.
  - lia.
Qed.

Lemma scan_together : forall T rest cur x y, cur <> [] ->
  StronglySorted ts_le (cur ++ rest) -> In x (cur ++ rest) -> In y (cur ++ rest) ->
  x <> y -> Z.abs (ts_key x - ts_key y) <= T * SECOND ->
  exists c, In c (scan T cur rest) /\ In x c /\ In y c.
Proof.
  intros T rest; induction rest as [|f r IH]; intros cur x y Hne Hs Hx Hy Hxy Hd.
  - rewrite app_nil_r in Hx, Hy. cbn [scan].
    pose proof (two_in cur x y Hx Hy Hxy) as H2. apply Nat.leb_le in H2. rewrite H2.
    exists cur; simpl; auto.
  - cbn [scan]. destruct (ts_key f - ts_key (last cur f) <=? T * SECOND) eqn:Eg.
    + apply IH; try assumption; try (rewrite <- app_assoc; assumption).
      intro E. destruct cur; discriminate E.
    + apply Z.leb_gt in Eg.
      destruct (ss_app_inv cur (f :: r) Hs) as [Hc [Hr Hx2]].
      assert (Hl : ts_le (last cur f) f) by (apply Hx2; [now apply last_in|now left]).
      assert (Hfr : forall z, In z (f :: r) -> ts_le f z).
      { intros z [<-|Hz]; [unfold ts_le; lia|].
        apply StronglySorted_inv in Hr as [_ Hf]. rewrite Forall_forall in Hf. now apply Hf. }
      apply in_app_or in Hx as [Hx|Hx]; apply in_app_or in Hy as [Hy|Hy].
      * pose proof (two_in cur x y Hx Hy Hxy) as H2. apply Nat.leb_le in H2. rewrite H2.
        exists cur; simpl; auto.
      * pose proof (ss_last cur x f Hc Hx). pose proof (Hfr y Hy).
        unfold ts_le in *. lia.
      * pose proof (ss_last cur y f Hc Hy). pose proof (Hfr x Hx).
        unfold ts_le in *. lia.
      * destruct (IH [f] x y) as [c [Hin [Hxc Hyc]]]; try assumption; try discriminate.
        destruct (2 <=? List.length cur)%nat; exists c; simpl; auto.
Qed.

Lemma cluster_together : forall d T a b ta tb, In a d -> In b d -> a <> b ->
  a.(detected_timestamp) = Some ta -> b.(detected_timestamp) = Some tb ->
  Z.abs (ta - tb) <= T * SECOND ->
  exists c, In c (cluster_by_timestamp d T) /\ In a c /\ In b c.
Proof.
  intros d T a b ta tb Ha Hb Hab Ta Tb Hd. unfold cluster_by_timestamp.
  set (p := fun f : File => match f.(detected_timestamp) with Some _ => true | None => false end).
  assert (Fa : In a (filter p d)) by (apply filter_In; unfold p; now rewrite Ta).
  assert (Fb : In b (filter p d)) by (apply filter_In; unfold p; now rewrite Tb).
  pose proof (two_in _ _ _ Fa Fb Hab) as H2.
  destruct (List.length (filter p d) <? 2)%nat eqn:E; [apply Nat.ltb_lt in E; lia|].
  pose proof (sort_perm (filter p d)) as P. pose proof (sort_sorted (filter p d)) as S.
  assert (Sa : In a (sort_by_ts (filter p d))) by (eapply Permutation_in; eauto).
  assert (Sb : In b (sort_by_ts (filter p d))) by (eapply Permutation_in; eauto).
  destruct (sort_by_ts (filter p d)) as [|f0 r]; [destruct Sa|].
  apply (scan_together T r [f0] a b); try assumption; try discriminate.
  unfold ts_key. rewrite Ta, Tb. exact Hd.
Qed.

Lemma scan_members : forall T rest cur c f, In c (scan T cur rest) -> In f c ->
  In f (cur ++ rest).
Proof.
  intros T rest; induction rest as [|g r IH]; intros cur c f Hc Hf; cbn [scan] in Hc.
  - rewrite app_nil_r. destruct (2 <=? List.length cur)%nat; [|destruct Hc].
    destruct Hc as [<-|[]]; exact Hf.
  - destruct (ts_key g - ts_key (last cur g) <=? T * SECOND).
    + pose proof (IH _ _ _ Hc Hf) as H. rewrite <- app_assoc in H. exact H.
    + assert (G : forall c', In c' (scan T [g] r) -> In f c' -> In f (cur ++ g :: r)).
      { intros c' H1 H2. apply in_or_app; right. exact (IH [g] c' f H1 H2). }
      destruct (2 <=? List.length cur)%nat; [destruct Hc as [<-|Hc]|];
        [apply in_or_app; now left|now apply (G c)|now apply (G c)].
Qed.

Lemma cluster_members : forall d T c f, In c (cluster_by_timestamp d T) -> In f c ->
  In f d /\ f.(detected_timestamp) <> None.
Proof.
  intros d T c f Hc Hf. unfold cluster_by_timestamp in Hc.
  set (p := fun f : File => match f.(detected_timestamp) with Some _ => true | None => false end)
    in Hc.
  assert (H : In f (filter p d)).
  { destruct (List.length (filter p d) <? 2)%nat; [destruct Hc|].
    pose proof (sort_perm (filter p d)) as P.
    destruct (sort_by_ts (filter p d)) as [|f0 r]; [destruct Hc|].
    apply Permutation_sym in P. eapply Permutation_in; [exact P|].
    exact (scan_members T r [f0] c f Hc Hf). }
  apply filter_In in H as [H1 H2]. split; [exact H1|].
  unfold p in H2. destruct (f.(detected_timestamp)); [discriminate|discriminate].
Qed.

Lemma nodup_app_both : forall (A : Type) (l1 l2 : list A) x,
  NoDup (l1 ++ l2) -> In x l1 -> In x l2 -> False.
Proof.
  intros A l1; induction l1 as [|y r IH]; intros l2 x H H1 H2; [destruct H1|].
  simpl in H. inversion H as [|? ? Hy Hr]; subst.
  destruct H1 as [<-|H1].
  - apply Hy, in_or_app. right; exact H2.
  - exact (IH l2 x Hr H1 H2).
Qed.

Lemma scan_nodup : forall T rest cur, NoDup (cur ++ rest) -> NoDup (List.concat (scan T cur rest)).
Proof.
  intros T rest; induction rest as [|g r IH]; intros cur Hn; cbn [scan].
  - rewrite app_nil_r in Hn. destruct (2 <=? List.length cur)%nat; simpl;
      [rewrite app_nil_r; exact Hn|constructor].
  - destruct (ts_key g - ts_key (last cur g) <=? T * SECOND).
    + apply IH. rewrite <- app_assoc. exact Hn.
    + assert (Hg : NoDup (List.concat (scan T [g] r))).
      { apply IH. exact (NoDup_app_remove_l _ _ Hn). }
      destruct (2 <=? List.length cur)%nat; [|exact Hg].
      simpl. apply NoDup_app; [exact (NoDup_app_remove_r _ _ Hn)|exact Hg|].
      intros x Hx Hx'. apply in_concat in Hx' as [c [Hc Hxc]].
      pose proof (scan_members T r [g] c x Hc Hxc) as Hm.
      exact (nodup_app_both _ _ _ x Hn Hx Hm).
Qed.

Lemma cluster_nodup : forall d T, NoDup (map id d) -> NoDup (List.concat (cluster_by_timestamp d T)).
Proof.
  intros d T Hn. apply NoDup_map_inv in Hn. unfold cluster_by_timestamp.
  set (p := fun f : File => match f.(detected_timestamp) with Some _ => true | None => false end).
  destruct (List.length (filter p d) <? 2)%nat; [constructor|].
  pose proof (sort_perm (filter p d)) as P.
  assert (Hs : NoDup (sort_by_ts (filter p d))).
  { eapply Permutation_NoDup; [exact P|]. apply NoDup_filter, Hn. }
  destruct (sort_by_ts (filter p d)) as [|f0 r]; [constructor|].
  apply scan_nodup. exact Hs.
Qed.

Lemma concat_nodup_unique : forall (A : Type) (cs : list (list A)) c1 c2 x,
  NoDup (List.concat cs) -> In c1 cs -> In c2 cs -> In x c1 -> In x c2 -> c1 = c2.
Proof.
  intros A cs; induction cs as [|c r IH]; intros c1 c2 x Hn H1 H2 X1 X2; [destruct H1|].
  simpl in Hn. destruct H1 as [<-|H1], H2 as [<-|H2]; [reflexivity| | |].
  - exfalso. apply (nodup_app_both _ _ _ x Hn X1). apply in_concat. exists c2; auto.
  - exfalso. apply (nodup_app_both _ _ _ x Hn X2). apply in_concat. exists c1; auto.
  - exact (IH c1 c2 x (NoDup_app_remove_l _ _ Hn) H1 H2 X1 X2).
Qed.

Lemma get_nodup : forall d a, NoDup (map id d) -> In a d -> get d a.(id) = Some a.
Proof.
  intros d a Hn Ha. unfold get.
  destruct (find (fun f => f.(id) =? a.(id)) d) as [f|] eqn:E.
  - apply find_some in E as [Hin Hid]. apply Z.eqb_eq in Hid.
    f_equal. exact (nodup_id_eq d f a Hn Hin Ha Hid).
  - exfalso. pose proof (find_none _ _ E a Ha) as H. simpl in H.
    rewrite Z.eqb_refl in H. discriminate.
Qed.

Lemma detect_is_analyze : forall T st,
  detect_perceptual_duplicates T st = analyze_clusters (cluster_by_timestamp st.(db) T) st.
Proof.
  intros T st. unfold detect_perceptual_duplicates.
  destruct (cluster_by_timestamp st.(db) T); reflexivity.
Qed.

End ClusterFacts.

Module ClusterClaims.
Import Perceptual Model ModelFacts Engine Aux ExactGroupsFacts ClusterFacts Samples.

(** C4 (amended).  Over a job whose rows have distinct ids,
    [detect_perceptual_duplicates] computes the Hamming distance of a pair
    only when both rows have a detected timestamp and a non-empty perceptual
    hash and lie in the same timestamp cluster, the only cluster holding
    either of them (so rows of different clusters are never compared); and
    it computes it, in one of the two orders, for every pair of
    distinct rows with non-empty perceptual hashes whose detected timestamps
    are at most [threshold_seconds] apart. *)
Theorem detect_perceptual_duplicates_pairs : forall st T,
  NoDup (map id st.(db)) ->
  let pairs := snd (detect_perceptual_duplicates T st) in
  (forall i j, In (i, j) pairs ->
     exists a b, get st.(db) i = Some a /\ get st.(db) j = Some b /\
       truthy a.(file_hash_perceptual) = true /\ truthy b.(file_hash_perceptual) = true /\
       a.(detected_timestamp) <> None /\ b.(detected_timestamp) <> None /\
       exists c, In c (cluster_by_timestamp st.(db) T) /\ In a c /\ In b c /\
         (forall c', In c' (cluster_by_timestamp st.(db) T) -> In a c' \/ In b c' -> c' = c)) /\
  (forall a b ta tb, In a st.(db) -> In b st.(db) -> a.(id) <> b.(id) ->
     truthy a.(file_hash_perceptual) = true -> truthy b.(file_hash_perceptual) = true ->
     a.(detected_timestamp) = Some ta -> b.(detected_timestamp) = Some tb ->
     Z.abs (ta - tb) <= T * SECOND ->
     In (a.(id), b.(id)) pairs \/ In (b.(id), a.(id)) pairs).
Proof.
  intros st T Hn pairs. subst pairs. rewrite detect_is_analyze. split.
  - intros i j H.
    destruct (analyze_clusters_sound _ st i j H) as [c [Hc [Hi [Hj [Oi Oj]]]]].
    apply in_map_iff in Hi as [fa [Ea Ha]]. apply in_map_iff in Hj as [fb [Eb Hb]].
    destruct (cluster_members _ _ _ _ Hc Ha) as [Da Ta].
    destruct (cluster_members _ _ _ _ Hc Hb) as [Db Tb].
    exists fa, fb. rewrite <- Ea, <- Eb.
    rewrite <- Ea in Oi; rewrite <- Eb in Oj. unfold phash_ok in Oi, Oj.
    rewrite (get_nodup _ _ Hn Da) in Oi |- *. rewrite (get_nodup _ _ Hn Db) in Oj |- *.
    do 6 (split; [first [reflexivity|assumption]|]).
    exists c. split; [exact Hc|split; [exact Ha|split; [exact Hb|]]].
    intros c' Hc' [H'|H'].
    + exact (concat_nodup_unique _ _ c' c fa (cluster_nodup _ T Hn) Hc' Hc H' Ha).
    + exact (concat_nodup_unique _ _ c' c fb (cluster_nodup _ T Hn) Hc' Hc H' Hb).
  - intros a b ta tb Ha Hb Hab Pa Pb Ta Tb Hd.
    assert (Hne : a <> b) by (intros ->; contradiction).
    destruct (cluster_together _ T a b ta tb Ha Hb Hne Ta Tb Hd) as [c [Hc [Hac Hbc]]].
    assert (Oa : phash_ok st.(db) a.(id) = true)
      by (unfold phash_ok; now rewrite (get_nodup _ _ Hn Ha)).
    assert (Ob : phash_ok st.(db) b.(id) = true)
      by (unfold phash_ok; now rewrite (get_nodup _ _ Hn Hb)).
    destruct (before_total a.(id) b.(id) (map id c) (in_map id c a Hac) (in_map id c b Hbc) Hab)
      as [Hbf|Hbf]; [left|right]; eapply analyze_clusters_complete; eauto.
Qed.

Lemma detect_perceptual_duplicates_pairs_witness :
  NoDup (map id pair3.(db)) /\
  (In (1, 2) (snd (detect_perceptual_duplicates CLUSTER_WINDOW_SECONDS pair3)) \/
   In (2, 1) (snd (detect_perceptual_duplicates CLUSTER_WINDOW_SECONDS pair3))).
Proof.
  assert (Hn : NoDup (map id pair3.(db))).
  { simpl. constructor; [simpl; intros [H|[]]; discriminate|].
    constructor; [intros []|constructor]. }
  split; [exact Hn|].
  exact (proj2 (detect_perceptual_duplicates_pairs pair3 CLUSTER_WINDOW_SECONDS Hn)
    (phash_row 1 "0000000000000000" (Some 0)) (phash_row 2 "0000000000000007" (Some 1000000))
    0 1000000 (or_introl eq_refl) (or_intror (or_introl eq_refl)) ltac:(discriminate)
    eq_refl eq_refl eq_refl eq_refl ltac:(vm_compute; discriminate)).
Defined.

(** C4 (counterexample).  Two rows with identical perceptual hashes taken
    100 seconds apart fall in different timestamp clusters: their distance
    (0) is never computed and no pair at all is compared. *)
Lemma far_identical_hashes_not_compared :
  hamming_distance (Some "0000000000000000") (Some "0000000000000000") = 0 /\
  snd (detect_perceptual_duplicates CLUSTER_WINDOW_SECONDS far_pair) = [] /\
  fst (detect_perceptual_duplicates CLUSTER_WINDOW_SECONDS far_pair) = far_pair.
Proof. vm_compute. split; [reflexivity|split; reflexivity]. Qed.

End ClusterClaims.

Module ConfidenceFacts.
Import Confidence ConfAux.

Lemma insert_dt_perm : forall c l, Permutation (c :: l) (insert_by_dt c l).
Proof.
  intros c l; induction l as [|d r IH]; simpl; [reflexivity|].
  destruct (instant (fst c) <=? instant (fst d)); [reflexivity|].
  eapply perm_trans; [apply perm_swap|]. now apply perm_skip.
Qed.

Lemma sort_dt_perm : forall l, Permutation l (sort_by_dt l).
Proof.
  induction l as [|c r IH]; simpl; [reflexivity|].
  eapply perm_trans; [apply perm_skip, IH|apply insert_dt_perm].
Qed.

Lemma filter_perm_length : forall {A : Type} (p : A -> bool) l l', Permutation l l' ->
  List.length (filter p l) = List.length (filter p l').
Proof.
  intros A p l l' H; induction H; simpl.
  - reflexivity.
  - destruct (p x); simpl; congruence.
  - destruct (p x), (p y); reflexivity.
  - congruence.
Qed.

Lemma sort_head_min : forall l, l <> [] ->
  exists c rest, sort_by_dt l = c :: rest /\
    forall c', In c' l -> instant (fst c) <= instant (fst c').
Proof.
  induction l as [|a r IH]; intros H; [contradiction|]. simpl.
  destruct r as [|b r'].
  - exists a, []. split; [reflexivity|]. intros c' [<-|[]]. lia.
  - destruct (IH ltac:(discriminate)) as [c [rest [Hs Hm]]]. rewrite Hs. simpl.
    destruct (instant (fst a) <=? instant (fst c)) eqn:E.
    + apply Z.leb_le in E. exists a, (c :: rest). split; [reflexivity|].
      intros c' [<-|Hc']; [lia|]. specialize (Hm c' Hc'). lia.
    + apply Z.leb_gt in E. exists c, (insert_by_dt a rest). split; [reflexivity|].
      intros c' [<-|Hc']; [lia|]. now apply Hm.
Qed.

Lemma sort_head_first : forall l1 c l2,
  Forall (fun x => instant (fst c) < instant (fst x)) l1 ->
  Forall (fun x => instant (fst c) <= instant (fst x)) l2 ->
  exists rest, sort_by_dt (l1 ++ c :: l2) = c :: rest.
Proof.
  induction l1 as [|a l1 IH]; intros c l2 H1 H2; simpl.
  - destruct (sort_by_dt l2) as [|d rest] eqn:Es; simpl; [now exists []|].
    assert (Hd : In d l2).
    { apply (Permutation_in d (Permutation_sym (sort_dt_perm l2))). rewrite Es. now left. }
    rewrite Forall_forall in H2. specialize (H2 d Hd). apply Z.leb_le in H2. rewrite H2.
    now exists (d :: rest).
  - inversion H1 as [|? ? Ha H1']; subst.
    destruct (IH c l2 H1' H2) as [rest Hs]. rewrite Hs. simpl.
    destruct (instant (fst a) <=? instant (fst c)) eqn:E; [apply Z.leb_le in E; lia|].
    now exists (insert_by_dt a rest).
Qed.

Lemma calc_nonempty : forall cands min_year v vs,
  filter (is_valid min_year) cands = v :: vs ->
  exists sdt ssrc rest, sort_by_dt (v :: vs) = (sdt, ssrc) :: rest /\
    calculate_confidence cands min_year =
      (Some sdt, level_of (weight ssrc) (List.length (filter (agree sdt) (v :: vs))), cands).
Proof.
  intros [|x xs] min_year v vs H; [discriminate|].
  unfold calculate_confidence. rewrite H.
  destruct (sort_by_dt (v :: vs)) as [|[sdt ssrc] rest] eqn:Es.
  - pose proof (Permutation_length (sort_dt_perm (v :: vs))) as L. rewrite Es in L. discriminate.
  - exists sdt, ssrc, rest. split; [reflexivity|].
    rewrite (filter_perm_length (agree sdt) _ _ (sort_dt_perm (v :: vs))), Es. reflexivity.
Qed.

Lemma level_of_spec : forall w k,
  (level_of w k = HIGH <-> 8 <= w /\ (1 < k)%nat) /\
  (level_of w k = MEDIUM <-> ~ (8 <= w /\ (1 < k)%nat) /\ (5 <= w \/ (1 < k)%nat)) /\
  (level_of w k = LOW <-> ~ (5 <= w \/ (1 < k)%nat)) /\
  level_of w k <> NONE.
Proof.
  intros w k. unfold level_of.
  destruct (Z.leb_spec 8 w), (Z.leb_spec 5 w), (Nat.ltb_spec 1 k); simpl;
    repeat split; intros; try discriminate; try lia; intuition lia.
Qed.

Lemma find_first_tied : forall cands min_year l1 c l2,
  filter (is_valid min_year) cands = l1 ++ c :: l2 ->
  Forall (fun x => instant (fst c) < instant (fst x)) l1 ->
  Forall (fun x => is_valid min_year x = true \/ instant (fst x) <> instant (fst c)) cands ->
  find (fun x => instant (fst x) =? instant (fst c)) cands = Some c.
Proof.
  induction cands as [|x xs IH]; intros min_year l1 c l2 H H1 Hv.
  - destruct l1; discriminate.
  - inversion Hv as [|? ? Hx Hxs]; subst. simpl in H |- *.
    destruct (is_valid min_year x) eqn:Vx.
    + destruct l1 as [|y l1]; simpl in H; injection H as Hxy Hr.
      * subst x. now rewrite Z.eqb_refl.
      * subst y. inversion H1 as [|? ? Hy H1']; subst.
        destruct (instant (fst x) =? instant (fst c)) eqn:E; [apply Z.eqb_eq in E; lia|].
        exact (IH min_year l1 c l2 Hr H1' Hxs).
    + destruct Hx as [Hx|Hx]; [congruence|].
      destruct (instant (fst x) =? instant (fst c)) eqn:E; [apply Z.eqb_eq in E; lia|].
      exact (IH min_year l1 c l2 H H1 Hxs).
Qed.

End ConfidenceFacts.

Module ConfidenceClaims.
Import Confidence ConfAux ConfidenceFacts ConfSamples.

(** C3.  Let [valid] be the candidates whose year is at least [min_year]
    (2000 by default).  [calculate_confidence] returns the candidates it was
    given; it selects no timestamp and returns NONE exactly when [valid] is
    empty; otherwise the selected instant is that of a candidate of [valid]
    with the earliest instant, and with [w] the weight of that candidate's
    source and [k] the number of candidates of [valid] within 30 seconds of
    it, the level is HIGH iff [w >= 8] and [k > 1], MEDIUM iff not HIGH and
    ([w >= 5] or [k > 1]), and LOW otherwise. *)
Theorem calculate_confidence_levels : forall cands min_year selected conf all,
  calculate_confidence cands min_year = (selected, conf, all) ->
  let valid := filter (is_valid min_year) cands in
  all = cands /\
  (valid = [] <-> selected = None) /\
  (valid = [] <-> conf = NONE) /\
  (forall s, selected = Some s ->
     exists src, In (s, src) valid /\
       (forall c, In c valid -> instant s <= instant (fst c)) /\
       let w := weight src in
       let k := List.length
         (filter (fun c => Z.abs (instant (fst c) - instant s) <=? 30 * 1000000) valid) in
       (conf = HIGH <-> 8 <= w /\ (1 < k)%nat) /\
       (conf = MEDIUM <-> ~ (8 <= w /\ (1 < k)%nat) /\ (5 <= w \/ (1 < k)%nat)) /\
       (conf = LOW <-> ~ (5 <= w \/ (1 < k)%nat))).
Proof.
  intros cands min_year selected conf all Hc valid. subst valid.
  destruct (filter (is_valid min_year) cands) as [|v vs] eqn:Ev.
  - assert (Hr : calculate_confidence cands min_year = (None, NONE, cands)).
    { destruct cands as [|x xs]; [reflexivity|]. unfold calculate_confidence. now rewrite Ev. }
    rewrite Hr in Hc. injection Hc as <- <- <-.
    split; [reflexivity|]. split; [tauto|]. split; [tauto|]. discriminate.
  - destruct (calc_nonempty cands min_year v vs Ev) as [sdt [ssrc [rest [Hs Hr]]]].
    rewrite Hr in Hc. injection Hc as <- <- <-.
    destruct (level_of_spec (weight ssrc) (List.length (filter (agree sdt) (v :: vs))))
      as [LH [LM [LL LN]]].
    split; [reflexivity|]. split; [split; discriminate|]. split; [split; [discriminate|tauto]|].
    intros s Hs'. injection Hs' as <-. exists ssrc.
    destruct (sort_head_min (v :: vs) ltac:(discriminate)) as [c [rest' [Hs2 Hm]]].
    rewrite Hs in Hs2. injection Hs2 as <- _.
    split; [|split; [exact Hm|exact (conj LH (conj LM LL))]].
    apply (Permutation_in _ (Permutation_sym (sort_dt_perm (v :: vs)))). rewrite Hs. now left.
Qed.

Lemma calculate_confidence_levels_witness :
  calculate_confidence doc_example 2000 = (Some (mkDT 2024 t0), HIGH, doc_example) /\
  (HIGH = HIGH <-> 8 <= weight "EXIF:DateTimeOriginal" /\ (1 < 2)%nat).
Proof.
  assert (E : calculate_confidence doc_example 2000 = (Some (mkDT 2024 t0), HIGH, doc_example))
    by (vm_compute; reflexivity).
  split; [exact E|].
  destruct (proj2 (proj2 (proj2 (calculate_confidence_levels doc_example 2000 _ _ _ E)))
    (mkDT 2024 t0) eq_refl) as [src [Hin [_ [LH _]]]].
  simpl in Hin. destruct Hin as [Hin|[Hin|[]]]; injection Hin as Hin; subst src;
    [exact LH|vm_compute in Hin; discriminate].
Defined.

(** C8 (amended).  When several surviving candidates share the earliest
    instant, the first of them in input order is chosen: its instant is
    selected, its source's weight decides the level, and [timestamp_source]
    is its source (provided no candidate dropped by the year filter reports
    that same instant earlier in the list). *)
Theorem earliest_tie_input_order : forall cands min_year l1 c l2,
  filter (is_valid min_year) cands = l1 ++ c :: l2 ->
  Forall (fun x => instant (fst c) < instant (fst x)) l1 ->
  Forall (fun x => instant (fst c) <= instant (fst x)) l2 ->
  Forall (fun x => is_valid min_year x = true \/ instant (fst x) <> instant (fst c)) cands ->
  let r := calculate_confidence cands min_year in
  fst (fst r) = Some (fst c) /\
  snd (fst r) = level_of (weight (snd c))
    (List.length (filter (agree (fst c)) (filter (is_valid min_year) cands))) /\
  timestamp_source cands (fst (fst r)) = snd c.
Proof.
  intros cands min_year l1 c l2 H H1 H2 Hv r. subst r.
  pose proof (find_first_tied cands min_year l1 c l2 H H1 Hv) as F.
  destruct (sort_head_first l1 c l2 H1 H2) as [rest Hs].
  destruct (l1 ++ c :: l2) as [|v vs] eqn:El; [destruct l1; discriminate|].
  destruct (calc_nonempty cands min_year v vs H) as [sdt [ssrc [rest' [Hs' Hr]]]].
  rewrite Hs in Hs'. injection Hs' as Ec _. subst c.
  rewrite Hr, H. unfold timestamp_source. simpl in F |- *. rewrite F.
  split; [reflexivity|split; reflexivity].
Qed.

Lemma earliest_tie_input_order_witness :
  fst (fst (calculate_confidence tie_pair 2000)) = Some (mkDT 2024 t0) /\
  timestamp_source tie_pair (fst (fst (calculate_confidence tie_pair 2000))) = "filename_date".
Proof.
  destruct (earliest_tie_input_order tie_pair 2000 [] (mkDT 2024 t0, "filename_date")
    [(mkDT 2024 t0, "EXIF:CreateDate")] eq_refl (Forall_nil _)
    ltac:(repeat constructor; simpl; lia)
    ltac:(repeat constructor))
    as [E1 [_ E3]].
  exact (conj E1 E3).
Defined.

(** C8 (counterexample).  On a tie between a filename date and
    EXIF:CreateDate at the same instant, the source kept is "filename_date",
    although "EXIF:CreateDate" is lexicographically smaller; the level is
    MEDIUM, not the HIGH the EXIF source would give. *)
Lemma tie_not_lexicographic :
  String.ltb "EXIF:CreateDate" "filename_date" = true /\
  timestamp_source tie_pair (fst (fst (calculate_confidence tie_pair 2000))) = "filename_date" /\
  snd (fst (calculate_confidence tie_pair 2000)) = MEDIUM /\
  level_of (weight "EXIF:CreateDate") 2 = HIGH.
Proof. vm_compute. repeat split. Qed.

End ConfidenceClaims.

Module ExportFacts.
Import Model ExportQuery.

Lemma ss_before : forall {A : Type} (R : A -> A -> Prop) l1 l2 l3 a b,
  StronglySorted R (l1 ++ a :: l2 ++ b :: l3) -> R a b.
Proof.
  intros A R l1 l2 l3 a b; induction l1 as [|x l1 IH]; intros H; simpl in H.
  - apply StronglySorted_inv in H as [_ H]. rewrite Forall_forall in H.
    apply H, in_or_app. right; now left.
  - apply StronglySorted_inv in H as [H _]. now apply IH.
Qed.

Lemma cmp_nulls_last_le : forall x y, cmp_nulls_last x y <> Gt -> nulls_last_le x y.
Proof.
  intros [a|] [b|] H; simpl in *; [exact H|exact I|now apply H|exact I].
Qed.

Lemma cmp_nulls_last_eq : forall x y, cmp_nulls_last x y = Eq <-> x = y.
Proof.
  intros [a|] [b|]; simpl; split; intros H; try discriminate; try reflexivity.
  - apply Z.compare_eq in H. now subst.
  - injection H as ->. apply Z.compare_refl.
Qed.

Lemma export_cmp_not_gt : forall a b, export_cmp a b <> Gt ->
  nulls_last_le a.(final_timestamp) b.(final_timestamp) /\
  (a.(final_timestamp) = b.(final_timestamp) ->
     nulls_last_le a.(detected_timestamp) b.(detected_timestamp) /\
     (a.(detected_timestamp) = b.(detected_timestamp) ->
        String.compare a.(original_filename) b.(original_filename) <> Gt)).
Proof.
  intros a b H. unfold export_cmp in H.
  destruct (cmp_nulls_last a.(final_timestamp) b.(final_timestamp)) eqn:E1;
    [|split; [apply cmp_nulls_last_le; congruence|]|contradiction].
  - split; [apply cmp_nulls_last_le; congruence|intros _].
    destruct (cmp_nulls_last a.(detected_timestamp) b.(detected_timestamp)) eqn:E2;
      [|split; [apply cmp_nulls_last_le; congruence|]|contradiction].
    + split; [apply cmp_nulls_last_le; congruence|intros _; exact H].
    + intros Hd. apply cmp_nulls_last_eq in Hd. congruence.
  - intros Hf. apply cmp_nulls_last_eq in Hf. congruence.
Qed.

Lemma export_filter_true : forall f, export_filter f = true <->
  f.(discarded) = false /\ f.(processing_error) = None /\ f.(output_path) = None.
Proof.
  intros f. unfold export_filter.
  destruct (discarded f), (processing_error f), (output_path f); simpl;
    split; intros H; intuition congruence.
Qed.

End ExportFacts.

Module ExportClaims.
Import Model ExportQuery ExportFacts ExportSamples.

(** C5 (amended).  Every order the export query may return holds exactly
    the job's rows that are not discarded, have no processing error and no
    output path; and of two rows in it, the earlier one has the smaller
    final_timestamp with nulls last, then (on equal final_timestamp) the
    smaller detected_timestamp with nulls last, then (on equal
    detected_timestamp too) the smaller or equal original_filename. *)
Theorem export_order_spec : forall db l, export_order db l ->
  (forall f, In f l <-> In f db /\
     f.(discarded) = false /\ f.(processing_error) = None /\ f.(output_path) = None) /\
  (forall l1 a l2 b l3, l = l1 ++ a :: l2 ++ b :: l3 ->
     nulls_last_le a.(final_timestamp) b.(final_timestamp) /\
     (a.(final_timestamp) = b.(final_timestamp) ->
        nulls_last_le a.(detected_timestamp) b.(detected_timestamp) /\
        (a.(detected_timestamp) = b.(detected_timestamp) ->
           String.compare a.(original_filename) b.(original_filename) <> Gt))).
Proof.
  intros db l [P S]. split.
  - intros f. rewrite <- export_filter_true, <- filter_In. split; intros H.
    + exact (Permutation_in _ (Permutation_sym P) H).
    + exact (Permutation_in _ P H).
  - intros l1 a l2 b l3 ->. apply export_cmp_not_gt.
    exact (ss_before _ l1 l2 l3 a b S).
Qed.

Lemma export_order_spec_witness :
  nulls_last_le exp_b.(final_timestamp) exp_a.(final_timestamp).
Proof.
  refine (proj1 (proj2 (export_order_spec [exp_a; exp_b] [exp_b; exp_a] _) [] exp_b [] exp_a []
    eq_refl)).
  split.
  - vm_compute. apply perm_swap.
  - repeat constructor; vm_compute; discriminate.
Defined.

(** C5 (counterexample).  A row with no final_timestamp but detected at
    second 1 is exported after a row reviewed to second 5, although its
    [coalesce(final_timestamp, detected_timestamp)] is smaller: the only
    order the query allows is [exp_b; exp_a]. *)
Lemma coalesce_order_violated :
  coalesce_ts exp_a = Some 1000000 /\ coalesce_ts exp_b = Some 5000000 /\
  forall l, export_order [exp_a; exp_b] l -> l = [exp_b; exp_a].
Proof.
  split; [reflexivity|split; [reflexivity|]].
  intros l [P S]. vm_compute in P.
  apply Permutation_length_2_inv in P as [->| ->]; [|reflexivity].
  apply StronglySorted_inv in S as [_ S]. inversion S as [|? ? H _].
  vm_compute in H. exfalso; apply H; reflexivity.
Qed.

End ExportClaims.

Module ImportFacts.
Import ImportJob.

Lemma should_halt_iff : forall p e, 0 <= p ->
  should_halt_job p e ERROR_THRESHOLD MIN_SAMPLE_SIZE = true <-> 10 <= p /\ p < 10 * e.
Proof.
  intros p e Hp. unfold should_halt_job, MIN_SAMPLE_SIZE, ERROR_THRESHOLD.
  destruct (p <? 10) eqn:E.
  - apply Z.ltb_lt in E. split; [discriminate|lia].
  - apply Z.ltb_ge in E. rewrite negb_true_iff.
    destruct p as [|pp|pp]; try lia.
    assert (Hq : (inject_Z e / inject_Z (Z.pos pp) <= 1 # 10)%Q <-> 10 * e <= Z.pos pp).
    { unfold Qle, Qdiv, Qmult, Qinv, inject_Z; cbn [Qnum Qden]. lia. }
    destruct (Qle_bool (inject_Z e / inject_Z (Z.pos pp)) (1 # 10)) eqn:B.
    + apply Qle_bool_iff, Hq in B. split; [discriminate|lia].
    + split; [intros _|reflexivity].
      assert (~ (10 * e <= Z.pos pp)).
      { intros H. apply Hq, Qle_bool_iff in H. congruence. }
      lia.
Qed.

Lemma after_result_not_halted : forall r s s', after_result r s <> Stop HALTED s'.
Proof.
  intros r s s'. unfold after_result.
  destruct (res_status_after r); discriminate.
Qed.

End ImportFacts.

Module ImportClaims.
Import ImportJob ImportFacts.

(** C6 (amended).  Handling one result stops the job as HALTED exactly when
    that result is an error and, counting it, at least 10 results have been
    processed and errors / processed > 0.10; the halted state records those
    counts.  A successful result never halts the job, whatever the ratio. *)
Theorem handle_result_halt_rule : forall r s, 0 <= s.(processed_count) ->
  let p := s.(processed_count) + 1 in
  let e := if r.(res_error) then s.(error_count) + 1 else s.(error_count) in
  ((exists s', handle_result r s = Stop HALTED s') <->
     r.(res_error) = true /\ 10 <= p /\ p < 10 * e) /\
  (forall s', handle_result r s = Stop HALTED s' ->
     s'.(processed_count) = p /\ s'.(error_count) = e).
Proof.
  intros r s Hp p e. subst p e. unfold handle_result.
  destruct (res_error r).
  - destruct (should_halt_job (processed_count s + 1) (error_count s + 1)
      ERROR_THRESHOLD MIN_SAMPLE_SIZE) eqn:H.
    + apply should_halt_iff in H; [|lia]. split.
      * split; [intros _; auto|intros _; eexists; reflexivity].
      * intros s' E. injection E as <-. simpl. auto.
    + assert (~ (10 <= processed_count s + 1 /\ processed_count s + 1 < 10 * (error_count s + 1))).
      { intros Hc. apply should_halt_iff in Hc; [congruence|lia]. }
      split.
      * split; [intros [s' E]; exfalso; exact (after_result_not_halted _ _ _ E)|tauto].
      * intros s' E. exfalso; exact (after_result_not_halted _ _ _ E).
  - split.
    + split; [intros [s' E]; exfalso; exact (after_result_not_halted _ _ _ E)|].
      intros [D _]; discriminate.
    + intros s' E. exfalso; exact (after_result_not_halted _ _ _ E).
Qed.

Lemma handle_result_halt_rule_witness :
  exists s', handle_result (mkRes 10 true RUNNING) (mkLoop 9 1 [] [] [1]) = Stop HALTED s'.
Proof.
  apply (proj1 (handle_result_halt_rule (mkRes 10 true RUNNING) (mkLoop 9 1 [] [] [1])
    ltac:(simpl; lia))).
  simpl. split; [reflexivity|lia].
Defined.

(** C6 (counterexample).  Five failures then five successes: after the
    tenth result 10 files are processed with 5 errors (ratio 0.5 > 0.10),
    but that result is a success, the ratio is never checked at 10 or more
    results, and the job completes. *)
Lemma success_crossing_not_halted :
  should_halt_job 10 5 ERROR_THRESHOLD MIN_SAMPLE_SIZE = true /\
  fst (results_loop five_then_five (mkLoop 0 0 [] [] [])) = COMPLETED /\
  processed_count (snd (results_loop five_then_five (mkLoop 0 0 [] [] []))) = 10 /\
  error_count (snd (results_loop five_then_five (mkLoop 0 0 [] [] []))) = 5.
Proof. vm_compute. repeat split. Qed.

End ImportClaims.

Module DuplicatesFacts.
Import Duplicates.

Lemma format_mult_nonneg : forall fmt, (0 <= format_mult fmt)%Q.
Proof.
  intros fmt. unfold format_mult.
  destruct (find _ FORMAT_MULTIPLIERS) as [[k m]|] eqn:E.
  - apply find_some in E as [Hin _].
    assert (H : Forall (fun p => (0 <= snd p)%Q) FORMAT_MULTIPLIERS)
      by (repeat constructor; unfold Qle; simpl; lia).
    rewrite Forall_forall in H. exact (H _ Hin).
  - unfold Qle; simpl; lia.
Qed.

Lemma score_nonneg : forall f, 0 <= f.(fd_file_size_bytes) ->
  (forall r, f.(fd_resolution_mp) = Some r -> (0 <= r)%Q) -> (0 <= score f)%Q.
Proof.
  intros f Hs Hr. unfold score.
  assert (Hz : (0 <= inject_Z f.(fd_file_size_bytes))%Q) by (unfold Qle; simpl; lia).
  destruct (fd_resolution_mp f) as [r|].
  - apply Qmult_le_0_compat; [|apply format_mult_nonneg].
    replace 0%Q with (0 + 0)%Q by reflexivity. apply Qplus_le_compat; [|exact Hz].
    apply Qmult_le_0_compat; [exact (Hr r eq_refl)|unfold Qle; simpl; lia].
  - apply Qmult_le_0_compat; [exact Hz|apply format_mult_nonneg].
Qed.

Lemma fold_best : forall l b s,
  (s <= snd (fold_left best_step l (b, s)))%Q /\
  (forall g, In g l -> (score g <= snd (fold_left best_step l (b, s)))%Q) /\
  (fold_left best_step l (b, s) = (b, s) \/
   exists f, In f l /\ fold_left best_step l (b, s) = (Some f.(fd_id), score f)).
Proof.
  induction l as [|f r IH]; intros b s; simpl.
  - split; [apply Qle_refl|split; [intros _ []|now left]].
  - destruct (Qle_bool (score f) s) eqn:E; simpl.
    + apply Qle_bool_iff in E.
      destruct (IH b s) as [H1 [H2 H3]].
      split; [exact H1|split].
      * intros g [<-|Hg]; [exact (Qle_trans _ _ _ E H1)|exact (H2 g Hg)].
      * destruct H3 as [H3|[f' [Hf' H3]]]; [now left|right; exists f'; auto].
    + assert (E' : (s < score f)%Q)
        by (apply Qnot_le_lt; intros H; apply Qle_bool_iff in H; congruence).
      destruct (IH (Some f.(fd_id)) (score f)) as [H1 [H2 H3]].
      split; [exact (Qle_trans _ _ _ (Qlt_le_weak _ _ E') H1)|split].
      * intros g [<-|Hg]; [exact H1|exact (H2 g Hg)].
      * right. destruct H3 as [H3|[f' [Hf' H3]]]; [exists f|exists f']; auto.
Qed.

End DuplicatesFacts.

Module DuplicatesClaims.
Import Duplicates DuplicatesFacts.

(** C10.  For file dicts with non-negative sizes and resolutions,
    [recommend_best_duplicate] returns None exactly on the empty list, and
    otherwise the id of a member of the list whose quality score is at least
    that of every member. *)
Theorem recommend_best_duplicate_spec : forall files,
  (forall f, In f files -> 0 <= f.(fd_file_size_bytes) /\
     (forall r, f.(fd_resolution_mp) = Some r -> (0 <= r)%Q)) ->
  (recommend_best_duplicate files = None <-> files = []) /\
  (files <> [] -> exists f, In f files /\ recommend_best_duplicate files = Some f.(fd_id) /\
     forall g, In g files -> (score g <= score f)%Q).
Proof.
  intros files Hf. destruct files as [|f0 r].
  - split; [split; reflexivity|intros H; contradiction].
  - destruct (fold_best (f0 :: r) None (-1 # 1)) as [_ [H2 [H3|[f [Hin H3]]]]].
    + exfalso. specialize (H2 f0 (or_introl eq_refl)). rewrite H3 in H2. simpl in H2.
      destruct (Hf f0 (or_introl eq_refl)) as [Hs Hr].
      pose proof (Qle_trans _ _ _ (score_nonneg f0 Hs Hr) H2) as C.
      unfold Qle in C; simpl in C; lia.
    + unfold recommend_best_duplicate. rewrite H3. simpl.
      split; [split; discriminate|intros _].
      exists f. split; [exact Hin|split; [reflexivity|]].
      intros g Hg. specialize (H2 g Hg). rewrite H3 in H2. exact H2.
Qed.

Lemma recommend_best_duplicate_spec_witness :
  recommend_best_duplicate trio = Some 2 /\
  exists f, In f trio /\ recommend_best_duplicate trio = Some f.(fd_id).
Proof.
  assert (Hf : forall f, In f trio -> 0 <= f.(fd_file_size_bytes) /\
     (forall r, f.(fd_resolution_mp) = Some r -> (0 <= r)%Q)).
  { intros f Hf. simpl in Hf.
    destruct Hf as [<-|[<-|[<-|[]]]]; simpl; (split; [lia|]);
      intros r' E; injection E as <-; unfold Qle; simpl; lia. }
  split; [vm_compute; reflexivity|].
  destruct (proj2 (recommend_best_duplicate_spec trio Hf) ltac:(discriminate))
    as [f [Hin [E _]]].
  exists f. split; assumption.
Defined.

End DuplicatesClaims.

Module ReviewFacts.
Import Model Review.

(** [discard_file] leaves its row satisfying the invariant. *)
Lemma discard_row_ok : forall f, discard_ok (discard_row f) = true.
Proof. intros f. reflexivity. Qed.

End ReviewFacts.

Module ReviewClaims.
Import Model Review.

(** Claim C1 (counterexample): the invariant
    [discarded => reviewed_at = null /\ final_timestamp = null] holds on a
    two-row similar group whose first row has been reviewed; resolving the
    group while keeping only row 2 answers 200 and discards row 1 with its
    review fields still set, so the invariant fails after the commit, while
    [discard_file] on the same row clears both fields. *)
Lemma resolve_keeps_review_fields :
  forallb discard_ok reviewed_pair = true /\
  fst (resolve_similar_group "g" [2] reviewed_pair) = 200 /\
  get (snd (resolve_similar_group "g" [2] reviewed_pair)) 1 =
    Some (set_discarded true
            (set_review (Some 7) (Some 9) (blank 1 "a.jpg"))) /\
  forallb discard_ok (snd (resolve_similar_group "g" [2] reviewed_pair)) = false /\
  forallb discard_ok (snd (discard_file 1 reviewed_pair)) = true.
Proof. vm_compute. repeat split. Qed.

End ReviewClaims.

Module ImportLoopFacts.
Import ImportJob ImportView.

Lemma commit_pending_written : forall s,
  written (commit_pending s) = written s /\ (commit_pending s).(pending_updates) = [] /\
  (commit_pending s).(errored_files) = s.(errored_files) /\
  (commit_pending s).(processed_count) = s.(processed_count) /\
  (commit_pending s).(error_count) = s.(error_count).
Proof. intros s. unfold written, commit_pending; simpl. rewrite app_nil_r. auto. Qed.

Lemma after_result_inv : forall r s1,
  match after_result r s1 with
  | Stop st s' => (st = PAUSED \/ st = CANCELLED) /\ s'.(pending_updates) = [] /\
      written s' = written s1 /\ s'.(errored_files) = s1.(errored_files) /\
      s'.(processed_count) = s1.(processed_count) /\ s'.(error_count) = s1.(error_count)
  | Continue s' => (List.length s'.(pending_updates) < 10)%nat /\
      written s' = written s1 /\ s'.(errored_files) = s1.(errored_files) /\
      s'.(processed_count) = s1.(processed_count) /\ s'.(error_count) = s1.(error_count)
  end.
Proof.
  intros r s1. unfold after_result.
  set (s2 := if (BATCH_COMMIT_SIZE <=? List.length s1.(pending_updates))%nat
             then commit_pending s1 else s1).
  assert (H2 : (List.length s2.(pending_updates) < 10)%nat /\ written s2 = written s1 /\
     s2.(errored_files) = s1.(errored_files) /\ s2.(processed_count) = s1.(processed_count) /\
     s2.(error_count) = s1.(error_count)).
  { unfold s2. destruct (BATCH_COMMIT_SIZE <=? List.length s1.(pending_updates))%nat eqn:E.
    - destruct (commit_pending_written s1) as [A [B [C [D F]]]].
      refine (conj _ (conj A (conj C (conj D F)))). rewrite B; simpl; lia.
    - unfold BATCH_COMMIT_SIZE in E. apply Nat.leb_gt in E.
      refine (conj E (conj eq_refl (conj eq_refl (conj eq_refl eq_refl)))). }
  destruct H2 as [L [W [Er [P Ec]]]].
  destruct (commit_pending_written s2) as [A [B [C [D F]]]].
  destruct r.(res_status_after); try (repeat split; assumption); (split; [auto|]);
    (split; [exact B|]); repeat split; congruence.
Qed.

Lemma results_loop_inv : forall rs s, (List.length s.(pending_updates) < 10)%nat ->
  let '(st, s') := results_loop rs s in
  exists k, (k <= List.length rs)%nat /\
    written s' = written s ++ succ_files (firstn k rs) /\
    s'.(errored_files) = s.(errored_files) ++ err_files (firstn k rs) /\
    s'.(processed_count) = s.(processed_count) + Z.of_nat k /\
    s'.(error_count) = s.(error_count) + Z.of_nat (List.length (err_files (firstn k rs))) /\
    st <> RUNNING /\ (st = HALTED \/ s'.(pending_updates) = []) /\
    (List.length s'.(pending_updates) < 10)%nat /\
    (st = COMPLETED -> k = List.length rs).
Proof.
  induction rs as [|r rest IH]; intros s Hs; cbn [results_loop].
  - exists O. destruct (commit_pending_written s) as [A [B [C [D F]]]].
    cbn [firstn]. unfold succ_files, err_files; cbn [filter map List.length].
    rewrite A, B, C, D, F, !app_nil_r. repeat split; simpl; try lia; try discriminate; auto.
  - unfold handle_result. unfold succ_files, err_files in *.
    cbn [firstn filter map List.length]. destruct r.(res_error) eqn:Er; cbn [negb].
    + set (s1 := mkLoop (s.(processed_count) + 1) (s.(error_count) + 1) s.(pending_updates)
                   s.(committed_updates) (s.(errored_files) ++ [r.(res_file)])).
      destruct (should_halt_job _ _ _ _).
      * exists 1%nat. cbn [firstn filter map List.length]. rewrite Er. cbn [negb map List.length].
        unfold written; cbn. rewrite !app_nil_r.
        repeat split; try lia; auto; discriminate.
      * pose proof (after_result_inv r s1) as Ha.
        destruct (after_result r s1) as [st s'|s'].
        -- destruct Ha as [Hst [Hp [W [E [P C]]]]].
           exists 1%nat. cbn [firstn filter map List.length]. rewrite Er. cbn [negb map List.length].
           rewrite W, E, P, C, Hp. unfold written; cbn. rewrite !app_nil_r.
           repeat split; try lia; auto; destruct Hst; subst; discriminate.
        -- destruct Ha as [L [W [E [P C]]]].
           specialize (IH s' L). destruct (results_loop rest s') as [st s''].
           destruct IH as [k [Hk [W' [E' [P' [C' [R [Q [L' Hc]]]]]]]]].
           exists (S k). cbn [firstn filter map List.length]. rewrite Er. cbn [negb map List.length].
           rewrite W', W, E', E, P', P, C', C. unfold written; cbn - [Z.of_nat].
           repeat split; try lia; auto.
           all: try (rewrite <- app_assoc; reflexivity); try (intros Hco; specialize (Hc Hco); lia).
    + set (s1 := mkLoop (s.(processed_count) + 1) s.(error_count)
                   (s.(pending_updates) ++ [r.(res_file)]) s.(committed_updates)
                   s.(errored_files)).
      assert (W1 : written s1 = written s ++ [r.(res_file)])
        by (unfold written, s1; simpl; apply app_assoc).
      pose proof (after_result_inv r s1) as Ha.
      destruct (after_result r s1) as [st s'|s'].
      * destruct Ha as [Hst [Hp [W [E [P C]]]]].
        exists 1%nat. cbn [firstn filter map List.length]. rewrite Er. cbn [negb map List.length].
        rewrite W, E, P, C, Hp, W1. cbn. rewrite !app_nil_r.
        repeat split; try lia; auto; destruct Hst; subst; discriminate.
      * destruct Ha as [L [W [E [P C]]]].
        specialize (IH s' L). destruct (results_loop rest s') as [st s''].
        destruct IH as [k [Hk [W' [E' [P' [C' [R [Q [L' Hc]]]]]]]]].
        exists (S k). cbn [firstn filter map List.length]. rewrite Er. cbn [negb map List.length].
        rewrite W', W, W1, E', E, P', P, C', C. cbn - [Z.of_nat].
        repeat split; try lia; auto.
        all: try (rewrite <- app_assoc; reflexivity); try (intros Hco; specialize (Hc Hco); lia).
Qed.

End ImportLoopFacts.

Module EngineViewFacts.
Import Model ModelFacts Engine EngineFacts Aux ClusterFacts EngineView.

Section Preserve.
(** Any view of a row that the group setters do not change. *)
Variable A : Type.
Variable k : File -> A.
Hypothesis k_exact : forall g c f, k (set_exact g c f) = k f.
Hypothesis k_similar : forall g c t f, k (set_similar g c t f) = k f.

Lemma update_k : forall i g d, (forall f, k (g f) = k f) -> map k (update i g d) = map k d.
Proof.
  intros i g d Hg. unfold update. rewrite map_map. apply map_ext.
  intros f. destruct (f.(id) =? i); [apply Hg|reflexivity].
Qed.

Lemma merge_exact_k : forall a b dist st,
  map k (merge_into_exact_group a b dist st).(db) = map k st.(db).
Proof.
  intros. unfold merge_into_exact_group.
  pose proof (proj2 (reuse_or_mint_spec a.(exact_group_id) b.(exact_group_id) st)) as Hdb.
  destruct (reuse_or_mint a.(exact_group_id) b.(exact_group_id) st) as [g st1].
  simpl in *. rewrite !update_k by (intros; apply k_exact). now rewrite Hdb.
Qed.

Lemma merge_similar_k : forall a b dist st,
  map k (merge_into_similar_group a b dist st).(db) = map k st.(db).
Proof.
  intros. unfold merge_into_similar_group.
  pose proof (proj2 (reuse_or_mint_spec a.(similar_group_id) b.(similar_group_id) st)) as Hdb.
  destruct (reuse_or_mint a.(similar_group_id) b.(similar_group_id) st) as [g st1].
  simpl in *. rewrite !update_k by (intros; apply k_similar). now rewrite Hdb.
Qed.

Lemma compare_pair_k : forall i j st,
  map k (fst (compare_pair i j st)).(db) = map k st.(db).
Proof.
  intros. unfold compare_pair.
  destruct (get st.(db) i) as [a|], (get st.(db) j) as [b|]; try reflexivity.
  destruct (negb _); [reflexivity|].
  destruct (_ <=? EXACT_THRESHOLD); [apply merge_exact_k|].
  destruct (_ <=? SIMILAR_THRESHOLD); [apply merge_similar_k|reflexivity].
Qed.

Lemma compare_with_k : forall rest i st,
  map k (fst (compare_with i rest st)).(db) = map k st.(db).
Proof.
  induction rest as [|j r IH]; intros i st; [reflexivity|]. simpl.
  destruct (compare_pair i j st) as [st1 t1] eqn:E1.
  destruct (compare_with i r st1) as [st2 t2] eqn:E2. simpl.
  transitivity (map k st1.(db)).
  - pose proof (IH i st1) as H; rewrite E2 in H; exact H.
  - pose proof (compare_pair_k i j st) as H; rewrite E1 in H; exact H.
Qed.

Lemma analyze_cluster_k : forall l st,
  map k (fst (analyze_cluster l st)).(db) = map k st.(db).
Proof.
  induction l as [|i r IH]; intros st; [reflexivity|]. simpl.
  destruct (compare_with i r st) as [st1 t1] eqn:E1.
  destruct (analyze_cluster r st1) as [st2 t2] eqn:E2. simpl.
  transitivity (map k st1.(db)).
  - pose proof (IH st1) as H; rewrite E2 in H; exact H.
  - pose proof (compare_with_k r i st) as H; rewrite E1 in H; exact H.
Qed.

Lemma analyze_clusters_k : forall cs st,
  map k (fst (analyze_clusters cs st)).(db) = map k st.(db).
Proof.
  induction cs as [|c cs IH]; intros st; [reflexivity|]. simpl.
  destruct (analyze_cluster (map id c) st) as [st1 t1] eqn:E1.
  destruct (analyze_clusters cs st1) as [st2 t2] eqn:E2. simpl.
  transitivity (map k st1.(db)).
  - pose proof (IH st1) as H; rewrite E2 in H; exact H.
  - pose proof (analyze_cluster_k (map id c) st) as H; rewrite E1 in H; exact H.
Qed.

End Preserve.

Lemma strip_exact : forall g c f, strip_groups (set_exact g c f) = strip_groups f.
Proof. intros g c f; destruct f; reflexivity. Qed.

Lemma strip_similar : forall g c t f, strip_groups (set_similar g c t f) = strip_groups f.
Proof. intros g c t f; destruct f; reflexivity. Qed.

(** Sorted neighbours. *)
Lemma sorted_snoc : forall (R : File -> File -> Prop) l x d,
  Sorted R l -> (l <> [] -> R (last l d) x) -> Sorted R (l ++ [x]).
Proof.
  intros R l x d; induction l as [|a r IH]; intros H Hl; simpl.
  - repeat constructor.
  - apply Sorted_inv in H as [Hr Hh]. constructor.
    + apply IH; [exact Hr|]. intros Hne. destruct r; [congruence|]. apply Hl; discriminate.
    + destruct r as [|b r']; simpl.
      * constructor. apply Hl; discriminate.
      * constructor. now inversion Hh.
Qed.

Lemma subseq_nil_l : forall {B : Type} (l : list B), subseq [] l.
Proof. intros B l; induction l; constructor; assumption. Qed.

Lemma subseq_refl : forall {B : Type} (l : list B), subseq l l.
Proof. intros B l; induction l; constructor; assumption. Qed.

Lemma subseq_app : forall {B : Type} (a b c d : list B),
  subseq a b -> subseq c d -> subseq (a ++ c) (b ++ d).
Proof.
  intros B a b c d H; revert c d; induction H; intros c' d' H'; simpl.
  - exact H'.
  - constructor; auto.
  - constructor; auto.
Qed.

Lemma subseq_app_r : forall {B : Type} (p a b : list B), subseq a b -> subseq a (p ++ b).
Proof. intros B p a b H; induction p; simpl; [exact H|]. constructor; assumption. Qed.

Lemma scan_shape : forall T rest cur, cur <> [] ->
  StronglySorted ts_le (cur ++ rest) -> Sorted (window T) cur ->
  (forall c, In c (scan T cur rest) -> (2 <= List.length c)%nat /\ Sorted (window T) c) /\
  subseq (List.concat (scan T cur rest)) (cur ++ rest) /\
  (forall l1 c1 l2 c2 l3 a b, scan T cur rest = l1 ++ c1 :: l2 ++ c2 :: l3 ->
     In a c1 -> In b c2 -> ts_key a + T * SECOND < ts_key b).
Proof.
  intros T rest; induction rest as [|f r IH]; intros cur Hne Hs Hw.
  - cbn [scan]. rewrite app_nil_r.
    destruct (2 <=? List.length cur)%nat eqn:E2.
    + apply Nat.leb_le in E2. split; [|split].
      * intros c [<-|[]]. auto.
      * simpl. rewrite app_nil_r. apply subseq_refl.
      * intros l1 c1 l2 c2 l3 a b E. destruct l1 as [|x l1].
        -- destruct l2; discriminate E.
        -- destruct l1; discriminate E.
    + split; [intros c []|split; [apply subseq_nil_l|]].
      intros l1 c1 l2 c2 l3 a b E. destruct l1; discriminate.
  - cbn [scan]. destruct (ss_app_inv cur (f :: r) Hs) as [Hc [Hr Hx2]].
    assert (Hl : ts_le (last cur f) f) by (apply Hx2; [now apply last_in|now left]).
    destruct (ts_key f - ts_key (last cur f) <=? T * SECOND) eqn:Eg.
    + apply Z.leb_le in Eg.
      assert (Hne' : cur ++ [f] <> []) by (intro E; destruct cur; discriminate E).
      assert (Hs' : StronglySorted ts_le ((cur ++ [f]) ++ r)) by (rewrite <- app_assoc; exact Hs).
      assert (Hw' : Sorted (window T) (cur ++ [f])).
      { apply (sorted_snoc _ _ _ f); [exact Hw|]. intros _. unfold window, ts_le in *. lia. }
      destruct (IH (cur ++ [f]) Hne' Hs' Hw') as [A [B C]].
      split; [exact A|split; [|exact C]]. rewrite <- app_assoc in B. exact B.
    + apply Z.leb_gt in Eg.
      assert (Hfr : forall z, In z (f :: r) -> ts_le f z).
      { intros z [<-|Hz]; [unfold ts_le; lia|].
        apply StronglySorted_inv in Hr as [_ Hf]. rewrite Forall_forall in Hf. now apply Hf. }
      assert (Hw1 : Sorted (window T) [f]) by repeat constructor.
      destruct (IH [f] ltac:(discriminate) Hr Hw1) as [A [B C]].
      assert (Sep : forall c2 a b, In c2 (scan T [f] r) -> In a cur -> In b c2 ->
                      ts_key a + T * SECOND < ts_key b).
      { intros c2 a b Hc2 Ha Hb.
        pose proof (scan_members T r [f] c2 b Hc2 Hb) as Hb'.
        pose proof (Hfr b Hb'). pose proof (ss_last cur a f Hc Ha).
        unfold ts_le in *. lia. }
      destruct (2 <=? List.length cur)%nat eqn:E2.
      * apply Nat.leb_le in E2. split; [|split].
        -- intros c [<-|Hc']; [auto|now apply A].
        -- simpl. apply subseq_app; [apply subseq_refl|exact B].
        -- intros l1 c1 l2 c2 l3 a b E Ha Hb. destruct l1 as [|x l1]; simpl in E.
           ++ injection E as <- E. apply (Sep c2 a b); [|exact Ha|exact Hb].
              rewrite E. apply in_or_app; right; now left.
           ++ injection E as _ E. exact (C l1 c1 l2 c2 l3 a b E Ha Hb).
      * split; [exact A|split; [|exact C]].
        apply subseq_app_r. exact B.
Qed.

End EngineViewFacts.

Module ImportExtras.
Import ImportJob ImportView ImportLoopFacts.

(** The import loop's bookkeeping, from a fresh loop state: for some prefix
    of the results (all of them when the job completes), the successes of the
    prefix are exactly the file updates committed or still pending, its
    failures are exactly the files marked with an error, [processed_count]
    and [error_count] grew by its length and its failure count, and updates
    remain pending (fewer than ten) only when the job halted. *)
Theorem results_loop_accounting : forall rs p0 e0,
  let '(st, s) := results_loop rs (loop_start p0 e0) in
  exists k, (k <= List.length rs)%nat /\
    s.(committed_updates) ++ s.(pending_updates) = succ_files (firstn k rs) /\
    s.(errored_files) = err_files (firstn k rs) /\
    s.(processed_count) = p0 + Z.of_nat k /\
    s.(error_count) = e0 + Z.of_nat (List.length (err_files (firstn k rs))) /\
    st <> RUNNING /\
    (st <> HALTED -> s.(pending_updates) = []) /\
    (List.length s.(pending_updates) < 10)%nat /\
    (st = COMPLETED -> k = List.length rs).
Proof.
  intros rs p0 e0.
  pose proof (results_loop_inv rs (loop_start p0 e0) ltac:(simpl; lia)) as H.
  destruct (results_loop rs (loop_start p0 e0)) as [st s].
  destruct H as [k [K [W [E [P [C [R [Hp [L Hc]]]]]]]]].
  exists k. unfold written in W. simpl in W, E, P, C.
  refine (conj K (conj W (conj E (conj P (conj C (conj R (conj _ (conj L Hc)))))))).
  intros Hh. destruct Hp; [contradiction|assumption].
Qed.

End ImportExtras.

Module EngineExtras.
Import Model Engine Aux ClusterFacts EngineView EngineViewFacts EngineSamples.

(** [detect_perceptual_duplicates] writes only the group columns: with the
    exact and similar group id, confidence and type blanked, every row is as
    before, in the same order. *)
Theorem detect_perceptual_duplicates_only_groups : forall T st,
  map strip_groups (fst (detect_perceptual_duplicates T st)).(db) = map strip_groups st.(db).
Proof.
  intros T st. unfold detect_perceptual_duplicates.
  destruct (cluster_by_timestamp st.(db) T); [reflexivity|].
  apply analyze_clusters_k; [exact strip_exact|exact strip_similar].
Qed.

(** The clusters of [cluster_by_timestamp]: each has at least two rows, all
    with a detected timestamp, in time order with consecutive rows at most
    the window apart; taken together, they are the timestamped rows sorted
    by time with some rows left out (no row twice, none reordered). *)
Theorem cluster_by_timestamp_shape : forall d T,
  (forall c, In c (cluster_by_timestamp d T) ->
     (2 <= List.length c)%nat /\ Forall (fun f => has_ts f = true) c /\ Sorted (window T) c) /\
  subseq (List.concat (cluster_by_timestamp d T)) (sort_by_ts (filter has_ts d)).
Proof.
  intros d T.
  assert (Hts : forall c, In c (cluster_by_timestamp d T) -> Forall (fun f => has_ts f = true) c).
  { intros c Hc. apply Forall_forall. intros f Hf.
    destruct (cluster_members d T c f Hc Hf) as [_ H]. unfold has_ts.
    destruct (f.(detected_timestamp)); [reflexivity|contradiction]. }
  unfold cluster_by_timestamp in *. fold has_ts in *.
  destruct (List.length (filter has_ts d) <? 2)%nat.
  - split; [intros c []|apply subseq_nil_l].
  - pose proof (sort_sorted (filter has_ts d)) as Hs.
    destruct (sort_by_ts (filter has_ts d)) as [|f0 r].
    + split; [intros c []|constructor].
    + destruct (scan_shape T r [f0] ltac:(discriminate) Hs ltac:(repeat constructor))
        as [A [B _]].
      split; [|exact B]. intros c Hc. destruct (A c Hc). auto.
Qed.

(** Rows of different clusters are more than the window apart: every row of
    a cluster lies more than [T] seconds before every row of any later
    cluster. *)
Theorem cluster_by_timestamp_separated : forall d T l1 c1 l2 c2 l3 a b,
  cluster_by_timestamp d T = l1 ++ c1 :: l2 ++ c2 :: l3 ->
  In a c1 -> In b c2 -> ts_key a + T * SECOND < ts_key b.
Proof.
  intros d T l1 c1 l2 c2 l3 a b E. unfold cluster_by_timestamp in E.
  destruct (List.length _ <? 2)%nat; [destruct l1; discriminate|].
  pose proof (sort_sorted (filter (fun f => match f.(detected_timestamp) with
                                            | Some _ => true | None => false end) d)) as Hs.
  destruct (sort_by_ts _) as [|f0 r]; [destruct l1; discriminate|].
  destruct (scan_shape T r [f0] ltac:(discriminate) Hs ltac:(repeat constructor))
    as [_ [_ C]].
  exact (C l1 c1 l2 c2 l3 a b E).
Qed.

Lemma cluster_by_timestamp_separated_witness :
  cluster_by_timestamp two_bursts 5 =
    [] ++ [Samples.phash_row 1 "0000000000000000" (Some 0);
           Samples.phash_row 2 "0000000000000001" (Some 1000000)] ::
    [] ++ [Samples.phash_row 3 "00000000000000ff" (Some 100000000);
           Samples.phash_row 4 "00000000000000ff" (Some 101000000)] :: [] /\
  ts_key (Samples.phash_row 1 "0000000000000000" (Some 0)) + 5 * SECOND <
    ts_key (Samples.phash_row 3 "00000000000000ff" (Some 100000000)).
Proof.
  assert (E : cluster_by_timestamp two_bursts 5 =
    [] ++ [Samples.phash_row 1 "0000000000000000" (Some 0);
           Samples.phash_row 2 "0000000000000001" (Some 1000000)] ::
    [] ++ [Samples.phash_row 3 "00000000000000ff" (Some 100000000);
           Samples.phash_row 4 "00000000000000ff" (Some 101000000)] :: []) by
    (vm_compute; reflexivity).
  split; [exact E|].
  apply (cluster_by_timestamp_separated two_bursts 5 [] _ [] _ [] _ _ E);
    simpl; auto.
Defined.

End EngineExtras.

Module TimestampOptionsFacts.
Import Confidence TimestampOptions.

(** The group timestamps, in order. *)
Lemma add_to_found_ts : forall c gs gs', add_to_found c gs = Some gs' ->
  map g_timestamp gs' = map g_timestamp gs /\
  exists g, In g gs /\ within g.(g_timestamp) (fst c) = true.
Proof.
  intros c gs; induction gs as [|g r IH]; intros gs' H; simpl in H; [discriminate|].
  destruct (within g.(g_timestamp) (fst c)) eqn:W.
  - injection H as <-. split; [reflexivity|]. exists g; split; [now left|exact W].
  - destruct (add_to_found c r) as [r'|] eqn:E; [|discriminate].
    injection H as <-. destruct (IH r' eq_refl) as [A [g' [B C]]].
    split; [simpl; now rewrite A|]. exists g'; split; [now right|exact C].
Qed.

Lemma build_groups_ts : forall cs gs, exists extra,
  map g_timestamp (fold_left group_step cs gs) = map g_timestamp gs ++ extra /\
  (forall t, In t extra -> exists c, In c cs /\ t = fst c) /\
  (forall c, In c cs -> exists g, In g (fold_left group_step cs gs) /\
                         within g.(g_timestamp) (fst c) = true).
Proof.
  induction cs as [|c cs IH]; intros gs; simpl.
  - exists []. rewrite app_nil_r. repeat split; [intros t []|intros c []].
  - destruct (IH (group_step gs c)) as [ex [A [B C]]].
    assert (Hstep : exists e1, map g_timestamp (group_step gs c) = map g_timestamp gs ++ e1 /\
              (forall t, In t e1 -> t = fst c) /\
              exists g, In g (group_step gs c) /\ within g.(g_timestamp) (fst c) = true).
    { unfold group_step. destruct (add_to_found c gs) as [gs'|] eqn:E.
      - destruct (add_to_found_ts c gs gs' E) as [T [g [Hg W]]].
        exists []. rewrite app_nil_r. split; [exact T|split; [intros t []|]].
        assert (Hin : In (g_timestamp g) (map g_timestamp gs')) by
          (rewrite T; now apply in_map).
        apply in_map_iff in Hin as [g' [Eg Hg']]. exists g'. rewrite Eg. auto.
      - exists [fst c]. rewrite map_app. split; [reflexivity|split].
        + intros t [<-|[]]; reflexivity.
        + exists (mkGroup (fst c) [c]). split; [apply in_or_app; right; now left|].
          unfold within. simpl. apply Z.leb_le. rewrite Z.sub_diag. simpl.
          unfold tolerance. lia. }
    destruct Hstep as [e1 [S1 [S2 [g [Hg Wg]]]]].
    exists (e1 ++ ex). split; [rewrite A, S1; symmetry; apply app_assoc|split].
    + intros t Ht. apply in_app_or in Ht as [Ht|Ht].
      * exists c. split; [now left|now apply S2].
      * destruct (B t Ht) as [c' [Hc' E']]. exists c'. split; [now right|exact E'].
    + intros c' [<-|Hc'].
      * assert (Hin : In (g_timestamp g) (map g_timestamp (fold_left group_step cs (group_step gs c)))).
        { rewrite A. apply in_or_app; left. now apply in_map. }
        apply in_map_iff in Hin as [g' [Eg Hg']]. exists g'. rewrite Eg. auto.
      * now apply C.
Qed.

Lemma build_groups_nonempty : forall c cs, build_groups (c :: cs) <> [].
Proof.
  intros c cs H. destruct (build_groups_ts (c :: cs) []) as [_ [_ [_ C]]].
  destruct (C c (or_introl eq_refl)) as [g [Hg _]]. unfold build_groups in H.
  rewrite H in Hg. destruct Hg.
Qed.

(** The two sorts. *)
Lemma insert_by_time_perm : forall g l, Permutation (g :: l) (insert_by_time g l).
Proof.
  intros g l; induction l as [|h r IH]; simpl; [reflexivity|].
  destruct (_ <=? _); [reflexivity|].
  eapply perm_trans; [apply perm_swap|]. now apply perm_skip.
Qed.

Lemma sort_by_time_perm : forall l, Permutation l (sort_by_time l).
Proof.
  induction l as [|g r IH]; simpl; [reflexivity|].
  eapply perm_trans; [apply perm_skip, IH|apply insert_by_time_perm].
Qed.

Lemma insert_by_score_perm : forall g l, Permutation (g :: l) (insert_by_score g l).
Proof.
  intros g l; induction l as [|h r IH]; simpl; [reflexivity|].
  destruct (_ <=? _); [reflexivity|].
  eapply perm_trans; [apply perm_swap|]. now apply perm_skip.
Qed.

Lemma sort_by_score_perm : forall l, Permutation l (sort_by_score l).
Proof.
  induction l as [|g r IH]; simpl; [reflexivity|].
  eapply perm_trans; [apply perm_skip, IH|apply insert_by_score_perm].
Qed.

Lemma insert_by_time_sorted : forall g l, Sorted time_le l -> Sorted time_le (insert_by_time g l).
Proof.
  intros g l; induction l as [|h r IH]; simpl; intros H; [now repeat constructor|].
  destruct (instant g.(sg_timestamp) <=? instant h.(sg_timestamp)) eqn:E.
  - apply Z.leb_le in E. constructor; [exact H|]. now constructor.
  - apply Z.leb_gt in E. apply Sorted_inv in H as [Hr Hh]. constructor; [now apply IH|].
    destruct r as [|k r']; simpl.
    + constructor. unfold time_le; lia.
    + destruct (instant g.(sg_timestamp) <=? instant k.(sg_timestamp)); constructor.
      * unfold time_le; lia.
      * now inversion Hh.
Qed.

Lemma sort_by_time_head : forall l e r, sort_by_time l = e :: r ->
  In e l /\ forall x, In x l -> instant e.(sg_timestamp) <= instant x.(sg_timestamp).
Proof.
  intros l e r E.
  assert (Hs : StronglySorted time_le (sort_by_time l)).
  { apply Sorted_StronglySorted; [intros a b c; unfold time_le; lia|].
    clear E. induction l as [|g l' IH]; simpl; [constructor|].
    now apply insert_by_time_sorted. }
  pose proof (sort_by_time_perm l) as P. rewrite E in Hs, P.
  split; [apply Permutation_sym in P; eapply Permutation_in; [exact P|now left]|].
  intros x Hx. apply (Permutation_in x P) in Hx. destruct Hx as [<-|Hx]; [lia|].
  apply StronglySorted_inv in Hs as [_ F]. rewrite Forall_forall in F. exact (F x Hx).
Qed.

(** The deviant loop. *)
Lemma not_included : forall t incl, included t incl = false ->
  ~ In (instant t) (map instant incl).
Proof.
  intros t incl H Hin. apply in_map_iff in Hin as [u [Eu Hu]].
  assert (existsb (fun u => instant u =? instant t) incl = true) by
    (apply existsb_exists; exists u; split; [exact Hu|apply Z.eqb_eq; exact Eu]).
  unfold included in H. congruence.
Qed.

Lemma deviants_props : forall gs incl n t,
  (List.length (deviants gs incl n t) <= 2 - n)%nat /\
  Forall (fun o => o.(o_is_earliest) = false /\ o.(o_is_highest_scored) = false /\
                   o.(o_selected) = false /\ t <= o.(o_score)) (deviants gs incl n t) /\
  (NoDup (map instant incl) ->
   NoDup (map instant (incl ++ map o_timestamp (deviants gs incl n t)))).
Proof.
  induction gs as [|g r IH]; intros incl n t; cbn [deviants].
  - rewrite List.app_nil_r. repeat split; [cbn; lia|constructor|auto].
  - destruct (2 <=? n)%nat eqn:E2.
    { rewrite List.app_nil_r. repeat split; [cbn; lia|constructor|auto]. }
    apply Nat.leb_gt in E2.
    destruct (included g.(sg_timestamp) incl) eqn:Ei.
    { destruct (IH incl n t) as [A [B C]]. repeat split; auto. }
    destruct (t <=? g.(sg_score)) eqn:Et.
    2: { destruct (IH incl n t) as [A [B C]]. repeat split; auto. }
    apply Z.leb_le in Et.
    destruct (IH (incl ++ [g.(sg_timestamp)]) (S n) t) as [A [B C]].
    split; [cbn [List.length]; lia|split].
    + constructor; [simpl; auto|exact B].
    + intros Hn. cbn [map]. rewrite map_app in C.
      replace (incl ++ o_timestamp (option_of g false false false) ::
               map o_timestamp (deviants r (incl ++ [sg_timestamp g]) (S n) t))
        with ((incl ++ [sg_timestamp g]) ++
               map o_timestamp (deviants r (incl ++ [sg_timestamp g]) (S n) t))
        by (rewrite <- app_assoc; reflexivity).
      apply C. cbn [map].
      apply (Permutation_NoDup (l := instant (sg_timestamp g) :: map instant incl)).
      * apply Permutation_cons_append.
      * constructor; [now apply not_included|exact Hn].
Qed.

End TimestampOptionsFacts.

Module TimestampOptionsShape.
Import Confidence TimestampOptions TimestampOptionsFacts.

(** The result of [build_timestamp_options], read off its last branch. *)
Lemma build_shape : forall cands m t o rest,
  build_timestamp_options cands m t = o :: rest ->
  exists v0 vs e bt h bs,
    filter (is_valid m) cands = v0 :: vs /\
    sort_by_time (map score_group (build_groups (v0 :: vs))) = e :: bt /\
    sort_by_score (map score_group (build_groups (v0 :: vs))) = h :: bs /\
    o = option_of e true (sg_eqb e h) true /\
    ((included h.(sg_timestamp) [e.(sg_timestamp)] = true /\
      rest = deviants (h :: bs) [e.(sg_timestamp)] 0 t) \/
     (included h.(sg_timestamp) [e.(sg_timestamp)] = false /\
      rest = option_of h false true false ::
             deviants (h :: bs) [e.(sg_timestamp); h.(sg_timestamp)] 0 t)).
Proof.
  intros cands m t o rest H. unfold build_timestamp_options in H.
  destruct cands as [|c cs]; [discriminate|].
  destruct (filter (is_valid m) (c :: cs)) as [|v0 vs] eqn:Ev; [discriminate|].
  destruct (sort_by_time (map score_group (build_groups (v0 :: vs)))) as [|e bt] eqn:Et;
    [discriminate|].
  destruct (sort_by_score (map score_group (build_groups (v0 :: vs)))) as [|h bs] eqn:Es;
    [discriminate|].
  exists v0, vs, e, bt, h, bs. split; [auto|split; [auto|split; [auto|]]].
  destruct (included h.(sg_timestamp) [e.(sg_timestamp)]) eqn:Ei; simpl in H;
    injection H as Ho Hr; split; auto.
Qed.

Lemma build_nonempty : forall cands m t,
  filter (is_valid m) cands <> [] -> build_timestamp_options cands m t <> [].
Proof.
  intros cands m t Hf. unfold build_timestamp_options.
  destruct cands as [|c cs]; [contradiction|].
  destruct (filter (is_valid m) (c :: cs)) as [|v0 vs] eqn:Ev; [contradiction|].
  pose proof (build_groups_nonempty v0 vs) as Hg.
  pose proof (sort_by_time_perm (map score_group (build_groups (v0 :: vs)))) as P1.
  pose proof (sort_by_score_perm (map score_group (build_groups (v0 :: vs)))) as P2.
  destruct (build_groups (v0 :: vs)) as [|g0 gr]; [contradiction|].
  destruct (sort_by_time _) as [|e bt]; [apply Permutation_sym, Permutation_nil in P1; discriminate|].
  destruct (sort_by_score _) as [|h bs]; [apply Permutation_sym, Permutation_nil in P2; discriminate|].
  destruct (negb _); discriminate.
Qed.

End TimestampOptionsShape.

Module TimestampOptionsExtras.
Import Confidence TimestampOptions TimestampOptionsFacts TimestampOptionsShape TimestampSamples.

(** [build_timestamp_options] returns no option exactly when no candidate
    reaches [min_year]; otherwise the list is not empty. *)
Theorem build_timestamp_options_empty_iff : forall cands min_year deviant_threshold,
  build_timestamp_options cands min_year deviant_threshold = [] <->
  Forall (fun c => is_valid min_year c = false) cands.
Proof.
  intros cands m t. split.
  - intros H. apply Forall_forall. intros c Hc.
    destruct (is_valid m c) eqn:E; [|reflexivity]. exfalso.
    apply (build_nonempty cands m t); [|exact H].
    intros Hf. assert (In c (filter (is_valid m) cands)) by (apply filter_In; auto).
    rewrite Hf in H0. destruct H0.
  - intros H. destruct (build_timestamp_options cands m t) as [|o rest] eqn:E; [reflexivity|].
    destruct (build_shape cands m t o rest E) as [v0 [vs [_ [_ [_ [_ [Ev _]]]]]]].
    assert (Hin : In v0 (filter (is_valid m) cands)) by (rewrite Ev; now left).
    apply filter_In in Hin as [Hin Hv]. rewrite Forall_forall in H.
    rewrite (H v0 Hin) in Hv. discriminate.
Qed.

(** The options: the first one, and only it, is the earliest and selected;
    every other one is the highest-scored group or scores at least the
    deviant threshold; there are at most four, at pairwise distinct
    instants. *)
Theorem build_timestamp_options_selection : forall cands min_year deviant_threshold o rest,
  build_timestamp_options cands min_year deviant_threshold = o :: rest ->
  o.(o_is_earliest) = true /\ o.(o_selected) = true /\
  Forall (fun o' => o'.(o_is_earliest) = false /\ o'.(o_selected) = false /\
                    (o'.(o_is_highest_scored) = true \/ deviant_threshold <= o'.(o_score))) rest /\
  (List.length rest <= 3)%nat /\
  NoDup (map (fun o' => instant o'.(o_timestamp)) (o :: rest)).
Proof.
  intros cands m t o rest H.
  destruct (build_shape cands m t o rest H)
    as [v0 [vs [e [bt [h [bs [_ [_ [_ [-> Hr]]]]]]]]]].
  split; [reflexivity|split; [reflexivity|]].
  destruct Hr as [[Hi ->]|[Hi ->]].
  - destruct (deviants_props (h :: bs) [e.(sg_timestamp)] 0 t) as [A [B C]].
    split; [|split; [lia|]].
    + eapply Forall_impl; [|exact B]. simpl. intros a [X [_ [Z W]]]. auto.
    + rewrite <- map_map. apply C. repeat constructor. intros [].
  - destruct (deviants_props (h :: bs) [e.(sg_timestamp); h.(sg_timestamp)] 0 t) as [A [B C]].
    split; [|split; [cbn [List.length]; lia|]].
    + constructor; [simpl; auto|].
      eapply Forall_impl; [|exact B]. simpl. intros a [X [_ [Z W]]]. auto.
    + rewrite <- map_map. apply C. constructor.
      * apply (not_included _ _ ) in Hi. intros [E|[]]. apply Hi. simpl. left. symmetry; exact E.
      * repeat constructor. intros [].
Qed.

Lemma build_timestamp_options_selection_witness :
  exists o rest, build_timestamp_options drift_example 2000 3 = o :: rest /\
  o.(o_is_earliest) = true /\ o.(o_selected) = true /\
  Forall (fun o' => o'.(o_is_earliest) = false /\ o'.(o_selected) = false /\
                    (o'.(o_is_highest_scored) = true \/ 3 <= o'.(o_score))) rest /\
  (List.length rest <= 3)%nat /\
  NoDup (map (fun o' => instant o'.(o_timestamp)) (o :: rest)).
Proof.
  destruct (build_timestamp_options drift_example 2000 3) as [|o rest] eqn:E.
  - vm_compute in E. discriminate.
  - exists o, rest. split; [reflexivity|].
    exact (build_timestamp_options_selection drift_example 2000 3 o rest E).
Defined.

(** The selected option carries the timestamp of a valid candidate, at most
    the 30-second tolerance after every valid candidate: never earlier than
    the earliest valid candidate, and at most 30 s later. *)
Theorem build_timestamp_options_selected_bound : forall cands min_year deviant_threshold o rest,
  build_timestamp_options cands min_year deviant_threshold = o :: rest ->
  (exists c, In c cands /\ is_valid min_year c = true /\ o.(o_timestamp) = fst c) /\
  forall c, In c cands -> is_valid min_year c = true ->
    instant o.(o_timestamp) <= instant (fst c) + tolerance.
Proof.
  intros cands m t o rest H.
  destruct (build_shape cands m t o rest H)
    as [v0 [vs [e [bt [h [bs [Ev [Et [_ [-> _]]]]]]]]]].
  destruct (sort_by_time_head _ e bt Et) as [He Hmin].
  destruct (build_groups_ts (v0 :: vs) []) as [ex [A [B C]]].
  fold (build_groups (v0 :: vs)) in A, C. simpl in A.
  simpl. split.
  - apply in_map_iff in He as [g [Eg Hg]].
    assert (Ht : In g.(g_timestamp) ex) by (rewrite <- A; now apply in_map).
    destruct (B _ Ht) as [c [Hc Ec]]. rewrite <- Ev in Hc.
    apply filter_In in Hc as [Hc Hv]. exists c. split; [exact Hc|split; [exact Hv|]].
    rewrite <- Eg. exact Ec.
  - intros c Hc Hv.
    assert (Hc' : In c (v0 :: vs)) by (rewrite <- Ev; apply filter_In; auto).
    destruct (C c Hc') as [g [Hg W]].
    pose proof (Hmin (score_group g) (in_map _ _ _ Hg)) as L. simpl in L.
    unfold within in W. apply Z.leb_le in W. lia.
Qed.

Lemma build_timestamp_options_selected_bound_witness :
  exists o rest, build_timestamp_options drift_example 2000 3 = o :: rest /\
  instant o.(o_timestamp) <= instant (fst (mkDT 2024 ConfSamples.t0, "EXIF:DateTimeOriginal")) + tolerance.
Proof.
  destruct (build_timestamp_options drift_example 2000 3) as [|o rest] eqn:E.
  - vm_compute in E. discriminate.
  - exists o, rest. split; [reflexivity|].
    apply (proj2 (build_timestamp_options_selected_bound drift_example 2000 3 o rest E)).
    + simpl; auto.
    + reflexivity.
Defined.

End TimestampOptionsExtras.

Module AccumulateFacts.
Import Accumulate.

Lemma key_eqb_eq : forall a b, key_eqb a b = true <-> a = b.
Proof.
  intros [a1 a2] [b1 b2]. unfold key_eqb. simpl.
  rewrite andb_true_iff, !String.eqb_eq. split; [intros [-> ->]; reflexivity|].
  intros E; injection E as -> ->; auto.
Qed.

Lemma mem_key_in : forall k seen, mem_key k seen = true <-> In k seen.
Proof.
  intros k seen. unfold mem_key. rewrite existsb_exists. split.
  - intros [x [Hx E]]. apply key_eqb_eq in E. now subst.
  - intros H. exists k. split; [exact H|]. now apply key_eqb_eq.
Qed.

Lemma nodup_app_intro : forall {A : Type} (l1 l2 : list A), NoDup l1 -> NoDup l2 ->
  (forall x, In x l2 -> ~ In x l1) -> NoDup (l1 ++ l2).
Proof.
  intros A l1 l2 H1; induction H1 as [|x l1 Hx H1 IH]; intros H2 Hd; simpl; [exact H2|].
  constructor.
  - intros Hin. apply in_app_or in Hin as [Hin|Hin]; [contradiction|].
    apply (Hd x Hin). now left.
  - apply IH; [exact H2|]. intros y Hy Hy1. apply (Hd y Hy). now right.
Qed.

(** What the loop over one discarded file appends. *)
Lemma merge_cands_inv : forall cs ex n,
  let '(seen', ex', n') := merge_cands cs (map cand_key ex, ex, n) in
  exists add, ex' = ex ++ add /\ seen' = map cand_key ex' /\ n' = (n + List.length add)%nat /\
    NoDup (map cand_key add) /\
    (forall c, In c add -> ~ In (cand_key c) (map cand_key ex) /\ In c cs) /\
    (forall c, In c cs -> In (cand_key c) seen').
Proof.
  induction cs as [|c r IH]; intros ex n; cbn [merge_cands].
  - exists []. rewrite app_nil_r.
    split; [reflexivity|split; [reflexivity|split; [simpl; lia|split; [constructor|split; [intros c []|intros c []]]]]].
  - destruct (mem_key (cand_key c) (map cand_key ex)) eqn:Em.
    + pose proof (IH ex n) as H.
      destruct (merge_cands r (map cand_key ex, ex, n)) as [[seen' ex'] n'].
      destruct H as [add [A [B [C [D [F G]]]]]].
      exists add. split; [exact A|split; [exact B|split; [exact C|split; [exact D|split]]]].
      * intros c' Hc'. destruct (F c' Hc') as [X Y]. split; [exact X|now right].
      * intros c' [<-|Hc']; [|now apply G].
        apply mem_key_in in Em. rewrite B, A, map_app. apply in_or_app; now left.
    + assert (Hs : map cand_key ex ++ [cand_key c] = map cand_key (ex ++ [c]))
        by (rewrite map_app; reflexivity).
      rewrite Hs. pose proof (IH (ex ++ [c]) (S n)) as H.
      destruct (merge_cands r (map cand_key (ex ++ [c]), ex ++ [c], S n)) as [[seen' ex'] n'].
      destruct H as [add [A [B [C [D [F G]]]]]].
      assert (Hn : ~ In (cand_key c) (map cand_key ex)) by
        (intros Hin; apply mem_key_in in Hin; congruence).
      exists (c :: add). split; [rewrite A, <- app_assoc; reflexivity|].
      split; [exact B|split; [simpl; lia|split]].
      * simpl. constructor; [|exact D].
        intros Hin. apply in_map_iff in Hin as [c' [Ek Hc']].
        destruct (F c' Hc') as [X _]. apply X. rewrite map_app, Ek.
        apply in_or_app; right; now left.
      * split.
        -- intros c' [<-|Hc']; [split; [exact Hn|now left]|].
           destruct (F c' Hc') as [X Y]. split; [|now right].
           intros Hin; apply X. rewrite map_app; apply in_or_app; now left.
        -- intros c' [<-|Hc']; [|now apply G].
           rewrite B, A, !map_app. apply in_or_app; left. apply in_or_app; right; now left.
Qed.

(** The same over all the discarded files. *)
Lemma merge_files_inv : forall ds ex n,
  let '(seen', ex', n') := fold_left merge_file ds (map cand_key ex, ex, n) in
  exists add, ex' = ex ++ add /\ seen' = map cand_key ex' /\ n' = (n + List.length add)%nat /\
    NoDup (map cand_key add) /\
    (forall c, In c add -> ~ In (cand_key c) (map cand_key ex) /\
                           exists cs, In (ColList cs) ds /\ In c cs) /\
    (forall cs c, In (ColList cs) ds -> In c cs -> In (cand_key c) seen').
Proof.
  induction ds as [|d r IH]; intros ex n; cbn [fold_left].
  - exists []. rewrite app_nil_r.
    split; [reflexivity|split; [reflexivity|split; [simpl; lia|split; [constructor|split; [intros c []|intros cs c []]]]]].
  - assert (Hstep : exists ex1 n1, merge_file (map cand_key ex, ex, n) d = (map cand_key ex1, ex1, n1) /\
              exists add1, ex1 = ex ++ add1 /\ n1 = (n + List.length add1)%nat /\
                NoDup (map cand_key add1) /\
                (forall c, In c add1 -> ~ In (cand_key c) (map cand_key ex) /\
                                        exists cs, d = ColList cs /\ In c cs) /\
                (forall cs c, d = ColList cs -> In c cs -> In (cand_key c) (map cand_key ex1))).
    { destruct d as [| |cs]; cbn [merge_file].
      1, 2: exists ex, n; split; [reflexivity|]; exists []; rewrite app_nil_r;
            split; [reflexivity|split; [simpl; lia|split; [constructor|split; [intros c []|discriminate]]]].
      pose proof (merge_cands_inv cs ex n) as H.
      destruct (merge_cands cs (map cand_key ex, ex, n)) as [[seen' ex'] n'].
      destruct H as [add [A [B [C [D [F G]]]]]].
      exists ex', n'. split; [now rewrite B|]. exists add.
      split; [exact A|split; [exact C|split; [exact D|split]]].
      - intros c Hc. destruct (F c Hc) as [X Y].
        split; [exact X|exists cs; split; [reflexivity|exact Y]].
      - intros cs' c E Hc. injection E as <-. rewrite <- B. now apply G. }
    destruct Hstep as [ex1 [n1 [E1 [add1 [A1 [N1 [D1 [F1 G1]]]]]]]].
    rewrite E1. pose proof (IH ex1 n1) as H.
    destruct (fold_left merge_file r (map cand_key ex1, ex1, n1)) as [[seen' ex'] n'].
    destruct H as [add [A [B [C [D [F G]]]]]].
    exists (add1 ++ add). split; [rewrite A, A1, app_assoc; reflexivity|].
    split; [exact B|split; [rewrite C, N1, length_app; lia|split]].
    + rewrite map_app. apply nodup_app_intro; [exact D1|exact D|].
      intros k Hk Hk1. apply in_map_iff in Hk as [c [Ek Hc]].
      destruct (F c Hc) as [X _]. apply X. rewrite A1, map_app, Ek. apply in_or_app; now right.
    + split.
      * intros c Hc. apply in_app_or in Hc as [Hc|Hc].
        -- destruct (F1 c Hc) as [X [cs [Ed Hcs]]]. split; [exact X|].
           exists cs. split; [left; now rewrite Ed|exact Hcs].
        -- destruct (F c Hc) as [X [cs [Hd Hcs]]]. split.
           ++ intros Hin; apply X. rewrite A1, map_app; apply in_or_app; now left.
           ++ exists cs. split; [now right|exact Hcs].
      * intros cs c [Ed|Hd] Hc; [|now apply (G cs c)].
        rewrite B, A, map_app. apply in_or_app; left. now apply (G1 cs c).
Qed.

(** Nothing is appended when every candidate is already seen. *)
Lemma merge_cands_seen : forall cs acc,
  (forall c, In c cs -> In (cand_key c) (fst (fst acc))) -> merge_cands cs acc = acc.
Proof.
  induction cs as [|c r IH]; intros [[seen ex] n] H; [reflexivity|]. cbn [merge_cands].
  replace (mem_key (cand_key c) seen) with true.
  - apply IH. intros c' Hc'. apply H. now right.
  - symmetry. apply mem_key_in. apply (H c). now left.
Qed.

Lemma merge_files_seen : forall ds acc,
  (forall cs c, In (ColList cs) ds -> In c cs -> In (cand_key c) (fst (fst acc))) ->
  fold_left merge_file ds acc = acc.
Proof.
  induction ds as [|d r IH]; intros acc H; [reflexivity|]. cbn [fold_left].
  replace (merge_file acc d) with acc.
  - apply IH. intros cs c Hd Hc. apply (H cs c); [now right|exact Hc].
  - destruct d as [| |cs]; [reflexivity|reflexivity|]. cbn [merge_file].
    symmetry. apply merge_cands_seen. intros c Hc. apply (H cs c); [now left|exact Hc].
Qed.

Lemma accumulate_metadata_spec : forall kept ds,
  exists add,
    ((add = [] /\ accumulate_metadata kept ds = kept) \/
     (add <> [] /\ accumulate_metadata kept ds = ColList (parse_col kept ++ add))) /\
    NoDup (map cand_key add) /\
    (forall c, In c add -> ~ In (cand_key c) (map cand_key (parse_col kept)) /\
                           exists cs, In (ColList cs) ds /\ In c cs) /\
    (forall cs c, In (ColList cs) ds -> In c cs ->
       In (cand_key c) (map cand_key (parse_col kept ++ add))).
Proof.
  intros kept ds. unfold accumulate_metadata.
  pose proof (merge_files_inv ds (parse_col kept) O) as H.
  destruct (fold_left merge_file ds (map cand_key (parse_col kept), parse_col kept, O))
    as [[seen' ex'] n'].
  destruct H as [add [A [B [C [D [F G]]]]]].
  exists add. split; [|split; [exact D|split; [exact F|]]].
  - destruct add as [|a add'].
    + left. split; [reflexivity|]. rewrite C. reflexivity.
    + right. split; [discriminate|]. rewrite C. simpl. now rewrite A.
  - intros cs c Hd Hc. rewrite <- A, <- B. now apply (G cs c).
Qed.

End AccumulateFacts.

Module AccumulateExtras.
Import Accumulate AccumulateFacts.

(** [accumulate_metadata] only appends: the kept file's column is unchanged
    when nothing is new, and otherwise becomes its parsed candidates followed
    by the added ones; the added ones come from the discarded files' lists,
    have pairwise distinct keys, none among the kept file's keys, and every
    candidate of a discarded file ends up with its key present. *)
Theorem accumulate_metadata_appends : forall kept discarded_files,
  exists added,
    ((added = [] /\ accumulate_metadata kept discarded_files = kept) \/
     (added <> [] /\ accumulate_metadata kept discarded_files = ColList (parse_col kept ++ added))) /\
    NoDup (map cand_key added) /\
    (forall c, In c added -> ~ In (cand_key c) (map cand_key (parse_col kept)) /\
                             exists cs, In (ColList cs) discarded_files /\ In c cs) /\
    (forall cs c, In (ColList cs) discarded_files -> In c cs ->
       In (cand_key c) (map cand_key (parse_col kept ++ added))).
Proof. exact accumulate_metadata_spec. Qed.

(** Merging the same discarded files a second time changes nothing. *)
Theorem accumulate_metadata_idempotent : forall kept discarded_files,
  accumulate_metadata (accumulate_metadata kept discarded_files) discarded_files =
  accumulate_metadata kept discarded_files.
Proof.
  intros kept ds.
  destruct (accumulate_metadata_spec kept ds) as [add [[[_ E]|[_ E]] [_ [_ G]]]];
    rewrite E; [exact E|].
  unfold accumulate_metadata at 1. cbn [parse_col].
  rewrite merge_files_seen; [reflexivity|]. simpl. exact G.
Qed.

End AccumulateExtras.

Module CollisionFacts.
Import Collision.

Section Counters.
Variable path_exists : PathParts -> bool.

Lemma try_counters_some : forall p n c q, try_counters path_exists p n c = Some q ->
  exists k, c <= k < c + Z.of_nat n /\ q = candidate p k /\ path_exists q = false /\
    forall j, c <= j < k -> path_exists (candidate p j) = true.
Proof.
  intros p n; induction n as [|n IH]; intros c q H; cbn [try_counters] in H; [discriminate|].
  destruct (path_exists (candidate p c)) eqn:E; simpl in H.
  - destruct (IH (c + 1) q H) as [k [K [Q [F J]]]]. exists k.
    split; [lia|split; [exact Q|split; [exact F|]]].
    intros j Hj. destruct (Z.eq_dec j c) as [->|Hne]; [exact E|]. apply J. lia.
  - injection H as <-. exists c. split; [lia|split; [reflexivity|split; [exact E|]]].
    intros j Hj. lia.
Qed.

Lemma try_counters_none : forall p n c, try_counters path_exists p n c = None <->
  forall j, c <= j < c + Z.of_nat n -> path_exists (candidate p j) = true.
Proof.
  intros p n; induction n as [|n IH]; intros c; cbn [try_counters].
  - split; [intros _ j Hj; lia|reflexivity].
  - destruct (path_exists (candidate p c)) eqn:E; simpl.
    + rewrite IH. split; intros H j Hj.
      * destruct (Z.eq_dec j c) as [->|Hne]; [exact E|]. apply H. lia.
      * apply H. lia.
    + split; [discriminate|]. intros H. rewrite H in E; [discriminate|lia].
Qed.

End Counters.

Lemma string_app_inv_head : forall s a b, (s ++ a)%string = (s ++ b)%string -> a = b.
Proof.
  induction s as [|ch s IH]; intros a b H; [exact H|]. simpl in H. injection H as H. now apply IH.
Qed.

Lemma digit_inj : forall a b, 0 <= a <= 9 -> 0 <= b <= 9 -> digit a = digit b -> a = b.
Proof.
  intros a b Ha Hb H. unfold digit in H.
  apply (f_equal nat_of_ascii) in H. rewrite !nat_ascii_embedding in H by lia. lia.
Qed.

Lemma pad3_digits : forall k, 0 <= k <= 999 ->
  0 <= k / 100 <= 9 /\ 0 <= (k / 10) mod 10 <= 9 /\ 0 <= k mod 10 <= 9 /\
  k = 100 * (k / 100) + 10 * ((k / 10) mod 10) + k mod 10.
Proof.
  intros k Hk.
  pose proof (Z.div_mod k 10 ltac:(lia)) as E1.
  pose proof (Z.div_mod (k / 10) 10 ltac:(lia)) as E2.
  rewrite Z.div_div in E2 by lia. simpl (10 * 10) in E2.
  pose proof (Z.mod_pos_bound k 10 ltac:(lia)).
  pose proof (Z.mod_pos_bound (k / 10) 10 ltac:(lia)).
  assert (0 <= k / 100 <= 9).
  { split; [apply Z.div_pos; lia|]. apply Z.lt_succ_r. apply Z.div_lt_upper_bound; lia. }
  repeat split; lia.
Qed.

Lemma pad3_inj : forall j k, 0 <= j <= 999 -> 0 <= k <= 999 -> pad3 j = pad3 k -> j = k.
Proof.
  intros j k Hj Hk H. unfold pad3 in H. injection H as H1 H2 H3.
  destruct (pad3_digits j Hj) as [A1 [B1 [C1 D1]]].
  destruct (pad3_digits k Hk) as [A2 [B2 [C2 D2]]].
  apply digit_inj in H1, H2, H3; try assumption. lia.
Qed.

Lemma if_negb_true : forall {A : Type} (a b : A), (if negb true then a else b) = b.
Proof. reflexivity. Qed.

Lemma if_negb_false : forall {A : Type} (a b : A), (if negb false then a else b) = a.
Proof. reflexivity. Qed.

(** The two branches of [resolve_collision], stated without unfolding the
    999 rounds of [try_counters]. *)
Lemma resolve_taken : forall ex p, ex p = true ->
  resolve_collision ex p = try_counters ex p 999 1.
Proof. intros ex p E. unfold resolve_collision. rewrite E. apply if_negb_true. Qed.

Lemma resolve_free : forall ex p, ex p = false -> resolve_collision ex p = Some p.
Proof. intros ex p E. unfold resolve_collision. rewrite E. apply if_negb_false. Qed.

End CollisionFacts.

Module CollisionExtras.
Import Collision CollisionFacts.

(** A path returned by [resolve_collision] does not exist; it is the
    requested path when that is free, and otherwise the first free
    [stem_NNN] candidate, the requested path and all smaller counters being
    taken. *)
Theorem resolve_collision_first_free : forall path_exists p q,
  resolve_collision path_exists p = Some q ->
  path_exists q = false /\
  (q = p \/
   (path_exists p = true /\
    exists k, 1 <= k <= 999 /\ q = candidate p k /\
      forall j, 1 <= j < k -> path_exists (candidate p j) = true)).
Proof.
  intros ex p q H. destruct (ex p) eqn:E.
  - rewrite (resolve_taken ex p E) in H. destruct (try_counters_some ex p 999 1 q H) as [k [K [Q [F J]]]]. clear H.
    split; [exact F|right; split; [reflexivity|]].
    exists k. change (Z.of_nat 999) with 999 in K. split; [lia|split; [exact Q|exact J]].
  - rewrite (resolve_free ex p E) in H. injection H as <-. split; [exact E|now left].
Qed.

Lemma resolve_collision_first_free_witness :
  resolve_collision (fun q => String.eqb q.(stem) "a" || String.eqb q.(stem) "a_001")
    (mkPath "out" "a" ".jpg") = Some (mkPath "out" "a_002" ".jpg") /\
  (fun q => String.eqb q.(stem) "a" || String.eqb q.(stem) "a_001") (mkPath "out" "a_002" ".jpg")
    = false.
Proof.
  assert (E : resolve_collision (fun q => String.eqb q.(stem) "a" || String.eqb q.(stem) "a_001")
    (mkPath "out" "a" ".jpg") = Some (mkPath "out" "a_002" ".jpg")) by (vm_compute; reflexivity).
  split; [exact E|].
  exact (proj1 (resolve_collision_first_free _ _ _ E)).
Defined.

(** [resolve_collision] fails (the [ValueError]) exactly when the requested
    path and all 999 candidates [stem_001] to [stem_999] exist. *)
Theorem resolve_collision_fails_iff : forall path_exists p,
  resolve_collision path_exists p = None <->
  path_exists p = true /\ forall k, 1 <= k <= 999 -> path_exists (candidate p k) = true.
Proof.
  intros ex p. destruct (ex p) eqn:E.
  - rewrite (resolve_taken ex p E), try_counters_none. split.
    + intros H. split; [reflexivity|]. intros k Hk. apply H. change (Z.of_nat 999) with 999. lia.
    + intros [_ H] j Hj. apply H. change (Z.of_nat 999) with 999 in Hj. lia.
  - rewrite (resolve_free ex p E). split; [discriminate|intros [H _]; discriminate].
Qed.

(** The counters 1 to 999 give pairwise different candidate paths: the
    three-digit [{counter:03d}] suffix determines the counter. *)
Theorem candidate_injective : forall p j k, 1 <= j <= 999 -> 1 <= k <= 999 ->
  candidate p j = candidate p k -> j = k.
Proof.
  intros p j k Hj Hk H. unfold candidate in H. injection H as H.
  apply string_app_inv_head in H.
  assert (H2 : pad3 j = pad3 k) by (apply (string_app_inv_head "_"); exact H).
  apply pad3_inj; [lia|lia|exact H2].
Qed.

Lemma candidate_injective_witness :
  (1 <= 7 <= 999 /\ 1 <= 7 <= 999 /\ candidate (mkPath "out" "a" ".jpg") 7 = candidate (mkPath "out" "a" ".jpg") 7) /\ 7 = 7.
Proof.
  assert (H : 1 <= 7 <= 999 /\ 1 <= 7 <= 999 /\
              candidate (mkPath "out" "a" ".jpg") 7 = candidate (mkPath "out" "a" ".jpg") 7)
    by (split; [lia|split; [lia|reflexivity]]).
  split; [exact H|].
  destruct H as [A [B C]]. exact (candidate_injective _ 7 7 A B C).
Defined.

End CollisionExtras.

Module ReviewOpsFacts.
Import Model ModelFacts Aux ExactGroupsFacts Review ReviewOps ReviewSteps.

(** Counting with [filter]. *)
Lemma filter_length_map : forall (P Q : File -> bool) (h : File -> File) l,
  (forall x, In x l -> P (h x) = Q x) ->
  List.length (filter P (map h l)) = List.length (filter Q l).
Proof.
  intros P Q h l H; induction l as [|x r IH]; [reflexivity|]. simpl.
  rewrite (H x (or_introl eq_refl)).
  destruct (Q x); simpl; rewrite IH; auto; intros y Hy; apply H; now right.
Qed.

Lemma update_view : forall (A : Type) (k : File -> A) i g d,
  (forall f, k (g f) = k f) -> map k (update i g d) = map k d.
Proof.
  intros A k i g d Hg. unfold update. rewrite map_map. apply map_ext.
  intros f. destruct (f.(id) =? i); [apply Hg|reflexivity].
Qed.

Lemma update_ids : forall i g d, id_preserving g -> map id (update i g d) = map id d.
Proof. intros i g d Hg. apply update_view. exact Hg. Qed.

Lemma forall2_diag : forall (R : File -> File -> Prop) l, (forall a, R a a) -> Forall2 R l l.
Proof. intros R l H; induction l; constructor; auto. Qed.

Lemma forall2_map : forall (R : File -> File -> Prop) (h : File -> File) l,
  (forall a, In a l -> R a (h a)) -> Forall2 R l (map h l).
Proof.
  intros R h l H; induction l as [|a r IH]; constructor; [apply H; now left|].
  apply IH. intros b Hb; apply H; now right.
Qed.

Lemma forall2_compose : forall (R1 R2 R3 : File -> File -> Prop) l1 l2 l3,
  Forall2 R1 l1 l2 -> Forall2 R2 l2 l3 -> (forall a b c, R1 a b -> R2 b c -> R3 a c) ->
  Forall2 R3 l1 l3.
Proof.
  intros R1 R2 R3 l1 l2 l3 H1; revert l3.
  induction H1 as [|a b l1 l2 Hab H1 IH]; intros l3 H2 H; inversion H2; subst; constructor; eauto.
Qed.

Section Cleanup.
Variable gid : File -> option string.
Variable clear : File -> File.
Variable scope : File -> bool.
Hypothesis clear_gid : forall f, gid (clear f) = None.
Hypothesis clear_id : id_preserving clear.
Hypothesis scope_id : forall f f', f.(id) = f'.(id) -> scope f = scope f'.

Local Abbreviation member_in := (ReviewSteps.member_in gid scope).
Local Abbreviation cleanup_step := (ReviewSteps.cleanup_step gid clear scope).

Lemma member_in_clear : forall g f, member_in g (clear f) = false.
Proof. intros g f. unfold ReviewSteps.member_in, is_member. now rewrite clear_gid. Qed.

Lemma member_in_gid : forall g f, member_in g f = true -> gid f = Some g.
Proof.
  intros g f H. unfold ReviewSteps.member_in, is_member in H.
  destruct (gid f) as [g'|]; [|discriminate]. apply andb_true_iff in H as [H _].
  apply andb_true_iff in H as [H _]. apply String.eqb_eq in H. now subst.
Qed.

(** Clearing the lone member of [g] leaves [g] empty. *)
Lemma clear_lone : forall d g f, NoDup (map id d) -> filter (member_in g) d = [f] ->
  filter (member_in g) (update f.(id) clear d) = [].
Proof.
  intros d g f Hn Hf.
  assert (Hin : In f d) by (assert (In f (filter (member_in g) d)) by (rewrite Hf; now left);
                            apply filter_In in H; tauto).
  assert (Hx : forall x, In x d -> member_in g (if x.(id) =? f.(id) then clear x else x) = false).
  { intros x Hx. destruct (x.(id) =? f.(id)) eqn:E; [apply member_in_clear|].
    destruct (member_in g x) eqn:M; [|reflexivity].
    assert (In x (filter (member_in g) d)) by (apply filter_In; auto).
    rewrite Hf in H. destruct H as [<-|[]]. now rewrite Z.eqb_refl in E. }
  unfold update. clear Hf Hn Hin. induction d as [|x r IH]; [reflexivity|]. simpl.
  rewrite (Hx x (or_introl eq_refl)). apply IH. intros y Hy. apply Hx. now right.
Qed.

(** Clearing a member of another group does not change the count of [g]. *)
Lemma clear_other : forall d g f, NoDup (map id d) -> In f d -> member_in g f = false ->
  List.length (filter (member_in g) (update f.(id) clear d)) =
  List.length (filter (member_in g) d).
Proof.
  intros d g f Hn Hf Hm. unfold update. apply filter_length_map.
  intros x Hx. destruct (x.(id) =? f.(id)) eqn:E; [|reflexivity].
  apply Z.eqb_eq in E. rewrite (nodup_id_eq d x f Hn Hx Hf E), Hm. apply member_in_clear.
Qed.


Lemma cleanup_step_ids : forall d g, map id (cleanup_step d g) = map id d.
Proof.
  intros d g. unfold ReviewSteps.cleanup_step.
  destruct (filter (fun f => is_member gid g f && scope f) d) as [|f [|f' l]]; auto.
  apply update_ids. exact clear_id.
Qed.

Lemma cleanup_ids : forall gs d, map id (cleanup_orphans gid clear scope gs d) = map id d.
Proof.
  intros gs; induction gs as [|g r IH]; intros d; [reflexivity|].
  change (cleanup_orphans gid clear scope (g :: r) d)
    with (cleanup_orphans gid clear scope r (cleanup_step d g)). rewrite IH. unfold ReviewSteps.cleanup_step.
  destruct (filter _ d) as [|f [|f' l]]; auto. apply update_ids. exact clear_id.
Qed.

Lemma cleanup_view : forall (A : Type) (k : File -> A), (forall f, k (clear f) = k f) ->
  forall gs d, map k (cleanup_orphans gid clear scope gs d) = map k d.
Proof.
  intros A k Hk gs; induction gs as [|g r IH]; intros d; [reflexivity|].
  change (cleanup_orphans gid clear scope (g :: r) d)
    with (cleanup_orphans gid clear scope r (cleanup_step d g)). rewrite IH. unfold ReviewSteps.cleanup_step.
  destruct (filter _ d) as [|f [|f' l]]; auto. now apply update_view.
Qed.

Lemma cleanup_keeps_not_one : forall gs d g, NoDup (map id d) ->
  List.length (filter (member_in g) d) <> 1%nat ->
  List.length (filter (member_in g) (cleanup_orphans gid clear scope gs d)) <> 1%nat.
Proof.
  intros gs; induction gs as [|g' r IH]; intros d g Hn Hc; [exact Hc|].
  change (cleanup_orphans gid clear scope (g' :: r) d)
    with (cleanup_orphans gid clear scope r (cleanup_step d g')). apply IH.
  - rewrite cleanup_step_ids. exact Hn.
  - unfold ReviewSteps.cleanup_step. fold (member_in g') in *.
    destruct (filter (member_in g') d) as [|f [|f' l]] eqn:E; auto.
    assert (Hf : In f d) by (assert (In f (filter (member_in g') d)) by (rewrite E; now left);
                             apply filter_In in H; tauto).
    destruct (String.eqb g g') eqn:Eg.
    + apply String.eqb_eq in Eg; subst g'. rewrite E in Hc. simpl in Hc. lia.
    + rewrite clear_other; auto.
      assert (Hm : member_in g' f = true) by
        (assert (In f (filter (member_in g') d)) by (rewrite E; now left);
         apply filter_In in H; tauto).
      apply member_in_gid in Hm. destruct (member_in g f) eqn:M; [|reflexivity].
      apply member_in_gid in M. rewrite Hm in M. injection M as M. subst.
      now rewrite String.eqb_refl in Eg.
Qed.

(** After the cleanup no listed group has exactly one in-scope member left. *)
Lemma cleanup_no_lone : forall gs d g, NoDup (map id d) -> In g gs ->
  List.length (filter (member_in g) (cleanup_orphans gid clear scope gs d)) <> 1%nat.
Proof.
  intros gs; induction gs as [|g' r IH]; intros d g Hn Hg; [destruct Hg|].
  change (cleanup_orphans gid clear scope (g' :: r) d)
    with (cleanup_orphans gid clear scope r (cleanup_step d g')).
  assert (Hn' : NoDup (map id (cleanup_step d g'))).
  { rewrite cleanup_step_ids. exact Hn. }
  destruct Hg as [<-|Hg]; [|now apply IH].
  apply cleanup_keeps_not_one; [exact Hn'|].
  unfold ReviewSteps.cleanup_step. fold (member_in g').
  destruct (filter (member_in g') d) as [|f [|f' l]] eqn:E.
  - rewrite E. discriminate.
  - rewrite (clear_lone d g' f Hn E). discriminate.
  - rewrite E. simpl. lia.
Qed.

(** Each row is kept, or cleared when it was a member of a listed group. *)
Lemma cleanup_rows : forall gs d, NoDup (map id d) ->
  Forall2 (fun a b => b = a \/ (b = clear a /\ exists g, In g gs /\ gid a = Some g))
    d (cleanup_orphans gid clear scope gs d).
Proof.
  intros gs; induction gs as [|g r IH]; intros d Hn.
  - apply forall2_diag. intros a; now left.
  - change (cleanup_orphans gid clear scope (g :: r) d)
      with (cleanup_orphans gid clear scope r (cleanup_step d g)).
    assert (Hn' : NoDup (map id (cleanup_step d g))).
    { rewrite cleanup_step_ids. exact Hn. }
    pose proof (IH _ Hn') as F2.
    assert (F1 : Forall2 (fun a b => b = a \/ (b = clear a /\ gid a = Some g)) d (cleanup_step d g)).
    { unfold ReviewSteps.cleanup_step. fold (member_in g).
      destruct (filter (member_in g) d) as [|f [|f' l]] eqn:E.
      1, 3: apply forall2_diag; intros a; now left.
      assert (Hm : member_in g f = true) by
        (assert (In f (filter (member_in g) d)) by (rewrite E; now left);
         apply filter_In in H; tauto).
      apply member_in_gid in Hm.
      assert (Hf : In f d) by (assert (In f (filter (member_in g) d)) by (rewrite E; now left);
                               apply filter_In in H; tauto).
      unfold update. apply forall2_map. intros x Hx.
      destruct (x.(id) =? f.(id)) eqn:Ex; [|now left]. right. split; [reflexivity|].
      apply Z.eqb_eq in Ex. now rewrite (nodup_id_eq d x f Hn Hx Hf Ex). }
    apply (forall2_compose _ _ _ d (cleanup_step d g) _ F1 F2). intros a b c Hab Hbc.
    destruct Hab as [->|[-> Ha]].
    + destruct Hbc as [->|[-> [g' [Hg' Hb]]]]; [now left|right; split; [reflexivity|]].
      exists g'; split; [now right|exact Hb].
    + destruct Hbc as [->|[-> [g' [Hg' Hb]]]].
      * right. split; [reflexivity|]. exists g; split; [now left|exact Ha].
      * rewrite clear_gid in Hb. discriminate.
Qed.

End Cleanup.

(** [add_set] *)
Lemma add_set_in : forall x y s, In y (add_set String.eqb x s) <-> y = x \/ In y s.
Proof.
  intros x y s. unfold add_set. destruct (existsb (String.eqb x) s) eqn:E.
  - split; [now right|]. intros [->|H]; [|exact H].
    apply existsb_exists in E as [z [Hz Ez]]. apply String.eqb_eq in Ez. now subst.
  - rewrite in_app_iff. simpl. split; intros [H|H]; auto; destruct H as [H|[]]; auto.
Qed.

End ReviewOpsFacts.

Module ReviewLoopFacts.
Import Model ModelFacts Aux ExactGroupsFacts Review ReviewOps ReviewSteps ReviewOpsFacts.

Lemma get_map : forall h d i, id_preserving h -> get (map h d) i = option_map h (get d i).
Proof.
  intros h d i Hh. unfold get. induction d as [|x r IH]; [reflexivity|]. simpl.
  rewrite Hh. destruct (x.(id) =? i); [reflexivity|exact IH].
Qed.

Lemma get_none : forall d i f, get d i = None -> In f d -> f.(id) <> i.
Proof.
  intros d i f H Hf E. unfold get in H. eapply find_none in H; [|exact Hf].
  rewrite E, Z.eqb_refl in H. discriminate.
Qed.

Lemma get_nodup_in : forall d f, NoDup (map id d) -> In f d -> get d f.(id) = Some f.
Proof.
  intros d f Hn Hf. unfold get.
  destruct (find (fun x => x.(id) =? f.(id)) d) as [x|] eqn:E.
  - apply find_some in E as [Hx Ex]. apply Z.eqb_eq in Ex. f_equal.
    exact (nodup_id_eq d x f Hn Hx Hf Ex).
  - eapply find_none in E; [|exact Hf]. rewrite Z.eqb_refl in E. discriminate.
Qed.

Lemma len_filter_ext : forall (P Q : File -> bool) l, (forall x, In x l -> P x = Q x) ->
  List.length (filter P l) = List.length (filter Q l).
Proof. intros P Q l H. now rewrite (filter_ext_in P Q l H). Qed.

Lemma count_one : forall (P P' : File -> bool) f l, NoDup (map id l) -> In f l ->
  (forall x, In x l -> x.(id) <> f.(id) -> P' x = P x) -> P f = false -> P' f = true ->
  List.length (filter P' l) = S (List.length (filter P l)).
Proof.
  intros P P' f l; induction l as [|x r IH]; intros Hn Hf Hx Pf Pf'; [destruct Hf|].
  simpl in Hn. inversion Hn as [|? ? Hnot Hn2]; subst.
  destruct Hf as [<-|Hf].
  - simpl. rewrite Pf, Pf'. simpl. f_equal.
    apply len_filter_ext. intros y Hy. apply Hx; [now right|].
    intros E. apply Hnot. rewrite <- E. now apply in_map.
  - simpl. assert (Hxf : x.(id) <> f.(id)) by (intros E; apply Hnot; rewrite E; now apply in_map).
    rewrite (Hx x (or_introl eq_refl) Hxf).
    assert (IH' : List.length (filter P' r) = S (List.length (filter P r))).
    { apply IH; auto. intros y Hy; apply Hx; now right. }
    destruct (P x); simpl; lia.
Qed.


Lemma listed_app1 : forall pre i f, listed (pre ++ [i]) f = listed pre f || (f.(id) =? i).
Proof. intros pre i f. unfold ReviewSteps.listed. rewrite existsb_app. simpl. now rewrite orb_false_r. Qed.

Section IdLoop.
Variable gid : File -> option string.
Variable t : File -> File.
Variable sel : File -> bool.
Hypothesis t_id : id_preserving t.
Hypothesis sel_t : forall f, sel (t f) = false.
Hypothesis sel_gid : forall f, sel f = true -> gid f <> None.
Local Abbreviation gstep := (ReviewSteps.gstep gid t sel).
Local Abbreviation upd := (ReviewSteps.upd t sel).



Lemma upd_id : forall ids, id_preserving (upd ids).
Proof. intros ids f. unfold ReviewSteps.upd. destruct (_ && _); [apply t_id|reflexivity]. Qed.

Variable db : Db.
Hypothesis Hn : NoDup (map id db).
Local Abbreviation loop_inv := (ReviewSteps.loop_inv gid t sel db).


Lemma gstep_inv : forall pre acc i, loop_inv pre acc -> loop_inv (pre ++ [i]) (gstep acc i).
Proof.
  intros pre [[n aff] d] i [Hc [Ha Hd]]. subst d. cbn [ReviewSteps.gstep].
  rewrite get_map by apply upd_id.
  destruct (get db i) as [f|] eqn:Eg.
  - pose proof (get_id db i f Eg) as Fi. pose proof (get_in db i f Eg) as Ff.
    assert (Same : forall x, In x db -> x.(id) = i -> x = f)
      by (intros x Hx Ex; apply (nodup_id_eq db x f Hn Hx Ff); congruence).
    cbn [option_map].
    destruct (listed pre f && sel f) eqn:B.
    + (* already handled *)
      replace (upd pre f) with (t f) by (unfold ReviewSteps.upd; now rewrite B). rewrite sel_t.
      assert (Eq : forall x, In x db -> listed (pre ++ [i]) x = listed pre x || (x.(id) =? i))
        by (intros; apply listed_app1).
      assert (L : forall x, In x db -> listed (pre ++ [i]) x && sel x = listed pre x && sel x).
      { intros x Hx. rewrite listed_app1. destruct (x.(id) =? i) eqn:Ex.
        - apply Z.eqb_eq in Ex. rewrite (Same x Hx Ex), orb_true_r.
          destruct (listed pre f), (sel f); simpl in *; congruence.
        - now rewrite orb_false_r. }
      split; [|split].
      * rewrite Hc. f_equal. apply len_filter_ext.
        intros x Hx. symmetry. now apply L.
      * intros g. rewrite Ha. split; intros [x [Hx [Lx [Sx Gx]]]]; exists x; repeat split; auto.
        -- rewrite listed_app1, Lx. reflexivity.
        -- assert (LL := L x Hx). rewrite Lx, Sx in LL. simpl in LL.
           rewrite andb_true_r in LL. now symmetry.
      * apply map_ext_in. intros x Hx. unfold ReviewSteps.upd. now rewrite L.
    + replace (upd pre f) with f by (unfold ReviewSteps.upd; now rewrite B).
      destruct (sel f) eqn:Sf.
      * assert (Lf : listed pre f = false) by (destruct (listed pre f); [discriminate|reflexivity]).
        destruct (gid f) as [g|] eqn:Gf; [|exfalso; now apply (sel_gid f)].
        assert (L : forall x, In x db -> x.(id) <> f.(id) ->
                      listed (pre ++ [i]) x && sel x = listed pre x && sel x).
        { intros x Hx Ex. rewrite listed_app1. replace (x.(id) =? i) with false.
          - now rewrite orb_false_r.
          - symmetry. apply Z.eqb_neq. congruence. }
        split; [|split].
        -- rewrite Hc. rewrite (count_one (fun x => listed pre x && sel x)
                                  (fun x => listed (pre ++ [i]) x && sel x) f db Hn Ff L).
           ++ lia.
           ++ now rewrite Lf.
           ++ rewrite listed_app1, Fi, Z.eqb_refl, orb_true_r. exact Sf.
        -- intros g'. rewrite add_set_in, Ha. split.
           ++ intros [->|[x [Hx [Lx [Sx Gx]]]]].
              ** exists f. rewrite listed_app1, Fi, Z.eqb_refl, orb_true_r. auto.
              ** exists x. rewrite listed_app1, Lx. auto.
           ++ intros [x [Hx [Lx [Sx Gx]]]]. rewrite listed_app1 in Lx.
              destruct (x.(id) =? i) eqn:Ex.
              ** left. apply Z.eqb_eq in Ex. rewrite (Same x Hx Ex), Gf in Gx. now injection Gx.
              ** rewrite orb_false_r in Lx. right. exists x. auto.
        -- unfold update. rewrite map_map. apply map_ext_in. intros x Hx.
           rewrite upd_id. destruct (x.(id) =? i) eqn:Ex.
           ++ apply Z.eqb_eq in Ex. rewrite (Same x Hx Ex). unfold ReviewSteps.upd.
              rewrite Lf, Sf, listed_app1, Fi, Z.eqb_refl, orb_true_r. reflexivity.
           ++ unfold ReviewSteps.upd. rewrite listed_app1, Ex, orb_false_r. reflexivity.
      * assert (L : forall x, In x db -> listed (pre ++ [i]) x && sel x = listed pre x && sel x).
        { intros x Hx. rewrite listed_app1. destruct (x.(id) =? i) eqn:Ex.
          - apply Z.eqb_eq in Ex. rewrite (Same x Hx Ex), Sf. now rewrite !andb_false_r.
          - now rewrite orb_false_r. }
        split; [|split].
        -- rewrite Hc. f_equal. apply len_filter_ext.
           intros x Hx. symmetry. now apply L.
        -- intros g. rewrite Ha. split; intros [x [Hx [Lx [Sx Gx]]]]; exists x; repeat split; auto.
           ++ rewrite listed_app1, Lx. reflexivity.
           ++ assert (LL := L x Hx). rewrite Lx, Sx in LL. simpl in LL.
              rewrite andb_true_r in LL. now symmetry.
        -- apply map_ext_in. intros x Hx. unfold ReviewSteps.upd. now rewrite L.
  - assert (L : forall x, In x db -> listed (pre ++ [i]) x = listed pre x).
    { intros x Hx. rewrite listed_app1. replace (x.(id) =? i) with false; [now rewrite orb_false_r|].
      symmetry. apply Z.eqb_neq. exact (get_none db i x Eg Hx). }
    split; [|split].
    + rewrite Hc. f_equal. apply len_filter_ext.
      intros x Hx. now rewrite L.
    + intros g. rewrite Ha. split; intros [x [Hx [Lx [Sx Gx]]]]; exists x; repeat split; auto.
      * now rewrite L.
      * now rewrite <- L.
    + apply map_ext_in. intros x Hx. unfold ReviewSteps.upd. now rewrite L.
Qed.

Lemma loop_spec : forall ids pre acc, loop_inv pre acc ->
  loop_inv (pre ++ ids) (fold_left gstep ids acc).
Proof.
  induction ids as [|i r IH]; intros pre acc H; simpl; [now rewrite app_nil_r|].
  replace (pre ++ i :: r) with ((pre ++ [i]) ++ r) by (rewrite <- app_assoc; reflexivity).
  apply IH. now apply gstep_inv.
Qed.

Lemma loop_start_inv : loop_inv [] (0, [], db).
Proof.
  split; [|split].
  - assert (E : forall l, filter (fun f : File => listed [] f && sel f) l = [])
      by (induction l; simpl; auto). now rewrite E.
  - intros g. split; [intros []|]. intros [x [_ [L _]]]. discriminate.
  - unfold ReviewSteps.upd. simpl. rewrite map_id. reflexivity.
Qed.

End IdLoop.

End ReviewLoopFacts.

Module ReviewRouteFacts.
Import Model ModelFacts Aux ExactGroupsFacts Review ReviewOps ReviewSteps ReviewOpsFacts
  ReviewLoopFacts.

Lemma fold_left_ext : forall (A B : Type) (f g : A -> B -> A) l a,
  (forall x y, f x y = g x y) -> fold_left f l a = fold_left g l a.
Proof.
  intros A B f g l; induction l as [|y r IH]; intros a H; simpl; [reflexivity|].
  rewrite H. now apply IH.
Qed.

Lemma forall2_in_r : forall (R : File -> File -> Prop) l1 l2 b, Forall2 R l1 l2 -> In b l2 ->
  exists a, In a l1 /\ R a b.
Proof.
  intros R l1 l2 b H; induction H as [|x y r1 r2 Hxy _ IH]; intros Hb; [destruct Hb|].
  destruct Hb as [<-|Hb]; [exists x; split; [now left|exact Hxy]|].
  destruct (IH Hb) as [a [Ha Ra]]. exists a. split; [now right|exact Ra].
Qed.

Lemma forall2_nodup_ids : forall l1 l2, Forall2 (fun a b => b.(id) = a.(id)) l1 l2 ->
  map id l2 = map id l1.
Proof. intros l1 l2 H; induction H; simpl; congruence. Qed.

Lemma listed_id : forall ids f f', f.(id) = f'.(id) -> listed ids f = listed ids f'.
Proof. intros ids f f' E. unfold listed. now rewrite E. Qed.

Section GroupLoop.
Variable gid : File -> option string.
Variable t : File -> File.
Variable sel : File -> bool.
Hypothesis t_id : id_preserving t.
Hypothesis t_gid : forall f, gid (t f) = None.
Hypothesis sel_t : forall f, sel (t f) = false.
Hypothesis sel_gid : forall f, sel f = true -> gid f <> None.

(** The loop of a "remove from group" route, followed by the orphan cleanup of
    the affected groups with no job scope. *)
Lemma group_loop_spec : forall ids db, NoDup (map id db) ->
  let '(n, aff, d) := fold_left (gstep gid t sel) ids (0, [], db) in
  let d' := cleanup_orphans gid t (fun _ => true) aff d in
  n = Z.of_nat (List.length (filter (fun f => listed ids f && sel f) db)) /\
  Forall2 (fun a b =>
      if listed ids a && sel a then b = t a
      else b = a \/ (b = t a /\ exists g, gid a = Some g /\
                     exists f, In f db /\ listed ids f = true /\ sel f = true /\ gid f = Some g))
    db d' /\
  (forall g, In g aff -> List.length (filter (is_member gid g) d') <> 1%nat) /\
  (forall g, In g aff <-> exists f, In f db /\ listed ids f = true /\ sel f = true /\ gid f = Some g).
Proof.
  intros ids db Hn.
  pose proof (loop_spec gid t sel t_id sel_t sel_gid db Hn ids [] (0, [], db)
                (loop_start_inv gid t sel db)) as L.
  destruct (fold_left (gstep gid t sel) ids (0, [], db)) as [[n aff] d].
  destruct L as [Hc [Ha Hd]]. simpl app in *. subst d.
  assert (Hn1 : NoDup (map id (map (upd t sel ids) db))).
  { rewrite map_map. replace (map (fun x => (upd t sel ids x).(id)) db) with (map id db); [exact Hn|].
    apply map_ext. intros f. symmetry. apply (upd_id t sel t_id). }
  split; [exact Hc|split; [|split; [|exact Ha]]].
  - eapply forall2_compose;
      [apply forall2_map with (R := fun a b => b = upd t sel ids a); intros a _; reflexivity
      |apply (cleanup_rows gid t (fun _ => true) t_gid t_id aff _ Hn1)|].
    intros a a1 b -> Hb. unfold upd in *.
      destruct (listed ids a && sel a) eqn:B.
    + destruct Hb as [->|[_ [g [_ Hg]]]]; [reflexivity|]. now rewrite t_gid in Hg.
    + destruct Hb as [->|[-> [g [Hg Hga]]]]; [now left|]. right. split; [reflexivity|].
      exists g. split; [exact Hga|]. now apply Ha.
  - intros g Hg.
    pose proof (cleanup_no_lone gid t (fun _ => true) t_gid t_id aff _ g Hn1 Hg) as N.
    rewrite (filter_ext (member_in gid (fun _ => true) g) (is_member gid g)) in N; [exact N|].
    intros f. unfold member_in. now rewrite andb_true_r.
Qed.

End GroupLoop.

End ReviewRouteFacts.

Module ReviewRouteFacts2.
Import Perceptual Model ModelFacts Aux ExactGroupsFacts Review ReviewOps ReviewSteps ReviewOpsFacts
  ReviewLoopFacts ReviewRouteFacts.

Lemma clear_exact_id_id : id_preserving clear_exact_id.
Proof. intros f. reflexivity. Qed.

Lemma clear_similar_fields_id : id_preserving clear_similar_fields.
Proof. intros f. reflexivity. Qed.

Lemma bulk_not_duplicate_loop : forall ids db,
  bulk_not_duplicate ids db =
  let '(n, aff, d) := fold_left (gstep exact_group_id clear_exact_id has_exact) ids (0, [], db) in
  (n, cleanup_orphans exact_group_id clear_exact_id (fun _ => true) aff d).
Proof.
  intros ids db. unfold bulk_not_duplicate.
  rewrite (fold_left_ext _ _ _ (gstep exact_group_id clear_exact_id has_exact)).
  - destruct (fold_left _ _ _) as [[n aff] d]. reflexivity.
  - intros [[n aff] d] i. cbn [gstep]. destruct (get d i) as [f|]; [|reflexivity].
    unfold has_exact. destruct (exact_group_id f); reflexivity.
Qed.

Lemma bulk_not_similar_loop : forall ids db, ids <> [] ->
  bulk_not_similar ids db =
  let '(n, aff, d) := fold_left (gstep similar_group_id clear_similar_fields
                                   (fun f => truthy f.(similar_group_id)))
                        (map id (filter (listed ids) db)) (0, [], db) in
  (200, n, cleanup_orphans similar_group_id clear_similar_fields (fun _ => true) aff d).
Proof.
  intros ids db Hne. unfold bulk_not_similar.
  destruct ids as [|i0 ids0]; [congruence|].
  cbv zeta.
  erewrite (fold_left_ext _ _ _ (gstep similar_group_id clear_similar_fields
                                   (fun f => truthy f.(similar_group_id))));
    [|intros [[n aff] d] i; reflexivity].
  destruct (fold_left _ _ _) as [[n aff] d]. reflexivity.
Qed.

Lemma listed_files : forall ids db f, In f db ->
  listed (map id (filter (listed ids) db)) f = listed ids f.
Proof.
  intros ids db f Hf. unfold listed at 1.
  destruct (listed ids f) eqn:L.
  - apply existsb_exists. exists f.(id). split; [|apply Z.eqb_refl].
    apply in_map. apply filter_In. auto.
  - destruct (existsb _ _) eqn:E; [|reflexivity].
    apply existsb_exists in E as [i [Hi Ei]]. apply in_map_iff in Hi as [x [<- Hx]].
    apply filter_In in Hx as [_ Lx]. apply Z.eqb_eq in Ei.
    rewrite (listed_id ids f x Ei), Lx in L. discriminate.
Qed.

Lemma forall2_impl_in : forall (R R' : File -> File -> Prop) l1 l2, Forall2 R l1 l2 ->
  (forall a b, In a l1 -> R a b -> R' a b) -> Forall2 R' l1 l2.
Proof.
  intros R R' l1 l2 H; induction H as [|x y r1 r2 Hxy _ IH]; intros Hi; constructor.
  - apply Hi; [now left|exact Hxy].
  - apply IH. intros a b Ha; apply Hi; now right.
Qed.

Lemma forall2_in_l_id : forall (R : File -> File -> Prop) l1 l2 b, Forall2 R l1 l2 -> In b l2 ->
  (forall a b, R a b -> b.(id) = a.(id)) -> exists a, In a l1 /\ R a b /\ b.(id) = a.(id).
Proof.
  intros R l1 l2 b H Hb Hid. destruct (forall2_in_r R l1 l2 b H Hb) as [a [Ha Ra]].
  exists a. split; [exact Ha|split; [exact Ra|now apply Hid]].
Qed.

Lemma nodup_group_rows : NoDup (map id ReviewSamples.group_rows).
Proof. vm_compute. repeat constructor; simpl; intuition lia. Qed.

Lemma nodup_hash_rows : NoDup (map id ReviewSamples.hash_rows).
Proof. vm_compute. repeat constructor; simpl; intuition lia. Qed.

End ReviewRouteFacts2.

Module ReviewExtras.
Import Perceptual Model ModelFacts Aux Review ReviewOps ReviewSteps ReviewOpsFacts
  ReviewLoopFacts ReviewRouteFacts ReviewRouteFacts2.

(** [bulk_not_duplicate]: [files_updated] counts the listed rows that had an
    exact group; each of them leaves its group; any other row is either
    untouched or, being in a group a listed row left, has its exact group
    cleared; no affected group is left with exactly one non-discarded member;
    and every listed row ends with no exact group. *)
Theorem bulk_not_duplicate_spec : forall ids db, NoDup (map id db) ->
  let '(n, d') := bulk_not_duplicate ids db in
  n = Z.of_nat (List.length (filter (fun f => listed ids f && has_exact f) db)) /\
  Forall2 (fun a b =>
      if listed ids a && has_exact a then b = clear_exact_id a
      else b = a \/ (b = clear_exact_id a /\ exists g, exact_group_id a = Some g /\
                     exists f, In f db /\ listed ids f = true /\ exact_group_id f = Some g))
    db d' /\
  (forall f g, In f db -> listed ids f = true -> exact_group_id f = Some g ->
     List.length (filter (is_member exact_group_id g) d') <> 1%nat) /\
  (forall b, In b d' -> listed ids b = true -> exact_group_id b = None).
Proof.
  intros ids db Hn. rewrite bulk_not_duplicate_loop.
  assert (Sg : forall f, has_exact f = true -> exact_group_id f <> None)
    by (intros f; unfold has_exact; destruct (exact_group_id f); congruence).
  pose proof (group_loop_spec exact_group_id clear_exact_id has_exact clear_exact_id_id
                (fun f => eq_refl) (fun f => eq_refl) Sg ids db Hn) as G.
  destruct (fold_left _ _ _) as [[n aff] d].
  destruct G as [Hc [Hr [Hl Ha]]].
  split; [exact Hc|split; [|split]].
  - eapply forall2_impl_in; [exact Hr|]. intros a b Ha' R. cbv beta in R |- *.
    destruct (listed ids a && has_exact a); [exact R|].
    destruct R as [->|[-> [g [Hg [f [Hf [Lf [_ Gf]]]]]]]]; [now left|].
    right. split; [reflexivity|]. exists g. split; [exact Hg|]. exists f. auto.
  - intros f g Hf Lf Gf. apply Hl. apply Ha. exists f.
    split; [exact Hf|split; [exact Lf|split; [unfold has_exact; now rewrite Gf|exact Gf]]].
  - intros b Hb Lb.
    destruct (forall2_in_r _ _ _ b Hr Hb) as [a [Ha' R]]. cbv beta in R.
    destruct (listed ids a && has_exact a) eqn:B; [now subst b|].
    assert (Ida : b.(id) = a.(id)) by (destruct R as [E|[E _]]; rewrite E; reflexivity).
    rewrite (listed_id ids b a Ida) in Lb. rewrite Lb in B. simpl in B.
    destruct R as [->|[-> _]]; [|reflexivity].
    unfold has_exact in B. destruct (exact_group_id a); [discriminate|reflexivity].
Qed.

Lemma bulk_not_duplicate_spec_witness :
  NoDup (map id ReviewSamples.group_rows) /\
  forall b, In b (snd (bulk_not_duplicate [1; 9] ReviewSamples.group_rows)) ->
    listed [1; 9] b = true -> exact_group_id b = None.
Proof.
  split; [exact nodup_group_rows|].
  pose proof (bulk_not_duplicate_spec [1; 9] ReviewSamples.group_rows nodup_group_rows) as H.
  destruct (bulk_not_duplicate [1; 9] ReviewSamples.group_rows) as [n d'].
  exact (proj2 (proj2 (proj2 H))).
Defined.

(** [bulk_not_similar] on a non-empty [file_ids]: the status is 200;
    [cleared] counts the listed rows with a (non-empty) similar group; each of
    them loses its similar fields; any other row is untouched or, being in a
    group a listed row left, loses its similar fields; no affected group is
    left with exactly one non-discarded member; and no listed row keeps a
    similar group. *)
Theorem bulk_not_similar_spec : forall ids db, NoDup (map id db) -> ids <> [] ->
  let '(status, cleared, d') := bulk_not_similar ids db in
  status = 200 /\
  cleared = Z.of_nat (List.length
              (filter (fun f => listed ids f && truthy f.(similar_group_id)) db)) /\
  Forall2 (fun a b =>
      if listed ids a && truthy a.(similar_group_id) then b = clear_similar_fields a
      else b = a \/ (b = clear_similar_fields a /\ exists g, a.(similar_group_id) = Some g /\
                     exists f, In f db /\ listed ids f = true /\ truthy f.(similar_group_id) = true /\
                               f.(similar_group_id) = Some g))
    db d' /\
  (forall f g, In f db -> listed ids f = true -> similar_group_id f = Some g -> truthy (Some g) = true ->
     List.length (filter (is_member similar_group_id g) d') <> 1%nat) /\
  (forall b, In b d' -> listed ids b = true -> truthy b.(similar_group_id) = false).
Proof.
  intros ids db Hn Hne. rewrite (bulk_not_similar_loop ids db Hne).
  assert (Sg : forall f, truthy f.(similar_group_id) = true -> similar_group_id f <> None)
    by (intros f; destruct (similar_group_id f); simpl; congruence).
  pose proof (group_loop_spec similar_group_id clear_similar_fields
                (fun f => truthy f.(similar_group_id)) clear_similar_fields_id
                (fun f => eq_refl) (fun f => eq_refl) Sg
                (map id (filter (listed ids) db)) db Hn) as G.
  destruct (fold_left _ _ _) as [[n aff] d].
  destruct G as [Hc [Hr [Hl Ha]]].
  assert (L : forall f, In f db -> listed (map id (filter (listed ids) db)) f = listed ids f)
    by (intros f Hf; now apply listed_files).
  split; [reflexivity|split; [|split; [|split]]].
  - rewrite Hc. f_equal. apply len_filter_ext. intros x Hx. now rewrite L.
  - eapply forall2_impl_in; [exact Hr|]. intros a b Ha' R. cbv beta in R |- *.
    rewrite (L a Ha') in R.
    destruct (listed ids a && truthy (similar_group_id a)); [exact R|].
    destruct R as [->|[-> [g [Hg [f [Hf [Lf [Tf Gf]]]]]]]]; [now left|].
    right. split; [reflexivity|]. exists g. split; [exact Hg|]. exists f.
    rewrite (L f Hf) in Lf. auto.
  - intros f g Hf Lf Gf Tg. apply Hl. apply Ha. exists f.
    split; [exact Hf|split; [now rewrite L|split; [now rewrite Gf|exact Gf]]].
  - intros b Hb Lb.
    destruct (forall2_in_r _ _ _ b Hr Hb) as [a [Ha' R]]. cbv beta in R.
    rewrite (L a Ha') in R.
    destruct (listed ids a && truthy (similar_group_id a)) eqn:B; [now subst b|].
    assert (Ida : b.(id) = a.(id)) by (destruct R as [E|[E _]]; rewrite E; reflexivity).
    rewrite (listed_id ids b a Ida) in Lb. rewrite Lb in B. simpl in B.
    destruct R as [->|[-> _]]; [exact B|reflexivity].
Qed.


Lemma bulk_not_similar_spec_witness :
  NoDup (map id ReviewSamples.group_rows) /\ [3] <> [] /\
  forall b, In b (snd (bulk_not_similar [3] ReviewSamples.group_rows)) ->
    listed [3] b = true -> truthy b.(similar_group_id) = false.
Proof.
  split; [exact nodup_group_rows|split; [discriminate|]].
  pose proof (bulk_not_similar_spec [3] ReviewSamples.group_rows nodup_group_rows
                ltac:(discriminate)) as H.
  destruct (bulk_not_similar [3] ReviewSamples.group_rows) as [[st n] d'].
  exact (proj2 (proj2 (proj2 (proj2 H)))).
Defined.

(** [keep_all_duplicates]: with no non-discarded member of the group the
    route answers 404 and changes nothing; otherwise it answers 200, counts
    and records a decision for exactly the members, leaves no row in the
    group, and changes no column but [exact_group_id]. *)
Theorem keep_all_duplicates_spec : forall h db,
  let '(status, count, decided, d') := keep_all_duplicates h db in
  (status = 404 /\ count = 0 /\ decided = [] /\ d' = db /\
   filter (is_member exact_group_id h) db = []) \/
  (status = 200 /\ decided <> [] /\ count = Z.of_nat (List.length decided) /\
   decided = map id (filter (is_member exact_group_id h) db) /\
   filter (is_member exact_group_id h) d' = [] /\
   map clear_exact_id d' = map clear_exact_id db).
Proof.
  intros h db. unfold keep_all_duplicates.
  destruct (filter (is_member exact_group_id h) db) as [|f r] eqn:E; [left; auto|].
  right. split; [reflexivity|split; [discriminate|split; [now rewrite length_map|split; [reflexivity|split]]]].
  - clear E. induction db as [|x r' IH]; [reflexivity|]. simpl.
    destruct (is_member exact_group_id h x) eqn:M; simpl; [|rewrite M; exact IH].
    unfold is_member at 1. simpl. exact IH.
  - rewrite map_map. apply map_ext. intros x.
    destruct (is_member exact_group_id h x); reflexivity.
Qed.

End ReviewExtras.

Module UndiscardFacts.
Import Perceptual Model ModelFacts Aux ExactGroupsFacts Review ReviewOps ReviewSteps
  ReviewOpsFacts ReviewLoopFacts ReviewRouteFacts ReviewRouteFacts2.

Lemma in_update_other : forall i g d a, In a d -> a.(id) <> i -> In a (update i g d).
Proof.
  intros i g d a Ha Ne. unfold update. apply in_map_iff. exists a. split; [|exact Ha].
  apply Z.eqb_neq in Ne. now rewrite Ne.
Qed.

Lemma in_update_inv : forall i g d b, id_preserving g -> In b (update i g d) -> b.(id) <> i ->
  In b d.
Proof.
  intros i g d b Hg Hb Ne. unfold update in Hb. apply in_map_iff in Hb as [a [E Ha]].
  destruct (a.(id) =? i) eqn:Ea.
  - exfalso. apply Ne. rewrite <- E, Hg. now apply Z.eqb_eq.
  - now subst.
Qed.

Lemma forall2_map_update : forall (R : File -> File -> Prop) g i k d,
  (forall a, In a d -> R a (g (if a.(id) =? i then k a else a))) ->
  Forall2 R d (map g (update i k d)).
Proof.
  intros R g i k d H. unfold update. rewrite map_map. now apply forall2_map.
Qed.

Section Regroup.
Variable links : Links.
Variable h : string.
Variable i : Z.
Variable db : Db.
Hypothesis Hn : NoDup (map id db).

Local Abbreviation d1 := (update i (set_discarded false) db).
Local Abbreviation crit :=
  (fun m => sha_eq h m && negb m.(discarded) && in_jobs links (jobs_of links i) m).

Lemma d1_ids : map id d1 = map id db.
Proof. apply update_ids. intros f; reflexivity. Qed.

Lemma matching_crit : forall m, In m (matching_files links h i d1) ->
  In m db /\ m.(id) <> i /\ crit m = true.
Proof.
  intros m Hm. unfold matching_files in Hm. apply filter_In in Hm as [Hm C].
  assert (Ne : m.(id) <> i).
  { intros E. rewrite E, Z.eqb_refl in C. rewrite andb_false_r, andb_false_l in C.
    destruct (sha_eq h m && negb (discarded m)); discriminate. }
  split; [|split; [exact Ne|]].
  - eapply in_update_inv; [|exact Hm|exact Ne]. intros f; reflexivity.
  - cbv beta. destruct (sha_eq h m), (discarded m), (m.(id) =? i), (in_jobs links (jobs_of links i) m);
      simpl in *; congruence.
Qed.

Lemma crit_matching : forall m, In m db -> m.(id) <> i -> crit m = true ->
  In m (matching_files links h i d1).
Proof.
  intros m Hm Ne C. unfold matching_files. apply filter_In.
  split; [now apply in_update_other|].
  apply Z.eqb_neq in Ne. rewrite Ne. cbv beta in C.
  destruct (sha_eq h m), (discarded m), (in_jobs links (jobs_of links i) m); simpl in *; congruence.
Qed.

Lemma matching_existsb : forall a, In a db -> a.(id) <> i ->
  existsb (Z.eqb a.(id)) (map id (matching_files links h i d1)) = crit a.
Proof.
  intros a Ha Ne. destruct (crit a) eqn:C.
  - apply existsb_exists. exists a.(id). split; [|apply Z.eqb_refl].
    apply in_map. now apply crit_matching.
  - destruct (existsb _ _) eqn:E; [|reflexivity].
    apply existsb_exists in E as [j [Hj Ej]]. apply in_map_iff in Hj as [m [<- Hm]].
    apply Z.eqb_eq in Ej. destruct (matching_crit m Hm) as [Hm' [_ Cm]].
    rewrite (nodup_id_eq db a m Hn Ha Hm' Ej), Cm in C. discriminate.
Qed.

End Regroup.

End UndiscardFacts.

Module UndiscardExtras.
Import Perceptual Model ModelFacts Aux ExactGroupsFacts Review ReviewOps ReviewSteps
  ReviewOpsFacts ReviewLoopFacts ReviewRouteFacts ReviewRouteFacts2 UndiscardFacts.

(** [undiscard_file]: a missing row gives 404 and no change.  Otherwise the
    row is undiscarded; when it has a non-empty hash [h], it joins group [h]
    if some other non-discarded row with hash [h] shares one of its jobs and
    leaves any group if none does; each such row joins group [h]; and every
    other row is left as it was.  Without a non-empty hash only the
    [discarded] flag changes. *)
Theorem undiscard_file_spec : forall links i db, NoDup (map id db) ->
  let '(status, d') := undiscard_file links i db in
  match get db i with
  | None => status = 404 /\ d' = db
  | Some f =>
      status = 200 /\ map id d' = map id db /\
      (truthy f.(file_hash_sha256) = false -> d' = update i (set_discarded false) db) /\
      (forall h, f.(file_hash_sha256) = Some h -> truthy (Some h) = true ->
        (exists f', get d' i = Some f' /\ f'.(discarded) = false /\
           ((f'.(exact_group_id) = Some h /\
             exists m, In m db /\ m.(id) <> i /\
               sha_eq h m && negb m.(discarded) && in_jobs links (jobs_of links i) m = true) \/
            (f'.(exact_group_id) = None /\
             forall m, In m db -> m.(id) <> i ->
               sha_eq h m && negb m.(discarded) && in_jobs links (jobs_of links i) m = false))) /\
        Forall2 (fun a b => a.(id) <> i ->
            b = if sha_eq h a && negb a.(discarded) && in_jobs links (jobs_of links i) a
                then set_exact (Some h) a.(exact_group_confidence) a else a) db d')
  end.
Proof.
  intros links i db Hn. unfold undiscard_file.
  destruct (get db i) as [f|] eqn:G; [|auto].
  pose proof (get_id db i f G) as Fi.
  assert (Pd : id_preserving (set_discarded false)) by (intros x; reflexivity).
  assert (G1 : get (update i (set_discarded false) db) i = Some (set_discarded false f)).
  { unfold update. rewrite get_map; [rewrite G; simpl; now rewrite Fi, Z.eqb_refl|].
    intros x. destruct (x.(id) =? i); reflexivity. }
  assert (F1 : Forall2 (fun a b => b = if a.(id) =? i then set_discarded false a else a)
                 db (update i (set_discarded false) db))
    by (apply forall2_map; intros; reflexivity).
  destruct (file_hash_sha256 f) as [h|] eqn:Hh.
  2:{ split; [reflexivity|split; [apply d1_ids|split; [reflexivity|]]]. intros h' E. discriminate. }
  destruct (truthy (Some h)) eqn:T.
  2:{ split; [reflexivity|split; [apply d1_ids|split; [reflexivity|]]].
      intros h' E. injection E as <-. congruence. }
  split; [reflexivity|].
  assert (Hid : forall (P : File -> bool),
            map id (map (fun x => if P x then set_exact (Some h) x.(exact_group_confidence) x else x)
                      (update i (set_discarded false) db)) = map id db).
  { intros P. rewrite map_map, <- (d1_ids i db). apply map_ext. intros x. destruct (P x); reflexivity. }
  unfold regroup.
  destruct (matching_files links h i (update i (set_discarded false) db)) as [|m0 ms] eqn:M.
  - split; [rewrite update_ids; [apply d1_ids|intros x; reflexivity]|split; [discriminate|]].
    intros h' E _. injection E as <-. split.
    + exists (clear_exact_id (set_discarded false f)). split; [|split; [reflexivity|]].
      * unfold update at 1. rewrite get_map, G1; [simpl|].
        -- now rewrite Fi, Z.eqb_refl.
        -- intros x. destruct (x.(id) =? i); reflexivity.
      * right. split; [reflexivity|]. intros m Hm Ne.
        destruct (_ && _ && _) eqn:C; [|reflexivity].
        pose proof (crit_matching links h i db m Hm Ne C) as Hmm. rewrite M in Hmm. destruct Hmm.
    + unfold update at 1 2. rewrite map_map. apply forall2_map. intros a Ha Ne.
      apply Z.eqb_neq in Ne as Ne'. rewrite Ne'. simpl. rewrite Ne'.
      destruct (_ && _ && _) eqn:C; [|reflexivity].
      pose proof (crit_matching links h i db a Ha Ne C) as Hmm. rewrite M in Hmm. destruct Hmm.
  - split; [apply Hid|split; [discriminate|]].
    intros h' E _. injection E as <-. split.
    + exists (set_exact (Some h) (set_discarded false f).(exact_group_confidence)
                (set_discarded false f)).
      split; [|split; [reflexivity|]].
      * rewrite get_map, G1; [simpl|].
        -- now rewrite Fi, Z.eqb_refl.
        -- intros x. destruct (_ || _); reflexivity.
      * left. split; [reflexivity|]. exists m0.
        apply (matching_crit links h i db m0). rewrite M. now left.
    + rewrite <- M. apply forall2_map_update. intros a Ha Ne.
      apply Z.eqb_neq in Ne as Ne'. rewrite Ne'. cbv beta iota. rewrite Ne', orb_false_l.
      rewrite (matching_existsb links h i db Hn a Ha Ne). reflexivity.
Qed.

Lemma undiscard_file_spec_witness :
  NoDup (map id ReviewSamples.hash_rows) /\
  exists f', get (snd (undiscard_file ReviewSamples.hash_links 1 ReviewSamples.hash_rows)) 1 = Some f' /\
             f'.(discarded) = false /\ f'.(exact_group_id) = Some "h".
Proof.
  split; [exact nodup_hash_rows|].
  pose proof (undiscard_file_spec ReviewSamples.hash_links 1 ReviewSamples.hash_rows
                nodup_hash_rows) as H.
  destruct (undiscard_file ReviewSamples.hash_links 1 ReviewSamples.hash_rows) as [st d'].
  assert (E : get ReviewSamples.hash_rows 1 =
    Some (mkFile 1 "x.jpg" (Some "h") None None None None true None None None None None None None))
    by reflexivity.
  rewrite E in H. destruct H as [_ [_ [_ H]]].
  destruct (H "h" eq_refl eq_refl) as [[f' [G [D [[X _]|[_ N]]]]] _].
  - exists f'. auto.
  - exfalso. specialize (N (mkFile 2 "y.jpg" (Some "h") None None None None false None None None
                                  None None None None)).
    discriminate (N ltac:(simpl; auto) ltac:(simpl; lia)).
Defined.

End UndiscardExtras.

Module DiscardFacts.
Import Perceptual Model ModelFacts Aux ExactGroupsFacts Review ReviewOps ReviewSteps
  ReviewOpsFacts ReviewLoopFacts ReviewRouteFacts ReviewRouteFacts2 UndiscardFacts.

Lemma discard_row_idem : forall f, discard_row (discard_row f) = discard_row f.
Proof. intros f. reflexivity. Qed.

Lemma discard_row_id : id_preserving discard_row.
Proof. intros f. reflexivity. Qed.

Lemma discard_pass_fold : forall ids db,
  discard_pass ids db = fold_left discard_step ids (0, [], [], db).
Proof. reflexivity. Qed.

Section Pass.
Variable db : Db.
Hypothesis Hn : NoDup (map id db).

Local Abbreviation dupd pre := (fun f => if listed pre f then discard_row f else f).

Lemma dupd_id : forall pre, id_preserving (dupd pre).
Proof. intros pre f. destruct (listed pre f); reflexivity. Qed.

Lemma affected_step : forall (gid : File -> option string), (forall f, gid (discard_row f) = None) ->
  forall pre i f ax, In f db -> f.(id) = i -> (forall x, In x db -> x.(id) = i -> x = f) ->
  (forall g, In g ax <-> affected gid db pre g) ->
  forall g, In g (if truthy (gid (dupd pre f)) then
                    match gid (dupd pre f) with Some g => add_set String.eqb g ax | None => ax end
                  else ax) <-> affected gid db (pre ++ [i]) g.
Proof.
  intros gid Hg pre i f ax Hf Fi Same Ha g. cbv beta.
  destruct (listed pre f) eqn:Lf.
  - rewrite Hg. simpl. rewrite Ha. unfold affected.
    split; intros [x [Hx [Lx [Tx Gx]]]]; exists x; split; auto; split; auto.
    + rewrite listed_app1, Lx. reflexivity.
    + rewrite listed_app1 in Lx. destruct (x.(id) =? i) eqn:Ex; [|now rewrite orb_false_r in Lx].
      apply Z.eqb_eq in Ex. now rewrite (Same x Hx Ex).
  - destruct (truthy (gid f)) eqn:T.
    + destruct (gid f) as [g0|] eqn:G0; [|discriminate].
      rewrite add_set_in, Ha. unfold affected. split.
      * intros [->|[x [Hx [Lx [Tx Gx]]]]].
        -- exists f. rewrite listed_app1, Fi, Z.eqb_refl, orb_true_r, G0. auto.
        -- exists x. rewrite listed_app1, Lx. auto.
      * intros [x [Hx [Lx [Tx Gx]]]]. rewrite listed_app1 in Lx.
        destruct (x.(id) =? i) eqn:Ex.
        -- left. apply Z.eqb_eq in Ex. rewrite (Same x Hx Ex), G0 in Gx. now injection Gx.
        -- right. rewrite orb_false_r in Lx. exists x. auto.
    + rewrite Ha. unfold affected.
      split; intros [x [Hx [Lx [Tx Gx]]]]; exists x; split; auto; split; auto.
      * rewrite listed_app1, Lx. reflexivity.
      * rewrite listed_app1 in Lx. destruct (x.(id) =? i) eqn:Ex; [|now rewrite orb_false_r in Lx].
        apply Z.eqb_eq in Ex. rewrite (Same x Hx Ex) in Tx. congruence.
Qed.

Lemma discard_step_inv : forall pre acc i, discard_inv db pre acc ->
  discard_inv db (pre ++ [i]) (discard_step acc i).
Proof.
  intros pre [[[n ax] asim] d] i [Hc [Hax [Has Hd]]]. subst d. cbn [discard_step].
  rewrite get_map by apply dupd_id.
  destruct (get db i) as [f|] eqn:Eg.
  - pose proof (get_id db i f Eg) as Fi. pose proof (get_in db i f Eg) as Ff.
    assert (Same : forall x, In x db -> x.(id) = i -> x = f)
      by (intros x Hx Ex; apply (nodup_id_eq db x f Hn Hx Ff); congruence).
    cbn [option_map]. split; [|split; [|split]].
    + rewrite Hc, filter_app. simpl. rewrite Eg. simpl. rewrite length_app. simpl. lia.
    + apply (affected_step exact_group_id (fun _ => eq_refl) pre i f ax Ff Fi Same Hax).
    + apply (affected_step similar_group_id (fun _ => eq_refl) pre i f asim Ff Fi Same Has).
    + unfold update. rewrite map_map. apply map_ext_in. intros x Hx.
      rewrite (dupd_id pre x), listed_app1. destruct (x.(id) =? i) eqn:Ex.
      * apply Z.eqb_eq in Ex. rewrite (Same x Hx Ex), orb_true_r.
        destruct (listed pre f); reflexivity.
      * now rewrite orb_false_r.
  - assert (L : forall x, In x db -> listed (pre ++ [i]) x = listed pre x).
    { intros x Hx. rewrite listed_app1. replace (x.(id) =? i) with false; [now rewrite orb_false_r|].
      symmetry. apply Z.eqb_neq. exact (get_none db i x Eg Hx). }
    cbn [option_map]. split; [|split; [|split]].
    + rewrite Hc, filter_app. simpl. rewrite Eg. simpl. now rewrite app_nil_r.
    + intros g. rewrite Hax. unfold affected.
      split; intros [x [Hx [Lx R]]]; exists x; split; auto; split; auto; now rewrite ?L in *.
    + intros g. rewrite Has. unfold affected.
      split; intros [x [Hx [Lx R]]]; exists x; split; auto; split; auto; now rewrite ?L in *.
    + apply map_ext_in. intros x Hx. now rewrite L.
Qed.

Lemma discard_pass_spec : forall ids, discard_inv db ids (discard_pass ids db).
Proof.
  intros ids. rewrite discard_pass_fold.
  assert (G : forall ids pre acc, discard_inv db pre acc ->
            discard_inv db (pre ++ ids) (fold_left discard_step ids acc)).
  { induction ids0 as [|i r IH]; intros pre acc H; simpl; [now rewrite app_nil_r|].
    replace (pre ++ i :: r) with ((pre ++ [i]) ++ r) by (rewrite <- app_assoc; reflexivity).
    apply IH. now apply discard_step_inv. }
  apply (G ids []). split; [reflexivity|split; [|split]].
  - intros g. split; [intros []|]. intros [x [_ [L _]]]. discriminate.
  - intros g. split; [intros []|]. intros [x [_ [L _]]]. discriminate.
  - simpl. rewrite <- (map_id db) at 1. reflexivity.
Qed.

End Pass.

Lemma bulk_jobs_map : forall links ids h db, id_preserving h ->
  bulk_jobs links ids (map h db) = bulk_jobs links ids db.
Proof.
  intros links ids h db Hh. unfold bulk_jobs. apply fold_left_ext. intros acc i.
  rewrite get_map by exact Hh. destruct (get db i); reflexivity.
Qed.

Lemma filter_length_map_eq : forall (P : File -> bool) l1 l2, map P l1 = map P l2 ->
  List.length (filter P l1) = List.length (filter P l2).
Proof.
  intros P l1; induction l1 as [|x r IH]; intros [|y r'] E; simpl in *; try discriminate; auto.
  injection E as Ex Er. rewrite Ex. destruct (P y); simpl; auto.
Qed.

End DiscardFacts.

Module DiscardExtras.
Import Perceptual Model ModelFacts Aux ExactGroupsFacts Review ReviewOps ReviewSteps
  ReviewOpsFacts ReviewLoopFacts ReviewRouteFacts ReviewRouteFacts2 DiscardFacts.

(** The row part of [bulk_discard_spec]. *)
Lemma bulk_discard_rows : forall links ids st db, NoDup (map id db) ->
  let '(n, d', _) := bulk_discard links ids st db in
  n = Z.of_nat (List.length
        (filter (fun i => match get db i with Some _ => true | None => false end) ids)) /\
  Forall2 (fun a b =>
      if listed ids a then b = discard_row a
      else b = a \/
           (b = clear_exact_id a /\
            exists g, a.(exact_group_id) = Some g /\ affected exact_group_id db ids g) \/
           (b = clear_similar_fields a /\
            exists g, a.(similar_group_id) = Some g /\ affected similar_group_id db ids g) \/
           (b = clear_similar_fields (clear_exact_id a) /\
            (exists g, a.(exact_group_id) = Some g /\ affected exact_group_id db ids g) /\
            (exists g, a.(similar_group_id) = Some g /\ affected similar_group_id db ids g)))
    db d' /\
  (forall g, affected exact_group_id db ids g ->
     List.length (filter (fun f => is_member exact_group_id g f &&
                                   job_scope links (bulk_jobs links ids db) f) d') <> 1%nat) /\
  (forall g, affected similar_group_id db ids g ->
     List.length (filter (fun f => is_member similar_group_id g f &&
                                   job_scope links (bulk_jobs links ids db) f) d') <> 1%nat).
Proof.
  intros links ids st db Hn. unfold bulk_discard. cbv zeta.
  pose proof (discard_pass_spec db Hn ids) as P.
  destruct (discard_pass ids db) as [[[n ax] asim] d].
  destruct P as [Hc [Hax [Has Hd]]]. subst d.
  rewrite bulk_jobs_map by apply dupd_id.
  set (scope := job_scope links (bulk_jobs links ids db)).
  unfold cleanup_exact_orphans, cleanup_similar_orphans. fold scope.
  set (d := map (fun f => if listed ids f then discard_row f else f) db).
  assert (Hn0 : NoDup (map id d)).
  { unfold d. rewrite map_map.
    replace (map (fun x => (if listed ids x then discard_row x else x).(id)) db) with (map id db);
      [exact Hn|]. apply map_ext. intros x. destruct (listed ids x); reflexivity. }
  set (d1 := cleanup_orphans exact_group_id clear_exact_id scope ax d).
  assert (Hn1 : NoDup (map id d1)).
  { unfold d1. rewrite cleanup_ids; [exact Hn0|]. intros f; reflexivity. }
  split; [exact Hc|split; [|split]].
  - assert (F0 : Forall2 (fun a b => b = if listed ids a then discard_row a else a) db d)
      by (apply forall2_map; intros; reflexivity).
    pose proof (cleanup_rows exact_group_id clear_exact_id scope (fun _ => eq_refl)
                  (fun _ => eq_refl) ax d Hn0) as F1.
    pose proof (cleanup_rows similar_group_id clear_similar_fields scope (fun _ => eq_refl)
                  (fun _ => eq_refl) asim d1 Hn1) as F2.
    fold d1 in F1.
    pose proof (forall2_compose _ _ (fun b c => exists b1,
                  (b1 = b \/ (b1 = clear_exact_id b /\ exists g, In g ax /\ exact_group_id b = Some g)) /\
                  (c = b1 \/ (c = clear_similar_fields b1 /\
                              exists g, In g asim /\ similar_group_id b1 = Some g)))
                  _ _ _ F1 F2 (fun b b1 c H1 H2 => ex_intro _ b1 (conj H1 H2))) as F12.
    eapply forall2_impl_in.
    + exact (forall2_compose _ _ (fun a c => exists b, (b = if listed ids a then discard_row a else a) /\
               exists b1,
                  (b1 = b \/ (b1 = clear_exact_id b /\ exists g, In g ax /\ exact_group_id b = Some g)) /\
                  (c = b1 \/ (c = clear_similar_fields b1 /\
                              exists g, In g asim /\ similar_group_id b1 = Some g)))
               _ _ _ F0 F12 (fun a b c H1 H2 => ex_intro _ b (conj H1 H2))).
    + intros a c Ha [b [-> [b1 [H1 H2]]]]. cbv beta.
      destruct (listed ids a) eqn:La.
      * destruct H1 as [->|[_ [g [_ Hg]]]]; [|discriminate].
        destruct H2 as [->|[_ [g [_ Hg]]]]; [reflexivity|discriminate].
      * destruct H1 as [->|[-> [g [Hg Gg]]]];
          destruct H2 as [->|[-> [g' [Hg' Gg']]]].
        -- now left.
        -- right; right; left. split; [reflexivity|]. exists g'. split; [exact Gg'|]. now apply Has.
        -- right; left. split; [reflexivity|]. exists g. split; [exact Gg|]. now apply Hax.
        -- right; right; right. split; [reflexivity|]. split.
           ++ exists g. split; [exact Gg|]. now apply Hax.
           ++ exists g'. split; [exact Gg'|]. now apply Has.
  - intros g Hg. apply Hax in Hg.
    pose proof (cleanup_no_lone exact_group_id clear_exact_id scope (fun _ => eq_refl)
                  (fun _ => eq_refl) ax d g Hn0 Hg) as N. fold d1 in N.
    rewrite <- (filter_length_map_eq _ _ _
                 (cleanup_view similar_group_id clear_similar_fields scope _
                    (member_in exact_group_id scope g) (fun _ => eq_refl) asim d1)) in N.
    exact N.
  - intros g Hg. apply Has in Hg.
    exact (cleanup_no_lone similar_group_id clear_similar_fields scope (fun _ => eq_refl)
             (fun _ => eq_refl) asim d1 g Hn1 Hg).
Qed.


End DiscardExtras.

Module ReviewMoreFacts.
Import Perceptual Model ModelFacts Aux Review ReviewOps ReviewSteps ReviewOpsFacts
  ReviewLoopFacts ReviewRouteFacts ReviewMore.

Lemma regroup_view : forall links h i d,
  map clear_exact_id (regroup links h i d) = map clear_exact_id d.
Proof.
  intros links h i d. unfold regroup.
  destruct (matching_files links h i d) as [|m ms].
  - apply update_view. intros f; reflexivity.
  - rewrite map_map. apply map_ext. intros f. destruct (_ || _); reflexivity.
Qed.

Lemma undiscard_regroup_spec : forall links fs r d,
  let '(r', d') := fold_left (undiscard_regroup links) fs (r, d) in
  r <= r' <= r + Z.of_nat (List.length fs) /\ map clear_exact_id d' = map clear_exact_id d.
Proof.
  intros links fs; induction fs as [|i rest IH]; intros r d; [simpl; split; [lia|reflexivity]|].
  change (fold_left (undiscard_regroup links) (i :: rest) (r, d)) with
    (fold_left (undiscard_regroup links) rest (undiscard_regroup links (r, d) i)).
  assert (S : exists r1 d1, undiscard_regroup links (r, d) i = (r1, d1) /\ r <= r1 <= r + 1 /\
                map clear_exact_id d1 = map clear_exact_id d).
  { unfold undiscard_regroup.
    destruct (get d i) as [f|]; [|exists r, d; split; [reflexivity|split; [lia|reflexivity]]].
    destruct (file_hash_sha256 f) as [h|]; [|exists r, d; split; [reflexivity|split; [lia|reflexivity]]].
    destruct (truthy (Some h)); [|exists r, d; split; [reflexivity|split; [lia|reflexivity]]].
    destruct (matching_files links h i d) as [|m ms].
    - exists r, (regroup links h i d). split; [reflexivity|split; [lia|apply regroup_view]].
    - exists (if truthy (exact_group_id f) then r else r + 1), (regroup links h i d).
      split; [reflexivity|split; [destruct (truthy _); lia|apply regroup_view]]. }
  destruct S as [r1 [d1 [E [Hr Hd]]]]. rewrite E.
  specialize (IH r1 d1). destruct (fold_left _ rest (r1, d1)) as [r' d'].
  destruct IH as [Hr' Hd']. simpl List.length. split; [lia|congruence].
Qed.

Section Pass1.
Variable db : Db.

Lemma undiscard_pass_spec : forall ids pre n fs,
  let '(n', fs', d') :=
    fold_left (fun acc i =>
        let '(n, fs, d) := acc in
        match get d i with
        | Some _ => (n + 1, fs ++ [i], update i (set_discarded false) d)
        | None => acc
        end) ids (n, fs, map (fun f => if listed pre f then set_discarded false f else f) db) in
  n' = n + Z.of_nat (List.length
                       (filter (fun i => match get db i with Some _ => true | None => false end) ids)) /\
  List.length fs' = (List.length fs + List.length
                       (filter (fun i => match get db i with Some _ => true | None => false end) ids))%nat /\
  d' = map (fun f => if listed (pre ++ ids) f then set_discarded false f else f) db.
Proof.
  induction ids as [|i rest IH]; intros pre n fs.
  - simpl. rewrite app_nil_r. split; [lia|split; [lia|reflexivity]].
  - simpl fold_left. rewrite get_map.
    2:{ intros f. destruct (listed pre f); reflexivity. }
    destruct (get db i) as [f|] eqn:G.
    + cbn [option_map].
      replace (update i (set_discarded false)
                 (map (fun f => if listed pre f then set_discarded false f else f) db))
        with (map (fun f => if listed (pre ++ [i]) f then set_discarded false f else f) db).
      * specialize (IH (pre ++ [i]) (n + 1) (fs ++ [i])).
        destruct (fold_left _ rest _) as [[n' fs'] d']. destruct IH as [H1 [H2 H3]].
        rewrite <- app_assoc in H3. simpl in H3. simpl filter. rewrite G.
        simpl List.length. rewrite length_app in H2. simpl in H2.
        split; [lia|split; [lia|exact H3]].
      * unfold update. rewrite map_map. apply map_ext. intros x.
        rewrite listed_app1. destruct (x.(id) =? i) eqn:Ex.
        -- rewrite orb_true_r. destruct (listed pre x); simpl; rewrite Ex; reflexivity.
        -- rewrite orb_false_r. destruct (listed pre x); simpl; rewrite Ex; reflexivity.
    + cbn [option_map].
      replace (map (fun f => if listed pre f then set_discarded false f else f) db)
        with (map (fun f => if listed (pre ++ [i]) f then set_discarded false f else f) db).
      * specialize (IH (pre ++ [i]) n fs).
        destruct (fold_left _ rest _) as [[n' fs'] d']. destruct IH as [H1 [H2 H3]].
        rewrite <- app_assoc in H3. simpl in H3. simpl filter. rewrite G.
        split; [lia|split; [lia|exact H3]].
      * apply map_ext_in. intros x Hx. rewrite listed_app1.
        replace (x.(id) =? i) with false; [now rewrite orb_false_r|].
        symmetry. apply Z.eqb_neq. exact (get_none db i x G Hx).
Qed.

End Pass1.

End ReviewMoreFacts.

Module ReviewMoreExtras.
Import Perceptual Model ModelFacts Aux Review ReviewOps ReviewSteps ReviewOpsFacts
  ReviewLoopFacts ReviewRouteFacts ReviewMore ReviewMoreFacts.

(** [keep_all_similar]: with no non-discarded member of the group the route
    answers 404 and changes nothing; otherwise it answers 200, [cleared] is
    the number of members (at least one), no row is left in the group, and no
    column other than the three similar fields changes. *)
Theorem keep_all_similar_spec : forall g db,
  let '(status, cleared, d') := keep_all_similar g db in
  (status = 404 /\ cleared = 0 /\ d' = db /\ filter (in_group g) db = []) \/
  (status = 200 /\ 0 < cleared /\ cleared = Z.of_nat (List.length (filter (in_group g) db)) /\
   filter (in_group g) d' = [] /\
   map clear_similar_fields d' = map clear_similar_fields db).
Proof.
  intros g db. unfold keep_all_similar.
  destruct (filter (in_group g) db) as [|f r] eqn:E; [left; auto|].
  right. split; [reflexivity|split; [simpl; lia|split; [reflexivity|split]]].
  - clear E. induction db as [|x r' IH]; [reflexivity|]. simpl.
    destruct (in_group g x) eqn:M; simpl; [|rewrite M; exact IH].
    unfold in_group at 1. simpl. exact IH.
  - rewrite map_map. apply map_ext. intros x. destruct (in_group g x); reflexivity.
Qed.

(** [bulk_undiscard] on a valid [file_ids] list: [files_undiscarded] counts
    the entries that name an existing row (a repeated id counts each time);
    [groups_restored] is between 0 and that count; every listed row ends
    undiscarded and, apart from that, no column but [exact_group_id] of any
    row changes. *)
Theorem bulk_undiscard_spec : forall links ids db,
  let '(n, restored, d') := bulk_undiscard links ids db in
  n = Z.of_nat (List.length
        (filter (fun i => match get db i with Some _ => true | None => false end) ids)) /\
  0 <= restored <= n /\
  map clear_exact_id d' =
    map (fun f => clear_exact_id (if listed ids f then set_discarded false f else f)) db.
Proof.
  intros links ids db. unfold bulk_undiscard.
  pose proof (undiscard_pass_spec db ids [] 0 []) as P.
  replace (map (fun f => if listed [] f then set_discarded false f else f) db) with db in P
    by (rewrite <- (map_id db) at 1; reflexivity).
  match type of P with context [fold_left ?G ids ?a] =>
    match goal with |- context [fold_left ?F ids ?b] =>
      replace (fold_left G ids a) with (fold_left F ids b) in P by reflexivity end end.
  destruct (fold_left _ ids (0, [], db)) as [[n fs] d1].
  destruct P as [Hn [Hfs Hd]]. simpl app in Hd. subst d1.
  pose proof (undiscard_regroup_spec links fs 0
                (map (fun f => if listed ids f then set_discarded false f else f) db)) as R.
  destruct (fold_left _ fs _) as [r d']. destruct R as [Hr Hd'].
  simpl in Hfs. split; [lia|split; [lia|]].
  rewrite Hd', map_map. reflexivity.
Qed.

End ReviewMoreExtras.

Module ExactGroupsMoreFacts.
Import Perceptual Model ModelFacts ExactGroups ExactGroupsFacts ReviewRouteFacts.

Lemma fold_left_map_in : forall (A B C : Type) (f : A -> B -> A) (a : C -> B) l acc,
  fold_left f (map a l) acc = fold_left (fun acc x => f acc (a x)) l acc.
Proof. intros A B C f a l; induction l as [|x r IH]; intros acc; simpl; auto. Qed.

(** Folds whose steps each set the exact columns of some ids to fixed
    values amount to one such step. *)
Lemma fold_sel_form : forall (A : Type) (step : Db -> A -> Db),
  (forall x, exists sel : Z -> option (option string * option string),
     forall d, step d x = map (fun f => match sel f.(id) with
                                        | Some gc => set_exact (fst gc) (snd gc) f
                                        | None => f end) d) ->
  forall G, exists sel : Z -> option (option string * option string),
    forall d, fold_left step G d = map (fun f => match sel f.(id) with
                                                 | Some gc => set_exact (fst gc) (snd gc) f
                                                 | None => f end) d.
Proof.
  intros A step Hs G. induction G as [|x r IH] using rev_ind.
  - exists (fun _ => None). intros d. simpl. rewrite map_id. reflexivity.
  - destruct IH as [selr Hr]. destruct (Hs x) as [selx Hx].
    exists (fun i => match selx i with Some gc => Some gc | None => selr i end).
    intros d. rewrite fold_left_app. simpl. rewrite Hx, Hr, map_map.
    apply map_ext. intros f.
    destruct (selr f.(id)) as [gc|] eqn:Er; simpl;
      destruct (selx _) as [gc'|] eqn:Ex; simpl; rewrite ?Er, ?Ex; try reflexivity.
    all: cbn [id set_exact] in *; rewrite ?Er, ?Ex; reflexivity.
Qed.

Lemma mark_duplicate_groups_form : forall G, exists sel : Z -> option (option string * option string),
  forall d, fold_left (fun d '(h, members) =>
      if (1 <? List.length members)%nat then mark_group h members d else d) G d =
    map (fun f => match sel f.(id) with
                  | Some gc => set_exact (fst gc) (snd gc) f
                  | None => f end) d.
Proof.
  apply fold_sel_form. intros [h ms].
  destruct (1 <? List.length ms)%nat.
  - exists (fun i => if existsb (Z.eqb i) ms then Some (Some h, Some "high") else None).
    intros d. rewrite mark_group_map. apply map_ext. intros f.
    destruct (existsb _ ms); reflexivity.
  - exists (fun _ => None). intros d. rewrite map_id. reflexivity.
Qed.

Lemma hash_groups_map : forall (a : File -> File) db,
  (forall f, (a f).(id) = f.(id) /\ (a f).(file_hash_sha256) = f.(file_hash_sha256)) ->
  hash_groups (map a db) = hash_groups db.
Proof.
  intros a db Ha. unfold hash_groups. rewrite fold_left_map_in.
  apply fold_left_ext. intros g f. destruct (Ha f) as [E1 E2]. rewrite E1, E2. reflexivity.
Qed.

End ExactGroupsMoreFacts.

Module ExactGroupsExtras.
Import Perceptual Model ExactGroups ExactGroupsMoreFacts.

(** Running [_mark_duplicate_groups] a second time changes nothing: the
    marked rows keep their ids and SHA-256 hashes, so the hash groups are
    the same and the marking writes the same values again. *)
Theorem mark_duplicate_groups_idempotent : forall db,
  mark_duplicate_groups (mark_duplicate_groups db) = mark_duplicate_groups db.
Proof.
  intros db. unfold mark_duplicate_groups at 2 3.
  destruct (mark_duplicate_groups_form (hash_groups db)) as [sel H].
  rewrite H. unfold mark_duplicate_groups.
  rewrite hash_groups_map.
  - rewrite H, map_map. apply map_ext. intros f.
    destruct (sel f.(id)) as [gc|] eqn:E; simpl; rewrite ?E; reflexivity.
  - intros f. destruct (sel f.(id)); split; reflexivity.
Qed.

End ExactGroupsExtras.

Module SequenceExtras.
Import Model Engine.

(** [detect_sequence_type] does not depend on the order of its two
    arguments: the gap is an absolute difference and a missing timestamp on
    either side gives ["similar"]. *)
Theorem detect_sequence_type_sym : forall a b,
  detect_sequence_type a b = detect_sequence_type b a.
Proof.
  intros a b. unfold detect_sequence_type.
  destruct a.(detected_timestamp) as [ta|], b.(detected_timestamp) as [tb|]; try reflexivity.
  replace (Z.abs (tb - ta)) with (Z.abs (ta - tb)) by (rewrite <- Z.abs_opp; f_equal; lia).
  reflexivity.
Qed.

End SequenceExtras.

Module TagFacts.
Import Model ReviewOps TagRoutes.

Lemma tag_fold_inv : forall (A B : Type) (P : A -> Prop) (f : A -> B -> A) l a,
  P a -> (forall a x, In x l -> P a -> P (f a x)) -> P (fold_left f l a).
Proof.
  intros A B P f l; induction l as [|x r IH]; intros a Ha Hs; simpl; [exact Ha|].
  apply IH; [apply Hs; [left; reflexivity|exact Ha]|].
  intros a' y Hy. apply Hs. right; exact Hy.
Qed.

Lemma tag_nodup_snoc : forall (A : Type) (l : list A) x, NoDup l -> ~ In x l -> NoDup (l ++ [x]).
Proof.
  intros A l x Hn Hx. induction Hn as [|y r Hy Hr IH]; simpl; [constructor; [intros []|constructor]|].
  constructor.
  - rewrite in_app_iff. intros [H|[H|[]]]; [contradiction|]. subst. apply Hx. left; reflexivity.
  - apply IH. intros H. apply Hx. right; exact H.
Qed.

Lemma set_usage_ids : forall tid k ts, map tag_id (set_usage tid k ts) = map tag_id ts.
Proof.
  intros tid k ts. unfold set_usage. rewrite map_map. apply map_ext. intros t.
  destruct (t.(tag_id) =? tid); reflexivity.
Qed.

Lemma set_usage_in : forall tid k ts x, In x (set_usage tid k ts) ->
  exists y, In y ts /\ x.(tag_id) = y.(tag_id) /\
    x.(usage_count) = (if y.(tag_id) =? tid then k y.(usage_count) else y.(usage_count)).
Proof.
  intros tid k ts x Hx. unfold set_usage in Hx. apply in_map_iff in Hx as [y [<- Hy]].
  exists y. split; [exact Hy|]. destruct (y.(tag_id) =? tid); split; reflexivity.
Qed.

Lemma tag_count_app : forall ft ft' tid,
  tag_count (ft ++ ft') tid = (tag_count ft tid + tag_count ft' tid)%nat.
Proof. intros. unfold tag_count. rewrite filter_app, length_app. reflexivity. Qed.

Lemma tag_count_one : forall fid t tid,
  tag_count [(fid, t)] tid = if t =? tid then 1%nat else 0%nat.
Proof. intros. unfold tag_count. simpl. destruct (t =? tid); reflexivity. Qed.

Lemma has_tag_in : forall ft fid tid, has_tag ft fid tid = true <-> In (fid, tid) ft.
Proof.
  intros ft fid tid. unfold has_tag. rewrite existsb_exists. split.
  - intros [[a b] [H E]]. apply andb_true_iff in E as [E1 E2].
    apply Z.eqb_eq in E1, E2. simpl in E1, E2. subst. exact H.
  - intros H. exists (fid, tid). split; [exact H|]. simpl. rewrite !Z.eqb_refl. reflexivity.
Qed.

Lemma tag_count_fresh : forall ft ts tid,
  Forall (fun p => In (snd p) (map tag_id ts)) ft -> ~ In tid (map tag_id ts) ->
  tag_count ft tid = 0%nat.
Proof.
  intros ft ts tid Hf Hn. unfold tag_count.
  induction Hf as [|p r Hp Hr IH]; [reflexivity|]. simpl.
  destruct (snd p =? tid) eqn:E; [|exact IH].
  apply Z.eqb_eq in E. rewrite E in Hp. contradiction.
Qed.

Lemma tag_find_app : forall (A : Type) (f : A -> bool) l1 l2,
  find f (l1 ++ l2) = match find f l1 with Some x => Some x | None => find f l2 end.
Proof.
  intros A f l1 l2; induction l1 as [|x r IH]; simpl; [reflexivity|].
  destruct (f x); [reflexivity|exact IH].
Qed.

Lemma find_tag_in : forall ts n t, find_tag ts n = Some t -> In t ts /\ t.(tag_name) = n.
Proof.
  intros ts n t H. unfold find_tag in H. apply find_some in H as [H E].
  apply String.eqb_eq in E. auto.
Qed.

Lemma tag_of_ok : forall n st, tags_ok st ->
  tags_ok (snd (tag_of n st)) /\
  In (fst (tag_of n st)).(tag_id) (map tag_id (snd (tag_of n st)).(tags)) /\
  (snd (tag_of n st)).(file_tags) = st.(file_tags) /\
  (forall i, In i (map tag_id st.(tags)) -> In i (map tag_id (snd (tag_of n st)).(tags))) /\
  find_tag (snd (tag_of n st)).(tags) n = Some (fst (tag_of n st)).
Proof.
  intros n st Hok. unfold tag_of.
  destruct (find_tag st.(tags) n) as [t|] eqn:F; simpl.
  - apply find_tag_in in F as F'. destruct F' as [Ht _].
    split; [exact Hok|split; [apply in_map; exact Ht|split; [reflexivity|split; [auto|exact F]]]].
  - destruct st as [ts ft nx]. simpl in *.
    destruct Hok as [H1 [H2 [H3 [H4 H5]]]].
    assert (Hfresh : ~ In nx (map tag_id ts)).
    { intros Hi. apply in_map_iff in Hi as [y [Ey Hy]].
      rewrite Forall_forall in H2. specialize (H2 y Hy). cbn in H2. lia. }
    split; [|split; [|split; [reflexivity|split]]].
    + unfold tags_ok; simpl. rewrite map_app. simpl.
      split; [apply tag_nodup_snoc; assumption|].
      split; [apply Forall_app; split; [|constructor; [simpl; lia|constructor]]|].
      { eapply Forall_impl; [|exact H2]. intros a Ha. simpl in Ha. lia. }
      split; [exact H3|]. split.
      { eapply Forall_impl; [|exact H4]. intros p Hp. apply in_app_iff. left; exact Hp. }
      apply Forall_app; split; [exact H5|]. constructor; [|constructor]. simpl.
      rewrite (tag_count_fresh ft ts nx H4 Hfresh). reflexivity.
    + rewrite map_app. apply in_app_iff. right. left. reflexivity.
    + intros i Hi. rewrite map_app. apply in_app_iff. left; exact Hi.
    + unfold find_tag in *. rewrite tag_find_app, F. simpl. rewrite String.eqb_refl. reflexivity.
Qed.

Lemma link_tag_ok : forall fid t st, tags_ok st ->
  In t.(tag_id) (map tag_id st.(tags)) -> has_tag st.(file_tags) fid t.(tag_id) = false ->
  tags_ok (link_tag fid t st).
Proof.
  intros fid t [ts ft nx] [H1 [H2 [H3 [H4 H5]]]] Hin Hh. simpl in *.
  unfold tags_ok, link_tag; simpl. rewrite set_usage_ids.
  split; [exact H1|]. split.
  { rewrite Forall_forall in *. intros x Hx.
    destruct (set_usage_in _ _ _ _ Hx) as [y [Hy [E _]]]. rewrite E. apply H2, Hy. }
  split.
  { apply tag_nodup_snoc; [exact H3|]. intros Hi. apply has_tag_in in Hi. congruence. }
  split.
  { apply Forall_app; split; [exact H4|constructor; [exact Hin|constructor]]. }
  rewrite Forall_forall in *. intros x Hx.
  destruct (set_usage_in _ _ _ _ Hx) as [y [Hy [E U]]]. rewrite U, E, H5 by exact Hy.
  rewrite tag_count_app, tag_count_one. rewrite (Z.eqb_sym (tag_id t)).
  destruct (y.(tag_id) =? t.(tag_id)); lia.
Qed.

Lemma tag_of_file_tags : forall n s, (snd (tag_of n s)).(file_tags) = s.(file_tags).
Proof. intros n s. unfold tag_of. destruct (find_tag s.(tags) n); reflexivity. Qed.

Lemma remove_link_split : forall ft fid tid, In (fid, tid) ft ->
  exists l1 l2, ft = l1 ++ [(fid, tid)] ++ l2 /\ remove_link fid tid ft = l1 ++ l2.
Proof.
  induction ft as [|[a b] r IH]; intros fid tid H; [destruct H|]. simpl.
  destruct ((a =? fid) && (b =? tid)) eqn:E.
  - apply andb_true_iff in E as [E1 E2]. apply Z.eqb_eq in E1, E2. subst.
    exists [], r. split; reflexivity.
  - destruct H as [H|H].
    + injection H as -> ->. rewrite !Z.eqb_refl in E. discriminate.
    + destruct (IH fid tid H) as [l1 [l2 [-> R]]].
      exists ((a, b) :: l1), l2. rewrite R. split; reflexivity.
Qed.

Lemma remove_tag_ok : forall fid t st, tags_ok st -> In t st.(tags) ->
  has_tag st.(file_tags) fid t.(tag_id) = true ->
  tags_ok (mkTagSt (set_usage t.(tag_id) (fun c => Z.max 0 (c - 1)) st.(tags))
             (remove_link fid t.(tag_id) st.(file_tags)) st.(next_tag_id)).
Proof.
  intros fid t [ts ft nx] [H1 [H2 [H3 [H4 H5]]]] Ht Hh. simpl in *.
  apply has_tag_in in Hh. destruct (remove_link_split _ _ _ Hh) as [l1 [l2 [E R]]].
  rewrite R. subst ft.
  unfold tags_ok; simpl. rewrite set_usage_ids.
  split; [exact H1|]. split.
  { rewrite Forall_forall in *. intros x Hx.
    destruct (set_usage_in _ _ _ _ Hx) as [y [Hy [E _]]]. rewrite E. apply H2, Hy. }
  split; [exact (NoDup_remove_1 _ _ _ H3)|]. split.
  { rewrite Forall_forall in *. intros p Hp. apply H4.
    apply in_app_iff in Hp as [Hp|Hp]; apply in_app_iff; [left|right; right]; exact Hp. }
  rewrite Forall_forall in *. intros x Hx.
  destruct (set_usage_in _ _ _ _ Hx) as [y [Hy [E U]]]. rewrite U, E, H5 by exact Hy.
  rewrite !tag_count_app, tag_count_one, (Z.eqb_sym (tag_id t)).
  destruct (y.(tag_id) =? t.(tag_id)); lia.
Qed.

Lemma add_tags_to_file_ok : forall strip lower fid data db st, tags_ok st ->
  tags_ok (snd (add_tags_to_file strip lower fid data db st)).
Proof.
  intros strip lower fid data db st Hok. unfold add_tags_to_file.
  destruct (get db fid); [|exact Hok]. destruct data as [names|]; [|exact Hok]. simpl.
  apply tag_fold_inv; [exact Hok|]. intros s x _ Hs. unfold add_one.
  destruct x as [n|]; [|exact Hs]. destruct (String.eqb (strip n) EmptyString); [exact Hs|].
  pose proof (tag_of_ok (lower (strip n)) s Hs) as [A [B [C _]]].
  destruct (tag_of (lower (strip n)) s) as [t s1]. simpl in *.
  destruct (has_tag s1.(file_tags) fid t.(tag_id)) eqn:H; [exact A|].
  apply link_tag_ok; assumption.
Qed.

Lemma remove_tag_from_file_ok : forall strip lower fid n db st, tags_ok st ->
  tags_ok (snd (remove_tag_from_file strip lower fid n db st)).
Proof.
  intros strip lower fid n db st Hok. unfold remove_tag_from_file.
  destruct (get db fid); [|exact Hok].
  destruct (find_tag st.(tags) (lower (strip n))) as [t|] eqn:F; [|exact Hok].
  destruct (has_tag st.(file_tags) fid t.(tag_id)) eqn:H; [|exact Hok]. simpl.
  apply remove_tag_ok; [exact Hok| |exact H].
  apply find_tag_in in F as [F _]. exact F.
Qed.

Lemma bulk_add_tags_ok : forall strip lower data db st, tags_ok st ->
  tags_ok (snd (bulk_add_tags strip lower data db st)).
Proof.
  intros strip lower data db st Hok. unfold bulk_add_tags.
  destruct data as [[fids names]|]; [|exact Hok].
  match goal with |- context [fold_left ?F names ([], st)] =>
    assert (Q : tags_ok (snd (fold_left F names ([], st))) /\
                Forall (fun t => In t.(tag_id) (map tag_id (snd (fold_left F names ([], st))).(tags)))
                  (fst (fold_left F names ([], st))));
    [|destruct (fold_left F names ([], st)) as [l st1]]
  end.
  { apply (tag_fold_inv _ _ (fun acc => tags_ok (snd acc) /\
             Forall (fun t => In t.(tag_id) (map tag_id (snd acc).(tags))) (fst acc))).
    - split; [exact Hok|constructor].
    - intros [l s] x _ [Hs Hl]. destruct x as [n|]; [|split; assumption].
      destruct (String.eqb (strip n) EmptyString); [split; assumption|].
      pose proof (tag_of_ok (lower (strip n)) s Hs) as [A [B [C [D _]]]].
      destruct (tag_of (lower (strip n)) s) as [t s1]. simpl in *.
      split; [exact A|]. apply Forall_app; split.
      + eapply Forall_impl; [|exact Hl]. intros a Ha. apply D, Ha.
      + constructor; [exact B|constructor]. }
  simpl in Q. destruct Q as [Q1 Q2].
  match goal with |- context [fold_left ?G fids (0, [], st1)] =>
    assert (Q : tags_ok (snd (fold_left G fids (0, [], st1))) /\
                map tag_id (snd (fold_left G fids (0, [], st1))).(tags) = map tag_id st1.(tags));
    [|destruct (fold_left G fids (0, [], st1)) as [[a u] st2]]
  end.
  { apply (tag_fold_inv _ _ (fun acc => tags_ok (snd acc) /\
             map tag_id (snd acc).(tags) = map tag_id st1.(tags))).
    - split; [exact Q1|reflexivity].
    - intros acc fid _ H. destruct (get db fid); [|exact H].
      apply tag_fold_inv; [exact H|].
      intros [[k upd] s] t Ht [Hs Hm]. simpl in *.
      destruct (has_tag s.(file_tags) fid t.(tag_id)) eqn:Hh; [split; assumption|].
      split; simpl.
      + apply link_tag_ok; [exact Hs| |exact Hh]. rewrite Hm.
        rewrite Forall_forall in Q2. apply Q2, Ht.
      + rewrite set_usage_ids. exact Hm. }
  simpl. exact (proj1 Q).
Qed.

(** The file [fid] carries the tag named [n]. *)
Definition attached (n : string) (fid : Z) (s : TagSt) : Prop :=
  exists t, find_tag s.(tags) n = Some t /\ has_tag s.(file_tags) fid t.(tag_id) = true.

Lemma find_tag_set_usage : forall ts n t tid k, find_tag ts n = Some t ->
  exists t', find_tag (set_usage tid k ts) n = Some t' /\ t'.(tag_id) = t.(tag_id).
Proof.
  induction ts as [|x r IH]; intros n t tid k H; [discriminate|].
  unfold find_tag, set_usage in *. simpl in *.
  destruct (String.eqb x.(tag_name) n) eqn:E.
  - injection H as <-. destruct (x.(tag_id) =? tid); simpl; rewrite E; eauto.
  - destruct (x.(tag_id) =? tid); simpl; rewrite E; apply IH; exact H.
Qed.

Lemma has_tag_app : forall ft ft' fid tid, has_tag ft fid tid = true -> has_tag (ft ++ ft') fid tid = true.
Proof. intros. unfold has_tag in *. rewrite existsb_app, H. reflexivity. Qed.

Lemma attached_link : forall n fid fid' t s, attached n fid s -> attached n fid (link_tag fid' t s).
Proof.
  intros n fid fid' t s [u [F H]]. unfold link_tag; simpl.
  destruct (find_tag_set_usage _ _ _ t.(tag_id) (fun c => c + 1) F) as [u' [F' E]].
  exists u'. split; [exact F'|]. rewrite E. apply has_tag_app, H.
Qed.

Lemma attached_tag_of : forall n m fid s, attached n fid s -> attached n fid (snd (tag_of m s)).
Proof.
  intros n m fid s [u [F H]]. unfold tag_of.
  destruct (find_tag s.(tags) m); simpl; [exists u; auto|].
  exists u. cbn [tags file_tags]. unfold find_tag in *. rewrite tag_find_app, F. auto.
Qed.

Lemma add_one_keeps : forall strip lower n fid s x,
  attached n fid s -> attached n fid (add_one strip lower fid s x).
Proof.
  intros strip lower n fid s x H. unfold add_one.
  destruct x as [m|]; [|exact H]. destruct (String.eqb (strip m) EmptyString); [exact H|].
  pose proof (attached_tag_of n (lower (strip m)) fid s H) as H1.
  destruct (tag_of (lower (strip m)) s) as [t s1]. simpl in H1.
  destruct (has_tag s1.(file_tags) fid t.(tag_id)); [exact H1|]. apply attached_link, H1.
Qed.

Lemma add_one_attaches : forall strip lower fid s m, strip m <> EmptyString ->
  attached (lower (strip m)) fid (add_one strip lower fid s (Some m)).
Proof.
  intros strip lower fid s m Hm. unfold add_one.
  destruct (String.eqb (strip m) EmptyString) eqn:E; [apply String.eqb_eq in E; contradiction|].
  assert (F : find_tag (snd (tag_of (lower (strip m)) s)).(tags) (lower (strip m)) =
              Some (fst (tag_of (lower (strip m)) s))).
  { unfold tag_of. destruct (find_tag s.(tags) (lower (strip m))) eqn:F0; simpl; [exact F0|].
    unfold find_tag in *. rewrite tag_find_app, F0. simpl. rewrite String.eqb_refl. reflexivity. }
  destruct (tag_of (lower (strip m)) s) as [t s1]. simpl in F.
  destruct (has_tag s1.(file_tags) fid t.(tag_id)) eqn:H.
  - exists t. auto.
  - destruct (find_tag_set_usage _ _ _ t.(tag_id) (fun c => c + 1) F) as [u' [F' E']].
    exists u'. unfold link_tag; simpl. split; [exact F'|]. rewrite E'.
    apply has_tag_in. apply in_app_iff. right; left; reflexivity.
Qed.

Lemma add_fold_attached : forall strip lower fid names st,
  (forall n, attached n fid st -> attached n fid (fold_left (add_one strip lower fid) names st)) /\
  (forall m, In (Some m) names -> strip m <> EmptyString ->
     attached (lower (strip m)) fid (fold_left (add_one strip lower fid) names st)).
Proof.
  intros strip lower fid names. induction names as [|x r IH]; intros st; simpl.
  - split; [auto|intros m []].
  - split.
    + intros n H. apply (proj1 (IH _)). apply add_one_keeps, H.
    + intros m [Ex|Hm] Hb.
      * subst x. apply (proj1 (IH _)). apply add_one_attaches, Hb.
      * apply (proj2 (IH _)); assumption.
Qed.

Lemma add_set_spec : forall (upd : list Z) x, NoDup upd ->
  NoDup (add_set Z.eqb x upd) /\ (forall y, In y (add_set Z.eqb x upd) <-> In y upd \/ y = x).
Proof.
  intros upd x Hn. unfold add_set. destruct (existsb (Z.eqb x) upd) eqn:E.
  - apply existsb_exists in E as [z [Hz Ez]]. apply Z.eqb_eq in Ez. subst z.
    split; [exact Hn|]. intros y. split; [auto|intros [H| ->]; auto].
  - split.
    + apply tag_nodup_snoc; [exact Hn|]. intros Hx.
      assert (existsb (Z.eqb x) upd = true) by (apply existsb_exists; exists x; split; [exact Hx|apply Z.eqb_refl]).
      congruence.
    + intros y. rewrite in_app_iff. simpl. split; [intros [H|[H|[]]]; auto|intros [H| ->]; auto].
Qed.

Lemma nodup_same_length : forall (l1 l2 : list Z), NoDup l1 -> NoDup l2 ->
  (forall x, In x l1 <-> In x l2) -> List.length l1 = List.length l2.
Proof.
  intros l1 l2 H1 H2 E. apply Nat.le_antisymm; apply NoDup_incl_length; auto;
    intros x Hx; apply E; exact Hx.
Qed.

End TagFacts.

Module TagExtras.
Import Model ReviewOps TagRoutes TagFacts TagSamples.

(** The tag routes keep every tag's [usage_count] equal to the number of
    files carrying it (with distinct tag ids and distinct links to existing
    tags): [add_tags_to_file], [remove_tag_from_file] and [bulk_add_tags]
    map consistent tables to consistent tables, whatever their input. *)
Theorem tag_routes_keep_usage_counts : forall strip lower db st,
  tags_ok st ->
  (forall fid data, tags_ok (snd (add_tags_to_file strip lower fid data db st))) /\
  (forall fid n, tags_ok (snd (remove_tag_from_file strip lower fid n db st))) /\
  (forall data, tags_ok (snd (bulk_add_tags strip lower data db st))).
Proof.
  intros strip lower db st Hok.
  split; [|split]; intros.
  - apply add_tags_to_file_ok, Hok.
  - apply remove_tag_from_file_ok, Hok.
  - apply bulk_add_tags_ok, Hok.
Qed.

(** [tag_routes_keep_usage_counts] on one tag used once. *)
Lemma tag_routes_keep_usage_counts_witness :
  tags_ok tag_state /\
  (forall fid data, tags_ok (snd (add_tags_to_file plain plain fid data tag_db tag_state))) /\
  (forall fid n, tags_ok (snd (remove_tag_from_file plain plain fid n tag_db tag_state))) /\
  (forall data, tags_ok (snd (bulk_add_tags plain plain data tag_db tag_state))).
Proof.
  assert (H : tags_ok tag_state).
  { unfold tags_ok, tag_state; simpl.
    split; [repeat constructor; simpl; tauto|].
    split; [repeat constructor; simpl; lia|].
    split; [repeat constructor; simpl; tauto|].
    split; repeat constructor; simpl; auto. }
  split; [exact H|]. exact (tag_routes_keep_usage_counts plain plain tag_db tag_state H).
Defined.

(** [add_tags_to_file] on an existing file with a list of names answers
    200; afterwards the file carries every tag it carried before and the
    tag of every string name that is not blank after stripping, found
    under its stripped lower-case name. *)
Theorem add_tags_to_file_attaches : forall strip lower fid names db st f,
  get db fid = Some f ->
  exists st', add_tags_to_file strip lower fid (Some names) db st = (200, st') /\
    (forall n t, find_tag st.(tags) n = Some t -> has_tag st.(file_tags) fid t.(tag_id) = true ->
       exists t', find_tag st'.(tags) n = Some t' /\ has_tag st'.(file_tags) fid t'.(tag_id) = true) /\
    (forall m, In (Some m) names -> strip m <> EmptyString ->
       exists t, find_tag st'.(tags) (lower (strip m)) = Some t /\
                 has_tag st'.(file_tags) fid t.(tag_id) = true).
Proof.
  intros strip lower fid names db st f Hg.
  exists (fold_left (add_one strip lower fid) names st).
  unfold add_tags_to_file. rewrite Hg. split; [reflexivity|].
  destruct (add_fold_attached strip lower fid names st) as [A B]. split.
  - intros n t F H. apply A. exists t. auto.
  - exact B.
Qed.

(** [add_tags_to_file_attaches] adding "sea" to file 2. *)
Lemma add_tags_to_file_attaches_witness :
  get tag_db 2 = Some (blank 2 "b.jpg") /\
  exists st', add_tags_to_file plain plain 2 (Some [Some "sea"; None]) tag_db tag_state = (200, st') /\
    (forall n t, find_tag tag_state.(tags) n = Some t -> has_tag tag_state.(file_tags) 2 t.(tag_id) = true ->
       exists t', find_tag st'.(tags) n = Some t' /\ has_tag st'.(file_tags) 2 t'.(tag_id) = true) /\
    (forall m, In (Some m) [Some "sea"; None] -> plain m <> EmptyString ->
       exists t, find_tag st'.(tags) (plain (plain m)) = Some t /\
                 has_tag st'.(file_tags) 2 t.(tag_id) = true).
Proof.
  split; [reflexivity|].
  exact (add_tags_to_file_attaches plain plain 2 [Some "sea"; None] tag_db tag_state
           (blank 2 "b.jpg") eq_refl).
Defined.

(** [remove_tag_from_file] on an existing file and a tag that exists
    answers 200; afterwards the file no longer carries the tag and every
    other link is kept (consistent tables). *)
Theorem remove_tag_from_file_detaches : forall strip lower fid n db st f t,
  tags_ok st -> get db fid = Some f -> find_tag st.(tags) (lower (strip n)) = Some t ->
  exists st', remove_tag_from_file strip lower fid n db st = (200, st') /\
    has_tag st'.(file_tags) fid t.(tag_id) = false /\
    (forall p, In p st'.(file_tags) <-> In p st.(file_tags) /\ p <> (fid, t.(tag_id))).
Proof.
  intros strip lower fid n db st f t Hok Hg F.
  unfold remove_tag_from_file. rewrite Hg, F.
  destruct (has_tag st.(file_tags) fid t.(tag_id)) eqn:H.
  - eexists; split; [reflexivity|]. simpl.
    destruct Hok as [_ [_ [H3 _]]]. apply has_tag_in in H.
    destruct (remove_link_split _ _ _ H) as [l1 [l2 [E R]]]. rewrite R.
    rewrite E in H3. simpl in H3. pose proof (NoDup_remove_2 _ _ _ H3) as Hx.
    split.
    + destruct (has_tag (l1 ++ l2) fid t.(tag_id)) eqn:H'; [|reflexivity].
      apply has_tag_in in H'. contradiction.
    + intros p. rewrite E. rewrite !in_app_iff. simpl. split.
      * intros Hp. split; [tauto|]. intros ->. apply Hx, in_app_iff, Hp.
      * intros [Hp Hne]. destruct Hp as [Hp|[[Hp|[]]|Hp]]; [left; exact Hp|congruence|right; exact Hp].
  - eexists; split; [reflexivity|]. split; [exact H|]. intros p. split.
    + intros Hp. split; [exact Hp|]. intros ->. apply has_tag_in in Hp. congruence.
    + intros [Hp _]. exact Hp.
Qed.

(** [remove_tag_from_file_detaches] removing "beach" from file 1. *)
Lemma remove_tag_from_file_detaches_witness :
  exists st', remove_tag_from_file plain plain 1 "beach" tag_db tag_state = (200, st') /\
    has_tag st'.(file_tags) 1 1 = false /\
    (forall p, In p st'.(file_tags) <-> In p tag_state.(file_tags) /\ p <> (1, 1)).
Proof.
  apply (remove_tag_from_file_detaches plain plain 1 "beach" tag_db tag_state
           (blank 1 "a.jpg") (mkTag 1 "beach" 1)).
  - unfold tags_ok, tag_state; simpl.
    split; [repeat constructor; simpl; tauto|].
    split; [repeat constructor; simpl; lia|].
    split; [repeat constructor; simpl; tauto|].
    split; repeat constructor; simpl; auto.
  - reflexivity.
  - reflexivity.
Defined.

(** [bulk_add_tags] with both lists answers 200 and only appends links:
    [tags_added] is the number of new links, [files_updated] the number of
    distinct files among them, and each new link is for a listed file that
    exists. *)
Theorem bulk_add_tags_counts : forall strip lower fids names db st,
  let '(status, added, updated, st') := bulk_add_tags strip lower (Some (fids, names)) db st in
  status = 200 /\
  exists new, st'.(file_tags) = st.(file_tags) ++ new /\
    added = Z.of_nat (List.length new) /\
    updated = Z.of_nat (List.length (nodup Z.eq_dec (map fst new))) /\
    Forall (fun p => In (fst p) fids /\ get db (fst p) <> None) new.
Proof.
  intros strip lower fids names db st. unfold bulk_add_tags.
  match goal with |- context [fold_left ?F names ([], st)] =>
    assert (Q : (snd (fold_left F names ([], st))).(file_tags) = st.(file_tags));
    [|destruct (fold_left F names ([], st)) as [l st1]]
  end.
  { apply (tag_fold_inv _ _ (fun acc => (snd acc).(file_tags) = st.(file_tags))); [reflexivity|].
    intros [l s] x _ Hs. destruct x as [n|]; [|exact Hs].
    destruct (String.eqb (strip n) EmptyString); [exact Hs|].
    pose proof (tag_of_file_tags (lower (strip n)) s) as T.
    destruct (tag_of (lower (strip n)) s) as [t s1]. simpl in *. congruence. }
  simpl in Q.
  match goal with |- context [fold_left ?G fids (0, [], st1)] =>
    assert (R : exists new, (snd (fold_left G fids (0, [], st1))).(file_tags) = st.(file_tags) ++ new /\
       fst (fst (fold_left G fids (0, [], st1))) = Z.of_nat (List.length new) /\
       NoDup (snd (fst (fold_left G fids (0, [], st1)))) /\
       (forall x, In x (snd (fst (fold_left G fids (0, [], st1)))) <-> In x (map fst new)) /\
       Forall (fun p => In (fst p) fids /\ get db (fst p) <> None) new);
    [|destruct (fold_left G fids (0, [], st1)) as [[a u] st2]]
  end.
  { apply (tag_fold_inv _ _ (fun acc => exists new, (snd acc).(file_tags) = st.(file_tags) ++ new /\
       fst (fst acc) = Z.of_nat (List.length new) /\ NoDup (snd (fst acc)) /\
       (forall x, In x (snd (fst acc)) <-> In x (map fst new)) /\
       Forall (fun p => In (fst p) fids /\ get db (fst p) <> None) new)).
    - exists []. simpl. rewrite app_nil_r.
      split; [exact Q|split; [reflexivity|split; [constructor|split; [simpl; tauto|constructor]]]].
    - intros acc fid Hin H. destruct (get db fid) as [g|] eqn:G; [|exact H].
      apply tag_fold_inv; [exact H|].
      intros [[k upd] s] t _ [new [E1 [E2 [E3 [E4 E5]]]]]. simpl in *.
      destruct (has_tag s.(file_tags) fid t.(tag_id)); [exists new; auto|].
      destruct (add_set_spec upd fid E3) as [A1 A2].
      exists (new ++ [(fid, t.(tag_id))]). simpl. split; [|split; [|split; [exact A1|split]]].
      + rewrite E1, app_assoc. reflexivity.
      + rewrite length_app. simpl. lia.
      + intros x. rewrite A2, E4, map_app, in_app_iff. simpl.
        split; intros [Hx|Hx]; try (left; exact Hx);
          [right; left; congruence|right; destruct Hx as [Hx|[]]; congruence].
      + apply Forall_app. split; [exact E5|]. constructor; [|constructor]. simpl.
        split; [exact Hin|congruence]. }
  destruct R as [new [E1 [E2 [E3 [E4 E5]]]]]. simpl in *.
  split; [reflexivity|]. exists new. split; [exact E1|]. split; [exact E2|]. split; [|exact E5].
  f_equal. apply nodup_same_length; [exact E3|apply NoDup_nodup|].
  intros x. rewrite E4, nodup_In. tauto.
Qed.

End TagExtras.

Module AutoTagsFacts.
Import TagRoutes TagFacts AutoTags.

Lemma tag_of_length : forall n s,
  Z.of_nat (List.length (snd (tag_of n s)).(tags)) =
  Z.of_nat (List.length s.(tags)) + match find_tag s.(tags) n with None => 1 | Some _ => 0 end.
Proof.
  intros n s. unfold tag_of. destruct (find_tag s.(tags) n); simpl; [lia|].
  rewrite length_app. simpl. lia.
Qed.

Lemma set_usage_length : forall tid k ts, List.length (set_usage tid k ts) = List.length ts.
Proof. intros. unfold set_usage. apply length_map. Qed.

End AutoTagsFacts.

Module AutoTagsExtras.
Import TagRoutes TagFacts TagSamples AutoTags AutoTagsFacts.

(** [apply_auto_tags] keeps the tag tables consistent (each [usage_count]
    equal to the number of files carrying the tag) and only appends links:
    [tags_applied] is the number of appended links, [tags_created] the
    number of new tag rows, and [files_tagged] is at most [tags_applied]. *)
Theorem apply_auto_tags_spec : forall files st, tags_ok st ->
  let '(files_tagged, tags_created, tags_applied, st') := apply_auto_tags files st in
  tags_ok st' /\
  (exists new, st'.(file_tags) = st.(file_tags) ++ new /\ tags_applied = Z.of_nat (List.length new)) /\
  Z.of_nat (List.length st'.(tags)) = Z.of_nat (List.length st.(tags)) + tags_created /\
  0 <= files_tagged <= tags_applied.
Proof.
  intros files st Hok. unfold apply_auto_tags.
  match goal with |- context [fold_left ?F files (0, 0, 0, st)] =>
    assert (Q : let acc := fold_left F files (0, 0, 0, st) in
      tags_ok (snd acc) /\
      (exists new, (snd acc).(file_tags) = st.(file_tags) ++ new /\
                   snd (fst acc) = Z.of_nat (List.length new)) /\
      Z.of_nat (List.length (snd acc).(tags)) = Z.of_nat (List.length st.(tags)) + snd (fst (fst acc)) /\
      0 <= fst (fst (fst acc)) <= snd (fst acc));
    [|destruct (fold_left F files (0, 0, 0, st)) as [[[ft c] a] s']; exact Q]
  end.
  apply (tag_fold_inv _ _ (fun acc =>
      tags_ok (snd acc) /\
      (exists new, (snd acc).(file_tags) = st.(file_tags) ++ new /\
                   snd (fst acc) = Z.of_nat (List.length new)) /\
      Z.of_nat (List.length (snd acc).(tags)) = Z.of_nat (List.length st.(tags)) + snd (fst (fst acc)) /\
      0 <= fst (fst (fst acc)) <= snd (fst acc))).
  - simpl. split; [exact Hok|]. split; [exists []; rewrite app_nil_r; split; reflexivity|]. lia.
  - intros [[[ft c] a] s] [fid names] _ H. simpl in H.
    destruct names as [|n0 rest]; [exact H|].
    destruct H as [H1 [[new0 [N1 N2]] [H3 H4]]].
    match goal with |- context [fold_left ?G (n0 :: rest) (c, a, false, s)] =>
      assert (R : let acc := fold_left G (n0 :: rest) (c, a, false, s) in
        tags_ok (snd acc) /\
        (exists new, (snd acc).(file_tags) = st.(file_tags) ++ new /\
                     snd (fst (fst acc)) = Z.of_nat (List.length new)) /\
        Z.of_nat (List.length (snd acc).(tags)) = Z.of_nat (List.length st.(tags)) + fst (fst (fst acc)) /\
        a <= snd (fst (fst acc)) /\ (snd (fst acc) = true -> a + 1 <= snd (fst (fst acc))));
      [|destruct (fold_left G (n0 :: rest) (c, a, false, s)) as [[[c2 a2] ch] s2]]
    end.
    + apply (tag_fold_inv _ _ (fun acc =>
        tags_ok (snd acc) /\
        (exists new, (snd acc).(file_tags) = st.(file_tags) ++ new /\
                     snd (fst (fst acc)) = Z.of_nat (List.length new)) /\
        Z.of_nat (List.length (snd acc).(tags)) = Z.of_nat (List.length st.(tags)) + fst (fst (fst acc)) /\
        a <= snd (fst (fst acc)) /\ (snd (fst acc) = true -> a + 1 <= snd (fst (fst acc))))).
      * simpl. split; [exact H1|]. split; [exists new0; auto|]. split; [exact H3|]. split; [lia|discriminate].
      * intros [[[c0 a0] ch0] s0] n _ [G1 [[new [M1 M2]] [G3 [G4 G5]]]]. simpl in *.
        pose proof (tag_of_ok n s0 G1) as [A [B [C _]]].
        pose proof (tag_of_length n s0) as L.
        destruct (tag_of n s0) as [t s1]. simpl in *.
        destruct (has_tag s1.(file_tags) fid t.(tag_id)) eqn:Hh; simpl.
        -- split; [exact A|]. split; [exists new; rewrite C; auto|].
           split; [destruct (find_tag s0.(tags) n); lia|]. split; [lia|exact G5].
        -- split; [apply link_tag_ok; assumption|].
           split; [exists (new ++ [(fid, t.(tag_id))]); unfold link_tag; simpl;
                   rewrite C, M1, app_assoc, length_app; simpl; split; [reflexivity|lia]|].
           unfold link_tag; simpl. rewrite set_usage_length.
           split; [destruct (find_tag s0.(tags) n); lia|]. split; [lia|intros _; lia].
    + simpl in R. destruct R as [R1 [R2 [R3 [R4 R5]]]]. simpl.
      split; [exact R1|]. split; [exact R2|]. split; [exact R3|].
      destruct ch; [specialize (R5 eq_refl)|]; lia.
Qed.

(** [apply_auto_tags_spec] tagging files 1 and 2. *)
Lemma apply_auto_tags_spec_witness :
  tags_ok tag_state /\
  let '(files_tagged, tags_created, tags_applied, st') :=
    apply_auto_tags [(1, ["beach"; "sea"]); (2, [])] tag_state in
  tags_ok st' /\
  (exists new, st'.(file_tags) = tag_state.(file_tags) ++ new /\
               tags_applied = Z.of_nat (List.length new)) /\
  Z.of_nat (List.length st'.(tags)) = Z.of_nat (List.length tag_state.(tags)) + tags_created /\
  0 <= files_tagged <= tags_applied.
Proof.
  assert (H : tags_ok tag_state).
  { unfold tags_ok, tag_state; simpl.
    split; [repeat constructor; simpl; tauto|].
    split; [repeat constructor; simpl; lia|].
    split; [repeat constructor; simpl; tauto|].
    split; repeat constructor; simpl; auto. }
  split; [exact H|]. exact (apply_auto_tags_spec [(1, ["beach"; "sea"]); (2, [])] tag_state H).
Defined.

End AutoTagsExtras.

Module DiscardStoreExtras.
Import Perceptual Model ModelFacts Aux Review ReviewOps ReviewSteps ReviewRouteFacts2 DiscardExtras TagFacts.

Lemma store_get_set : forall st k c i,
  store_get (store_set st k c) i = if k =? i then c else store_get st i.
Proof. intros st k c i. unfold store_get, store_set. simpl. destruct (k =? i); reflexivity. Qed.

Lemma add_to_group_keys : forall h i acc p,
  In p (ExactGroups.add_to_group h i acc) -> fst p = h \/ exists q, In q acc /\ fst q = fst p.
Proof.
  intros h i acc; induction acc as [|[h' l] r IH]; intros p Hp; simpl in Hp.
  - destruct Hp as [<-|[]]. left; reflexivity.
  - destruct (String.eqb h h') eqn:E.
    + apply String.eqb_eq in E; subst h'. destruct Hp as [<-|Hp]; [left; reflexivity|].
      right. exists p. split; [right; exact Hp|reflexivity].
    + destruct Hp as [<-|Hp].
      * right. exists (h', l). split; [left; reflexivity|reflexivity].
      * destruct (IH p Hp) as [Eh|[q [Hq Eq]]]; [left; exact Eh|].
        right. exists q. split; [right; exact Hq|exact Eq].
Qed.

Lemma files_by_group_keys : forall gid ids db p,
  In p (files_by_group gid ids db) -> affected gid db ids (fst p).
Proof.
  intros gid ids db. unfold files_by_group.
  apply tag_fold_inv with (P := fun acc => forall p, In p acc -> affected gid db ids (fst p)).
  - intros p [].
  - intros acc i Hi IH p Hp.
    destruct (get db i) as [f|] eqn:E; [|exact (IH p Hp)].
    destruct (gid f) as [g|] eqn:G; [|exact (IH p Hp)].
    destruct (truthy (Some g)) eqn:T; [|exact (IH p Hp)].
    destruct (add_to_group_keys g i acc p Hp) as [Eh|[q [Hq Eq]]].
    + rewrite Eh. exists f. repeat split.
      * exact (get_in db i f E).
      * unfold listed. apply existsb_exists. exists i. split; [exact Hi|].
        rewrite (get_id db i f E). apply Z.eqb_refl.
      * rewrite G. exact T.
      * exact G.
    + rewrite <- Eq. exact (IH q Hq).
Qed.

Lemma accumulate_frame : forall gid ids db groups st i,
  (forall f, In f db -> f.(id) = i -> f.(discarded) = false -> listed ids f = false ->
     forall g, gid f = Some g -> In g (map fst groups) -> False) ->
  store_get (accumulate_groups gid ids db groups st) i = store_get st i.
Proof.
  intros gid ids db groups st i H. unfold accumulate_groups.
  apply tag_fold_inv with (P := fun s => store_get s i = store_get st i); [reflexivity|].
  intros s p Hp Hs.
  apply tag_fold_inv with (P := fun s => store_get s i = store_get st i); [exact Hs|].
  intros s' k Hk Hs'. rewrite store_get_set.
  destruct (k.(id) =? i) eqn:E; [exfalso|exact Hs'].
  apply filter_In in Hk as [Hk Hc].
  apply andb_prop in Hc as [Hc H3]. apply andb_prop in Hc as [H1 H2].
  destruct (gid k) as [g|] eqn:G; [|discriminate].
  apply String.eqb_eq in H1.
  apply (H k Hk (proj1 (Z.eqb_eq _ _) E)) with g.
  - apply negb_true_iff in H2. exact H2.
  - apply negb_true_iff in H3. exact H3.
  - exact G.
  - rewrite H1. apply in_map. exact Hp.
Qed.

Lemma bulk_discard_store_frame : forall links ids st db i,
  (forall f, In f db -> f.(id) = i -> f.(discarded) = false -> listed ids f = false ->
     (forall g, f.(exact_group_id) = Some g -> ~ affected exact_group_id db ids g) /\
     (forall g, f.(similar_group_id) = Some g -> ~ affected similar_group_id db ids g)) ->
  store_get (snd (bulk_discard links ids st db)) i = store_get st i.
Proof.
  intros links ids st db i H. unfold bulk_discard. cbv zeta.
  destruct (discard_pass ids db) as [[[n ax] asim] d]. simpl.
  rewrite accumulate_frame; [apply accumulate_frame|].
  - intros f Hf Hi Hd Hl g G Hg.
    apply in_map_iff in Hg as [p [Eg Hp]]. subst g.
    apply files_by_group_keys in Hp.
    exact (proj1 (H f Hf Hi Hd Hl) _ G Hp).
  - intros f Hf Hi Hd Hl g G Hg.
    apply in_map_iff in Hg as [p [Eg Hp]]. subst g.
    apply files_by_group_keys in Hp.
    exact (proj2 (H f Hf Hi Hd Hl) _ G Hp).
Qed.

(** [bulk_discard] on a valid [file_ids] list: [files_discarded] counts the
    entries that name an existing row (a repeated id counts each time); every
    listed row is discarded with its review and group fields cleared; any
    other row of the files table keeps its columns except that it may lose
    its exact group, its similar fields or both, each only when a listed row
    was in that group; among the rows of the jobs of the listed rows, no
    affected group is left with exactly one non-discarded member; and the
    [timestamp_candidates] column (the store) changes only for the
    non-discarded, unlisted rows that share an exact or similar group with a
    listed row, the kept members whose candidates [accumulate_metadata]
    extends. *)
Theorem bulk_discard_spec : forall links ids st db, NoDup (map id db) ->
  let '(n, d', st') := bulk_discard links ids st db in
  n = Z.of_nat (List.length
        (filter (fun i => match get db i with Some _ => true | None => false end) ids)) /\
  Forall2 (fun a b =>
      if listed ids a then b = discard_row a
      else b = a \/
           (b = clear_exact_id a /\
            exists g, a.(exact_group_id) = Some g /\ affected exact_group_id db ids g) \/
           (b = clear_similar_fields a /\
            exists g, a.(similar_group_id) = Some g /\ affected similar_group_id db ids g) \/
           (b = clear_similar_fields (clear_exact_id a) /\
            (exists g, a.(exact_group_id) = Some g /\ affected exact_group_id db ids g) /\
            (exists g, a.(similar_group_id) = Some g /\ affected similar_group_id db ids g)))
    db d' /\
  (forall g, affected exact_group_id db ids g ->
     List.length (filter (fun f => is_member exact_group_id g f &&
                                   job_scope links (bulk_jobs links ids db) f) d') <> 1%nat) /\
  (forall g, affected similar_group_id db ids g ->
     List.length (filter (fun f => is_member similar_group_id g f &&
                                   job_scope links (bulk_jobs links ids db) f) d') <> 1%nat) /\
  (forall i,
     (forall f, In f db -> f.(id) = i -> f.(discarded) = false -> listed ids f = false ->
        (forall g, f.(exact_group_id) = Some g -> ~ affected exact_group_id db ids g) /\
        (forall g, f.(similar_group_id) = Some g -> ~ affected similar_group_id db ids g)) ->
     store_get st' i = store_get st i).
Proof.
  intros links ids st db Hn.
  pose proof (bulk_discard_rows links ids st db Hn) as R.
  pose proof (bulk_discard_store_frame links ids st db) as SF.
  destruct (bulk_discard links ids st db) as [[n d'] st']. simpl in SF.
  destruct R as [A [B [C D]]].
  exact (conj A (conj B (conj C (conj D SF)))).
Qed.

Lemma bulk_discard_spec_witness :
  NoDup (map id ReviewSamples.group_rows) /\
  fst (fst (bulk_discard [] [1; 1; 9] [] ReviewSamples.group_rows)) = 2.
Proof.
  split; [exact nodup_group_rows|].
  pose proof (bulk_discard_spec [] [1; 1; 9] [] ReviewSamples.group_rows nodup_group_rows) as H.
  destruct (bulk_discard [] [1; 1; 9] [] ReviewSamples.group_rows) as [[n d'] st'].
  destruct H as [Hc _]. simpl. rewrite Hc. reflexivity.
Defined.

End DiscardStoreExtras.
